(** * shippingBox: the pricing, validation, colour and store logic

    A shallow embedding of [src/utils/index.js], [src/constants/index.js],
    [src/context/BoxContext.js] and of the submission path of
    [src/hooks/useBoxForm.js] / [src/hooks/useFormValidation.js].

    Conventions of the embedding:
    - a JavaScript number is an IEEE 754 binary64 value: Rocq's primitive
      [float]. Numbers that only ever count (array lengths, colour channels)
      are integers below 2^53 and are kept as [N];
    - a JavaScript string is a [string]; its characters stand for the code
      units U+0000..U+007F, on which [toUpperCase], [trim], [length] and
      the regular expression classes [\d], [\s], [[a-f]] are the ASCII
      ones. A text with a code unit above U+007F has no image on which
      these agree with the runtime: what is stated of them is stated of
      texts that are [Str.ascii_only];
    - [null] and [undefined] are constructors of [value], or [None] where a
      function only tests for their presence;
    - [throw] is the [Throw] constructor of [result]. *)

From Stdlib Require Import ZArith QArith Qround Qabs Qpower Lqa Floats String Ascii List Lia Bool.
From stdpp Require Import gmap strings.

Set Warnings "-inexact-float".
Local Open Scope string_scope.

(** Closes a conjunction of closed equations, each by evaluation. *)
Ltac conj_by_computation :=
  repeat match goal with |- _ /\ _ => split end; vm_compute; reflexivity.

(** ** Results of functions that may throw *)

Inductive result (A : Type) : Type :=
| Ok (a : A)
| Throw (message : string).
Arguments Ok {A} a.
Arguments Throw {A} message.

(** ** The runtime: numbers *)

Module Num.

(** The binary64 value nearest to the positive rational [n / d], ties to
    the even significand (IEEE 754 roundTiesToEven). Significands have 53
    bits and exponents range over -1074..971. The rational is scaled by
    2^1075 once, so that every shift below is a shift to the right:
    [t] is the floor of the scaled ratio, [e] the exponent of the result
    before rounding, [q2] the significand with one extra bit. *)
Definition round_pos (n d : positive) : spec_float :=
  let a := (Zpos n * 2 ^ 1075)%Z in
  let t := Z.div a (Zpos d) in
  let e := Z.max (Z.log2 t - 1075 - 52) (-1074) in
  let b := (Zpos d * 2 ^ (e + 1074))%Z in
  let q2 := Z.div a b in
  let exact := (Z.modulo a b =? 0)%Z in
  let q := Z.div q2 2 in
  let up := Z.odd q2 && (negb exact || Z.odd q) in
  let m := if up then (q + 1)%Z else q in
  let '(m, e) := if (m =? 2 ^ 53)%Z then (2 ^ 52, e + 1)%Z else (m, e) in
  match m with
  | Zpos p => if (e <=? 971)%Z then S754_finite false p e else S754_infinity false
  | _ => S754_zero false
  end.

(** The Number value for a rational (ECMAScript 6.1.6.1): the nearest
    binary64 value; [Qred] makes the result independent of the fraction
    chosen to write the rational. *)
Definition of_Q (q : Q) : float :=
  let r := Qred q in
  match Qnum r with
  | Z0 => 0%float
  | Zpos n => SF2Prim (round_pos n (Qden r))
  | Zneg n => SF2Prim (SFopp (round_pos n (Qden r)))
  end.

(** The mathematical value of a finite number; [None] for NaN and the
    infinities. *)
Definition to_Q (x : float) : option Q :=
  match Prim2SF x with
  | S754_zero _ => Some 0%Q
  | S754_finite s m e =>
      let v := if (0 <=? e)%Z then inject_Z (Zpos m * 2 ^ e) else (Zpos m # Pos.pow 2 (Z.to_pos (- e))) in
      Some (if s then Qopp v else v)
  | _ => None
  end.

(** ToBoolean on a number: NaN, +0 and -0 are falsy. *)
Definition truthy (x : float) : bool := negb (is_nan x || is_zero x).

(** [x || 0] on numbers. *)
Definition or_zero (x : float) : float := if truthy x then x else 0%float.

End Num.

(** ** The runtime: strings and decimal digits *)

Module Str.

Definition chars (s : string) : list ascii := list_ascii_of_string s.
Definition str (l : list ascii) : string := string_of_list_ascii l.

Definition code (c : ascii) : N := N_of_ascii c.

(** A code unit of the ASCII range. *)
Definition is_ascii (c : ascii) : bool := (code c <? 128)%N.

(** A text all of whose code units are in the ASCII range. *)
Definition ascii_only (s : string) : bool := forallb is_ascii (chars s).

(** [\d] *)
Definition is_digit (c : ascii) : bool := (48 <=? code c)%N && (code c <=? 57)%N.

(** [\s] and the WhiteSpace / LineTerminator characters removed by [trim],
    among the ASCII code units. *)
Definition is_space (c : ascii) : bool :=
  ((9 <=? code c)%N && (code c <=? 13)%N) || (code c =? 32)%N.

Definition digit_val (c : ascii) : N := (code c - 48)%N.
Definition digit_char (d : N) : ascii := ascii_of_N (48 + d).

(** The value of a run of decimal digits, most significant first. *)
Definition digits_value (l : list ascii) : N :=
  fold_left (fun a c => (10 * a + digit_val c)%N) l 0%N.

Fixpoint digits_fuel (fuel : nat) (n : N) (acc : list ascii) : list ascii :=
  match fuel with
  | O => acc
  | S fuel' =>
      let acc' := digit_char (n mod 10) :: acc in
      if (n / 10 =? 0)%N then acc' else digits_fuel fuel' (n / 10) acc'
  end.

(** The decimal representation of [n], with no leading zero ("0" for 0). *)
Definition digits_of_N (n : N) : list ascii :=
  digits_fuel (S (N.to_nat (N.log2 n))) n [].

(** The longest prefix made of characters of a class, and what follows. *)
Fixpoint span (p : ascii -> bool) (l : list ascii) : list ascii * list ascii :=
  match l with
  | c :: l' =>
      if p c then let '(a, b) := span p l' in (c :: a, b) else ([], l)
  | [] => ([], [])
  end.

Fixpoint drop_while (p : ascii -> bool) (l : list ascii) : list ascii :=
  match l with
  | c :: l' => if p c then drop_while p l' else l
  | [] => []
  end.

(** String.prototype.trim *)
Definition trim_chars (l : list ascii) : list ascii :=
  rev (drop_while is_space (rev (drop_while is_space l))).
Definition trim (s : string) : string := str (trim_chars (chars s)).

Definition upper_char (c : ascii) : ascii :=
  if (97 <=? code c)%N && (code c <=? 122)%N then ascii_of_N (code c - 32) else c.

(** String.prototype.toUpperCase, on ASCII code units. *)
Definition toUpperCase (s : string) : string := str (map upper_char (chars s)).

Fixpoint starts_with (p l : list ascii) : option (list ascii) :=
  match p, l with
  | [], _ => Some l
  | a :: p', b :: l' => if Ascii.eqb a b then starts_with p' l' else None
  | _ :: _, [] => None
  end.

End Str.

(** ** The runtime: number parsing and printing *)

Module Conv.
Import Str.
Local Open Scope list_scope.

Definition pow10 (k : Z) : Q :=
  if (0 <=? k)%Z then inject_Z (10 ^ k) else (1 # Z.to_pos (10 ^ (- k))).

(** The mathematical value [m * 10^k] of a decimal literal. *)
Definition decimal (m : N) (k : Z) : Q := inject_Z (Z.of_N m) * pow10 k.

(** ExponentPart, 0 when there is none (an [e] that no digits follow does
    not belong to the literal). *)
Definition parse_exponent (l : list ascii) : Z :=
  match l with
  | c :: l' =>
      if Ascii.eqb c "e" || Ascii.eqb c "E" then
        let '(sg, l'') :=
          match l' with
          | s :: t => if Ascii.eqb s "-" then (true, t)
                      else if Ascii.eqb s "+" then (false, t) else (false, l')
          | [] => (false, l')
          end in
        match fst (span is_digit l'') with
        | [] => 0%Z
        | ds => if sg then (- Z.of_N (digits_value ds))%Z else Z.of_N (digits_value ds)
        end
      else 0%Z
  | [] => 0%Z
  end.

(** The longest prefix that is a StrUnsignedDecimalLiteral: [None] when
    there is none, [Some None] for [Infinity], else the value of the prefix. *)
Definition parse_unsigned (l : list ascii) : option (option Q) :=
  match starts_with (chars "Infinity") l with
  | Some _ => Some None
  | None =>
      let '(ip, r1) := span is_digit l in
      match r1 with
      | "."%char :: r2 =>
          let '(fp, r3) := span is_digit r2 in
          match ip, fp with
          | [], [] => None
          | _, _ => Some (Some (decimal (digits_value (ip ++ fp))
                                        (parse_exponent r3 - Z.of_nat (length fp))))
          end
      | _ =>
          match ip with
          | [] => None
          | _ => Some (Some (decimal (digits_value ip) (parse_exponent r1)))
          end
      end
  end.

(** parseFloat on a string: leading white space is skipped, the longest
    numeric prefix is read, NaN when there is none. *)
Definition parseFloat (s : string) : float :=
  let l := drop_while is_space (chars s) in
  let '(sg, l') :=
    match l with
    | c :: t => if Ascii.eqb c "-" then (true, t)
                else if Ascii.eqb c "+" then (false, t) else (false, l)
    | [] => (false, l)
    end in
  match parse_unsigned l' with
  | None => nan
  | Some None => if sg then neg_infinity else infinity
  | Some (Some q) =>
      if Qeq_bool q 0 then (if sg then (- 0)%float else 0%float)
      else Num.of_Q (if sg then Qopp q else q)
  end.

(** *** Number::toString (ECMAScript 6.1.6.1.20), radix 10 *)

Definition Qlt_bool (a b : Q) : bool := negb (Qle_bool b a).

(** The decimal exponent of a positive rational: the [n] with
    [10^(n-1) <= q < 10^n]. *)
Fixpoint neg_exponent (fuel : nat) (q : Q) (j : Z) : Z :=
  match fuel with
  | O => j
  | S fuel' => if Qle_bool 1 q then j else neg_exponent fuel' (q * 10) (j - 1)
  end.

Definition decimal_exponent (q : Q) : Z :=
  if Qle_bool 1 q then Z.of_nat (length (digits_of_N (Z.to_N (Qfloor q))))
  else neg_exponent 400 (q * 10) 0.

(** Removes the trailing zeros of [s], keeping [s * 10^p]. *)
Fixpoint strip_zeros (fuel : nat) (s : N) (p : Z) : N * Z :=
  match fuel with
  | O => (s, p)
  | S fuel' =>
      if (0 <? s)%N && (s mod 10 =? 0)%N then strip_zeros fuel' (s / 10) (p + 1) else (s, p)
  end.

(** The search of step 5: the least number [k] of digits for which some
    [s] of [k] digits has [s * 10^(n-k)] read back as [x]; of the two
    candidates around [x] the nearer one is taken. *)
Fixpoint find_short (fuel : nat) (k : Z) (x : float) (q : Q) (n0 : Z) : option (N * Z) :=
  match fuel with
  | O => None
  | S fuel' =>
      let p := (n0 - k)%Z in
      let lo := Z.to_N (Qfloor (q * pow10 (- p))) in
      let hi := (lo + 1)%N in
      let ok_lo := PrimFloat.Leibniz.eqb (Num.of_Q (decimal lo p)) x in
      let ok_hi := PrimFloat.Leibniz.eqb (Num.of_Q (decimal hi p)) x in
      if ok_lo && ok_hi then
        if Qle_bool (q - decimal lo p) (decimal hi p - q) then Some (lo, p) else Some (hi, p)
      else if ok_lo then Some (lo, p)
      else if ok_hi then Some (hi, p)
      else find_short fuel' (k + 1) x q n0
  end.

(** The full decimal expansion of a finite number, which always reads
    back as the number; 17 digits are enough in practice. *)
Definition exact_decimal (m : positive) (e : Z) : N * Z :=
  if (0 <=? e)%Z then (Z.to_N (Zpos m * 2 ^ e), 0%Z)
  else (Z.to_N (Zpos m * 5 ^ (- e)), e).

(** The digits [s] and the power [p] chosen for the positive finite
    number [x] = [m * 2^e]. *)
Definition shortest (x : float) (m : positive) (e : Z) : N * Z :=
  let q := if (0 <=? e)%Z then inject_Z (Zpos m * 2 ^ e)
           else (Zpos m # Pos.pow 2 (Z.to_pos (- e))) in
  let '(s, p) :=
    match find_short 17 1 x q (decimal_exponent q) with
    | Some r => r
    | None => exact_decimal m e
    end in
  strip_zeros 1100 s p.

Definition exponent_part (ex : Z) : list ascii :=
  "e"%char :: (if (ex <? 0)%Z then "-"%char else "+"%char) :: digits_of_N (Z.abs_N ex).

(** Steps 6 to 10: the layout of the digits [s] with [n = k + p]. *)
Definition layout (s : N) (p : Z) : list ascii :=
  let ds := digits_of_N s in
  let k := Z.of_nat (length ds) in
  let n := (k + p)%Z in
  if (k <=? n)%Z && (n <=? 21)%Z then ds ++ repeat "0"%char (Z.to_nat (n - k))
  else if (0 <? n)%Z && (n <=? 21)%Z then
    firstn (Z.to_nat n) ds ++ "."%char :: skipn (Z.to_nat n) ds
  else if (-6 <? n)%Z && (n <=? 0)%Z then
    "0"%char :: "."%char :: repeat "0"%char (Z.to_nat (- n)) ++ ds
  else
    match ds with
    | [d] => d :: exponent_part (n - 1)
    | d :: rest => d :: "."%char :: rest ++ exponent_part (n - 1)
    | [] => []
    end.

Definition Number_toString_chars (x : float) : list ascii :=
  match Prim2SF x with
  | S754_nan => chars "NaN"
  | S754_zero _ => chars "0"
  | S754_infinity sg => if sg then chars "-Infinity" else chars "Infinity"
  | S754_finite sg m e =>
      let '(s, p) := shortest (abs x) m e in
      if sg then "-"%char :: layout s p else layout s p
  end.

Definition Number_toString (x : float) : string := str (Number_toString_chars x).

(** parseFloat on a number: its argument is converted to a string first. *)
Definition parseFloat_number (x : float) : float := parseFloat (Number_toString x).

(** *** Number.prototype.toFixed with fractionDigits = 2 *)

(** Step 11: the integer [n] for which [n / 100 - q] is as close to zero as
    possible, the larger one when there are two. *)
Definition nearest_hundredth (q : Q) : Z := Qfloor (q * 100 + (1 # 2)).

Definition fixed_digits (n : N) : list ascii :=
  let m := digits_of_N n in
  let m := repeat "0"%char (3 - length m) ++ m in
  let k := length m in
  firstn (k - 2) m ++ "."%char :: skipn (k - 2) m.

Definition toFixed2_chars (x : float) : list ascii :=
  match Num.to_Q x with
  | None => Number_toString_chars x
  | Some q =>
      let neg := Qlt_bool q 0 in
      let q' := if neg then Qopp q else q in
      let m := if Qle_bool (inject_Z (10 ^ 21)) q' then Number_toString_chars (abs x)
               else fixed_digits (Z.to_N (nearest_hundredth q')) in
      if neg then "-"%char :: m else m
  end.

Definition toFixed2 (x : float) : string := str (toFixed2_chars x).

End Conv.

(** ** Values *)

(** The values a form field or an argument of the colour helpers can hold. *)
Inductive value : Type :=
| VUndefined
| VNull
| VBool (b : bool)
| VNum (x : float)
| VStr (s : string).

(** ToBoolean *)
Definition truthy (v : value) : bool :=
  match v with
  | VUndefined | VNull => false
  | VBool b => b
  | VNum x => Num.truthy x
  | VStr s => negb (String.eqb s "")
  end.

(** ** src/constants/index.js *)

(** Property lookup on this object literal is lookup in the map: the
    properties inherited from Object.prototype all contain a lower-case
    letter, and the only lookup is by an upper-cased key. *)
Definition SHIPPING_RATES : gmap string float :=
  list_to_map [("SWEDEN", 7.35%float); ("CHINA", 11.53%float);
               ("BRAZIL", 15.63%float); ("AUSTRALIA", 50.09%float)].

Definition GENERIC_ERROR : string := "An unexpected error occurred".
Definition BOX_ADDED : string := "Box added successfully!".
Definition DEFAULT_BOX_COLOR : string := "#3498db".

(** ** src/utils/index.js *)

Module Utils.
Import Str Conv.
Local Open Scope list_scope.

(** [[a-f\d]] under the [i] flag *)
Definition is_hex (c : ascii) : bool :=
  is_digit c || ((97 <=? code c)%N && (code c <=? 102)%N)
             || ((65 <=? code c)%N && (code c <=? 70)%N).

Definition hex_val (c : ascii) : N :=
  if is_digit c then (code c - 48)%N
  else if (97 <=? code c)%N then (code c - 87)%N else (code c - 55)%N.

(** [parseInt(s, 16)] on a run of hexadecimal digits. *)
Definition parseInt16 (l : list ascii) : N :=
  fold_left (fun a c => (16 * a + hex_val c)%N) l 0%N.

(** [/^#?([a-f\d]{2})([a-f\d]{2})([a-f\d]{2})$/i.exec]: the three groups. *)
Definition exec_hex (l : list ascii) : option (list ascii * list ascii * list ascii) :=
  let l' := match l with
            | c :: t => if Ascii.eqb c "#" then t else l
            | [] => l
            end in
  match l' with
  | [c1; c2; c3; c4; c5; c6] =>
      if forallb is_hex l' then Some ([c1; c2], [c3; c4], [c5; c6]) else None
  | _ => None
  end.

(** [`(${r}, ${g}, ${b})`] *)
Definition triplet (r g b : list ascii) : string :=
  str ("("%char :: r ++ chars ", " ++ g ++ chars ", " ++ b ++ [")"%char]).

Definition hexToRgb (hex : value) : string :=
  match hex with
  | VStr s =>
      if negb (truthy hex) then "(0, 0, 0)"
      else
        match exec_hex (chars s) with
        | None => "(0, 0, 0)"
        | Some (g1, g2, g3) =>
            let r := parseInt16 g1 in
            let g := parseInt16 g2 in
            let b := parseInt16 g3 in
            triplet (digits_of_N r) (digits_of_N g) (digits_of_N b)
        end
  | _ => "(0, 0, 0)"
  end.

(** A match of [\((\d+),\s*(\d+),\s*(\d+)\)] starting at the head of [l].
    Each greedy repetition is followed by a character outside its class,
    so the first attempt is the only one. *)
Definition match_here (l : list ascii) : option (list ascii * list ascii * list ascii) :=
  match l with
  | c0 :: l1 =>
      if negb (Ascii.eqb c0 "(") then None else
      let '(r, l2) := span is_digit l1 in
      match r, l2 with
      | _ :: _, c1 :: l3 =>
          if negb (Ascii.eqb c1 ",") then None else
          let '(g, l4) := span is_digit (drop_while is_space l3) in
          match g, l4 with
          | _ :: _, c2 :: l5 =>
              if negb (Ascii.eqb c2 ",") then None else
              let '(b, l6) := span is_digit (drop_while is_space l5) in
              match b, l6 with
              | _ :: _, c3 :: _ => if Ascii.eqb c3 ")" then Some (r, g, b) else None
              | _, _ => None
              end
          | _, _ => None
          end
      | _, _ => None
      end
  | [] => None
  end.

(** [String.prototype.match] without the [g] flag: the leftmost match. *)
Fixpoint match_rgb (l : list ascii) : option (list ascii * list ascii * list ascii) :=
  match match_here l with
  | Some m => Some m
  | None => match l with
            | _ :: t => match_rgb t
            | [] => None
            end
  end.

(** [`rgb(${r}, ${g}, ${b})`] *)
Definition css_rgb (r g b : list ascii) : string :=
  str (chars "rgb(" ++ r ++ chars ", " ++ g ++ chars ", " ++ b ++ [")"%char]).

Definition rgbToColor (rgbString : value) : string :=
  match rgbString with
  | VStr s =>
      if negb (truthy rgbString) then "#000000"
      else
        match match_rgb (chars s) with
        | None => "#000000"
        | Some (r, g, b) => css_rgb r g b
        end
  | _ => "#000000"
  end.

(** The function on a [weight] that is a number, [null] or [undefined]
    and a [country] that is a string, [null] or [undefined], as the form
    and the tests give them; [None] stands for [null] and [undefined].
    Other arguments (a text as weight, a number as country) are outside
    the embedding. *)
Definition calculateShippingCost (weight : option float) (country : option string)
  : result float :=
  match weight, country with
  | Some w, Some c =>
      if negb (Num.truthy w) || String.eqb c "" || (w <=? 0)%float then Ok 0%float
      else
        let countryKey := toUpperCase c in
        match SHIPPING_RATES !! countryKey with
        | Some rate =>
            if Num.truthy rate
            then Ok (parseFloat (toFixed2 (w * rate)%float))
            else Throw ("Shipping rate not found for country: " ++ c)%string
        | None => Throw ("Shipping rate not found for country: " ++ c)%string
        end
  | _, _ => Ok 0%float
  end.

(** The candidate of [validateBoxForm]: the form keeps every field as a
    string, the tests pass numbers for [weight]. *)
Record formData : Type := {
  receiverName : option string;
  weight : value;
  boxColor : value;
  country : option string;
}.

Record validation : Type := {
  isValid : bool;
  errors : gmap string string;
}.

(** [parseFloat(v)]: the argument is converted to a string first. *)
Definition parseFloat_value (v : value) : float :=
  match v with
  | VStr s => parseFloat s
  | VNum x => parseFloat_number x
  | VUndefined | VNull | VBool _ => nan
  end.

(** The rule of the receiver name; [length] counts the code units of the
    trimmed text, which for a text of ASCII characters are the characters
    of the [string]. *)
Definition receiverName_errors (f : formData) (errors : gmap string string)
  : gmap string string :=
  let trimmed := match receiverName f with Some s => trim s | None => "" end in
  if String.eqb trimmed "" then
    <["receiverName" := "Receiver name is required. Please enter the recipient's name."]> errors
  else if (100 <? String.length trimmed)%nat then
    <["receiverName" := "Receiver name cannot exceed 100 characters."]> errors
  else errors.

Definition weight_errors (f : formData) (errors : gmap string string)
  : gmap string string :=
  if negb (truthy (weight f)) then
    <["weight" := "Weight is required. Please enter the package weight in kilograms."]> errors
  else
    let w := parseFloat_value (weight f) in
    if is_nan w then
      <["weight" := "Please enter a valid numeric weight value."]> errors
    else if (w <? 0)%float then
      <["weight" := "Negative values are not permitted for weight."]> errors
    else if (w =? 0)%float then
      <["weight" := "Weight must be greater than 0 kg."]> errors
    else if (10000 <? w)%float then
      <["weight" := "Weight cannot exceed 10,000 kg. Please check the weight."]> errors
    else errors.

Definition country_errors (f : formData) (errors : gmap string string)
  : gmap string string :=
  match country f with
  | Some (String _ _) => errors
  | _ => <["country" := "Destination country is required. Please select a shipping destination."]> errors
  end.

Definition validateBoxForm (f : formData) : validation :=
  let errors := country_errors f (weight_errors f (receiverName_errors f ∅)) in
  {| isValid := bool_decide (size errors = 0); errors := errors |}.

End Utils.

(** ** src/hooks/useBoxForm.js: the data handed to the store *)

Module Form.
Import Str Conv.

(** The form state of [useBoxForm]: every field is the string of its input. *)
Record formState : Type := {
  receiverName : string;
  weight : string;
  boxColor : string;
  country : string;
}.

(** What [getSubmissionData] returns and [addBox] receives. *)
Record boxData : Type := {
  bd_receiverName : string;
  bd_weight : float;
  bd_boxColor : string;
  bd_country : string;
}.

Definition formData_of (f : formState) : Utils.formData :=
  {| Utils.receiverName := Some (receiverName f);
     Utils.weight := VStr (weight f);
     Utils.boxColor := VStr (boxColor f);
     Utils.country := Some (country f) |}.

(** A submitted record seen as a candidate of the validation function. *)
Definition candidate_of (d : boxData) : Utils.formData :=
  {| Utils.receiverName := Some (bd_receiverName d);
     Utils.weight := VNum (bd_weight d);
     Utils.boxColor := VStr (bd_boxColor d);
     Utils.country := Some (bd_country d) |}.

Definition validateForm (f : formState) : bool :=
  Utils.isValid (Utils.validateBoxForm (formData_of f)).

Definition getSubmissionData (f : formState) : boxData :=
  {| bd_receiverName := trim (receiverName f);
     bd_weight := parseFloat (weight f);
     bd_boxColor := Utils.hexToRgb (VStr (boxColor f));
     bd_country := country f |}.

End Form.

(** ** src/context/BoxContext.js *)

Module Store.
Import Form.
Local Open Scope list_scope.

Record box : Type := {
  id : string;
  receiverName : string;
  weight : float;
  boxColor : string;
  country : string;
  shippingCost : float;
  createdAt : string;
  updatedAt : string;
}.

Record stats : Type := {
  totalBoxes : N;
  totalWeight : float;
  totalCost : float;
}.

Record state : Type := {
  boxes : list box;
  loading : bool;
  error : option string;
  statistics : stats;
}.

Definition createInitialState : state :=
  {| boxes := []; loading := false; error := None;
     statistics := {| totalBoxes := 0; totalWeight := 0; totalCost := 0 |} |}.

(** The object [updates] a caller hands to [updateBox] and UPDATE_BOX
    spreads into the record: each key of a record may be absent. A key
    that no record has, and a value of another type than the record's,
    are outside the embedding. *)
Record updates : Type := {
  u_id : option string;
  u_receiverName : option string;
  u_weight : option float;
  u_boxColor : option string;
  u_country : option string;
  u_shippingCost : option float;
  u_createdAt : option string;
  u_updatedAt : option string;
}.

(** An action; a payload is [None] when the action object carries none.
    [OTHER type] is an action whose type is none of the eight ActionTypes. *)
Inductive action : Type :=
| LOAD_BOXES (payload : option (list box))
| ADD_BOX (payload : option box)
| REMOVE_BOX (payload : option string)
| UPDATE_BOX (payload : option (string * updates))
| SET_LOADING (payload : bool)
| SET_ERROR (payload : option string)
| CLEAR_ERROR
| UPDATE_STATISTICS
| OTHER (type : string).

Definition calculateStatistics (boxes : list box) : stats :=
  match boxes with
  | [] => {| totalBoxes := 0; totalWeight := 0; totalCost := 0 |}
  | _ =>
      fold_left
        (fun stats box =>
           {| totalBoxes := totalBoxes stats + 1;
              totalWeight := (totalWeight stats + Num.or_zero (weight box))%float;
              totalCost := (totalCost stats + Num.or_zero (shippingCost box))%float |})
        boxes
        {| totalBoxes := 0; totalWeight := 0; totalCost := 0 |}
  end.

Definition or_else {A : Type} (o : option A) (d : A) : A :=
  match o with Some a => a | None => d end.

(** [{ ...box, ...updates }] *)
Definition merge (b : box) (u : updates) : box :=
  {| id := or_else (u_id u) (id b);
     receiverName := or_else (u_receiverName u) (receiverName b);
     weight := or_else (u_weight u) (weight b);
     boxColor := or_else (u_boxColor u) (boxColor b);
     country := or_else (u_country u) (country b);
     shippingCost := or_else (u_shippingCost u) (shippingCost b);
     createdAt := or_else (u_createdAt u) (createdAt b);
     updatedAt := or_else (u_updatedAt u) (updatedAt b) |}.

(** The body of the [try] block of [boxReducer], with the lines it writes
    to the console. Reading a property of an absent payload throws. *)
Definition transition (s : state) (a : action) : result (state * list string) :=
  match a with
  | LOAD_BOXES payload =>
      let boxes := or_else payload [] in
      Ok ({| boxes := boxes; loading := false; error := None;
             statistics := calculateStatistics boxes |}, [])
  | ADD_BOX (Some b) =>
      let newBoxes := boxes s ++ [b] in
      Ok ({| boxes := newBoxes; loading := false; error := None;
             statistics := calculateStatistics newBoxes |}, [])
  | ADD_BOX None =>
      Throw "Cannot read properties of undefined (reading 'weight')"
  | REMOVE_BOX payload =>
      let newBoxes :=
        List.filter (fun b => negb (match payload with
                               | Some i => String.eqb (id b) i
                               | None => false
                               end)) (boxes s) in
      Ok ({| boxes := newBoxes; loading := loading s; error := None;
             statistics := calculateStatistics newBoxes |}, [])
  | UPDATE_BOX (Some (i, u)) =>
      let newBoxes := map (fun b => if String.eqb (id b) i then merge b u else b) (boxes s) in
      Ok ({| boxes := newBoxes; loading := loading s; error := None;
             statistics := calculateStatistics newBoxes |}, [])
  | UPDATE_BOX None =>
      match boxes s with
      | [] => Ok ({| boxes := []; loading := loading s; error := None;
                     statistics := calculateStatistics [] |}, [])
      | _ :: _ => Throw "Cannot read properties of undefined (reading 'id')"
      end
  | SET_LOADING payload =>
      Ok ({| boxes := boxes s; loading := payload; error := error s;
             statistics := statistics s |}, [])
  | SET_ERROR payload =>
      Ok ({| boxes := boxes s; loading := false; error := payload;
             statistics := statistics s |}, [])
  | CLEAR_ERROR =>
      Ok ({| boxes := boxes s; loading := loading s; error := None;
             statistics := statistics s |}, [])
  | UPDATE_STATISTICS =>
      Ok ({| boxes := boxes s; loading := loading s; error := error s;
             statistics := calculateStatistics (boxes s) |}, [])
  | OTHER type => Ok (s, [("Unknown action type: " ++ type)%string])
  end.

(** [boxReducer] with its console output: the [catch] block keeps the
    state it was given and sets the generic error. *)
Definition boxReducer_console (s : state) (a : action) : state * list string :=
  match transition s a with
  | Ok r => r
  | Throw e =>
      ({| boxes := boxes s; loading := false; error := Some GENERIC_ERROR;
          statistics := statistics s |},
       [("Error in boxReducer: " ++ e)%string])
  end.

Definition boxReducer (s : state) (a : action) : state := fst (boxReducer_console s a).

(** What the action functions return. *)
Inductive outcome : Type :=
| Success (message : string) (boxId : option string)
| Failure (error : string).

(** [error.message || UI_MESSAGES.ERRORS.GENERIC_ERROR] *)
Definition message_or_generic (message : string) : string :=
  if String.eqb message "" then GENERIC_ERROR else message.

(** What one call of [addBox] reads from its environment: [Date.now()],
    the digits kept of [Math.random().toString(36)], and the two
    [new Date().toISOString()]. *)
Record environment : Type := {
  date_now : N;
  random_digits : string;
  now_created : string;
  now_updated : string;
}.

(** [`box_${Date.now()}_${Math.random().toString(36).substr(2, 9)}`] *)
Definition generateId (env : environment) : string :=
  ("box_" ++ Str.str (Str.digits_of_N (date_now env)) ++ "_" ++ random_digits env)%string.

(** [addBox]: the dispatches of one call, in order. [boxData] is [None]
    for an argument that is falsy or not an object. *)
Definition addBox (s : state) (boxData : option boxData) (env : environment)
  : state * outcome :=
  let s1 := boxReducer s (SET_LOADING true) in
  let attempt :=
    match boxData with
    | None => Throw "Invalid box data provided"
    | Some d =>
        match Utils.calculateShippingCost (Some (bd_weight d)) (Some (bd_country d)) with
        | Throw e => Throw e
        | Ok cost =>
            Ok {| id := generateId env;
                  receiverName := bd_receiverName d;
                  weight := bd_weight d;
                  boxColor := bd_boxColor d;
                  country := bd_country d;
                  shippingCost := cost;
                  createdAt := now_created env;
                  updatedAt := now_updated env |}
        end
    end in
  match attempt with
  | Ok boxWithDetails =>
      (boxReducer s1 (ADD_BOX (Some boxWithDetails)),
       Success BOX_ADDED (Some (id boxWithDetails)))
  | Throw e =>
      let errorMessage := message_or_generic e in
      (boxReducer s1 (SET_ERROR (Some errorMessage)), Failure errorMessage)
  end.

(** [removeBox]; [boxId] is [None] for [null] or [undefined]. *)
Definition removeBox (s : state) (boxId : option string) : state * outcome :=
  match boxId with
  | Some (String c i) =>
      (boxReducer s (REMOVE_BOX boxId), Success "Box removed successfully" None)
  | _ =>
      let errorMessage := message_or_generic "Box ID is required" in
      (boxReducer s (SET_ERROR (Some errorMessage)), Failure errorMessage)
  end.

(** [updateBox] as a render whose records were [rendered] created it,
    called when the state of the reducer is [s]: the record to price is
    looked up in [rendered], the action is reduced on [s]. The function
    writes [shippingCost] and [updatedAt] into the object of its caller
    and dispatches that object; [now] is what [new Date().toISOString()]
    returns. [boxId] and [updates] are [None] for [null] or [undefined]. *)
Definition updateBox_in (rendered : list box) (s : state) (boxId : option string)
    (updates : option updates) (now : string) : state * outcome :=
  let attempt :=
    match boxId, updates with
    | Some (String c i as boxId), Some u =>
        let shippingCost :=
          match u_weight u, u_country u with
          | None, None => Ok (u_shippingCost u)
          | _, _ =>
              match List.find (fun b => String.eqb (id b) boxId) rendered with
              | Some b =>
                  let newWeight := or_else (u_weight u) (weight b) in
                  let newCountry := or_else (u_country u) (country b) in
                  match Utils.calculateShippingCost (Some newWeight) (Some newCountry) with
                  | Ok cost => Ok (Some cost)
                  | Throw e => Throw e
                  end
              | None => Ok (u_shippingCost u)
              end
          end in
        match shippingCost with
        | Ok cost =>
            Ok (boxId, {| u_id := u_id u;
                          u_receiverName := u_receiverName u;
                          u_weight := u_weight u;
                          u_boxColor := u_boxColor u;
                          u_country := u_country u;
                          u_shippingCost := cost;
                          u_createdAt := u_createdAt u;
                          u_updatedAt := Some now |})
        | Throw e => Throw e
        end
    | _, _ => Throw "Box ID and updates are required"
    end in
  match attempt with
  | Ok payload =>
      (boxReducer s (UPDATE_BOX (Some payload)), Success "Box updated successfully" None)
  | Throw e =>
      let errorMessage := message_or_generic e in
      (boxReducer s (SET_ERROR (Some errorMessage)), Failure errorMessage)
  end.

(** [updateBox] called from the render of the state it acts on: no other
    action was dispatched since the function was created. *)
Definition updateBox (s : state) (boxId : option string) (updates : option updates)
    (now : string) : state * outcome :=
  updateBox_in (boxes s) s boxId updates now.

Definition clearError (s : state) : state := boxReducer s CLEAR_ERROR.

(** [handleSubmit] of AddBox.js through [handleFormSubmission]: the error
    is cleared, the form is validated, and only a valid form reaches
    [addBox]. *)
Definition handleSubmit (s : state) (f : formState) (env : environment) : state :=
  let s0 := clearError s in
  if validateForm f then fst (addBox s0 (Some (getSubmissionData f)) env) else s0.

End Store.

(** ** src/hooks/useBoxForm.js: the state of the form *)

(** A handler runs with the values of the render that precedes its event:
    the state it reads is the state before the event, and the updates it
    queues are applied in order. *)

Module BoxForm.
Import Str Conv Form.

(** The inputs of the form in AddBox.js, by their [name] attribute. *)
Inductive field : Type := FReceiverName | FWeight | FBoxColor | FCountry.

Definition name (x : field) : string :=
  match x with
  | FReceiverName => "receiverName"
  | FWeight => "weight"
  | FBoxColor => "boxColor"
  | FCountry => "country"
  end.

(** [errors[name]] as a condition: the entry is there and is not empty. *)
Definition truthy_entry (o : option string) : bool :=
  match o with
  | Some (String _ _) => true
  | _ => false
  end.

(** The four pieces of state of [useBoxForm]. *)
Record hook : Type := {
  formData : formState;
  errors : gmap string string;
  touched : gmap string bool;
  isSubmitting : bool;
}.

Definition initialFormState : formState :=
  {| receiverName := ""; weight := ""; boxColor := DEFAULT_BOX_COLOR; country := "" |}.

Definition initial : hook :=
  {| formData := initialFormState; errors := ∅; touched := ∅; isSubmitting := false |}.

(** [{ ...prev, [name]: value }] *)
Definition set_field (x : field) (value : string) (f : formState) : formState :=
  match x with
  | FReceiverName =>
      {| receiverName := value; weight := weight f; boxColor := boxColor f; country := country f |}
  | FWeight =>
      {| receiverName := receiverName f; weight := value; boxColor := boxColor f;
         country := country f |}
  | FBoxColor =>
      {| receiverName := receiverName f; weight := weight f; boxColor := value;
         country := country f |}
  | FCountry =>
      {| receiverName := receiverName f; weight := weight f; boxColor := boxColor f;
         country := value |}
  end.

(** [handleChange], for the input [x] holding [value]; the second component
    is what is passed to [onNegativeWeight]. *)
Definition handleChange (h : hook) (x : field) (value : string) : hook * list string :=
  match x with
  | FWeight =>
      let numericValue := parseFloat value in
      if negb (String.eqb value "") && negb (is_nan numericValue) && (numericValue <? 0)%float
      then
        ({| formData := set_field FWeight "0" (formData h);
            errors := <["weight" := "Negative values are not permitted. Weight has been set to 0."]>
                        (errors h);
            touched := touched h;
            isSubmitting := isSubmitting h |},
         ["Negative values are not permitted for weight. The field has been reset to 0."])
      else
        let errors1 :=
          if negb (String.eqb value "") && negb (is_nan numericValue) && (0 <=? numericValue)%float
          then <["weight" := ""]> (errors h) else errors h in
        ({| formData := set_field FWeight value (formData h);
            errors := errors1;
            touched := touched h;
            isSubmitting := isSubmitting h |}, [])
  | _ =>
      let errors1 :=
        if truthy_entry (errors h !! name x) then <[name x := ""]> (errors h) else errors h in
      ({| formData := set_field x value (formData h);
          errors := errors1;
          touched := touched h;
          isSubmitting := isSubmitting h |}, [])
  end.

Definition handleBlur (h : hook) (x : field) : hook :=
  let validation := Utils.validateBoxForm (formData_of (formData h)) in
  {| formData := formData h;
     errors := match Utils.errors validation !! name x with
               | Some (String c m) => <[name x := String c m]> (errors h)
               | _ => errors h
               end;
     touched := <[name x := true]> (touched h);
     isSubmitting := isSubmitting h |}.

(** [validateForm]: the state with the errors set, and what is returned. *)
Definition validateForm (h : hook) : hook * bool :=
  let validation := Utils.validateBoxForm (formData_of (formData h)) in
  ({| formData := formData h; errors := Utils.errors validation; touched := touched h;
      isSubmitting := isSubmitting h |},
   Utils.isValid validation).

Definition resetForm (h : hook) : hook := initial.

Definition setIsSubmitting (h : hook) (b : bool) : hook :=
  {| formData := formData h; errors := errors h; touched := touched h; isSubmitting := b |}.

Definition isFormValid (h : hook) : bool :=
  Utils.isValid (Utils.validateBoxForm (formData_of (formData h))).

(** [Object.keys(errors).some(key => errors[key])] *)
Definition hasErrors (h : hook) : bool :=
  existsb (fun kv => truthy_entry (Some (snd kv))) (map_to_list (errors h)).

(** What happens to the form between two renders. *)
Inductive event : Type :=
| Change (x : field) (value : string)
| Blur (x : field)
| Validate
| Reset
| Submitting (b : bool).

Definition step (h : hook) (ev : event) : hook :=
  match ev with
  | Change x value => fst (handleChange h x value)
  | Blur x => handleBlur h x
  | Validate => fst (validateForm h)
  | Reset => resetForm h
  | Submitting b => setIsSubmitting h b
  end.

End BoxForm.

(** ** src/hooks/useNotification.js *)

Module Notification.

Record notification : Type := {
  message : string;
  type : string;
  isVisible : bool;
}.

Definition initial : notification := {| message := ""; type := "info"; isVisible := false |}.

Definition showNotification (message type : string) : notification :=
  {| message := message; type := type; isVisible := true |}.

Definition showSuccess (message : string) : notification := showNotification message "success".
Definition showError (message : string) : notification := showNotification message "error".
Definition showWarning (message : string) : notification := showNotification message "warning".
Definition showInfo (message : string) : notification := showNotification message "info".

Definition hideNotification (n : notification) : notification :=
  {| message := message n; type := type n; isVisible := false |}.

Definition clearNotification : notification := initial.

(** The Notification component renders nothing when [!isVisible || !message]. *)
Definition rendered (n : notification) : bool :=
  isVisible n && negb (String.eqb (message n) "").

End Notification.

(** ** src/components/AddBox.js with src/hooks/useFormValidation.js *)

Module AddBox.
Import Str Conv Form.

(** What the component holds: the store of the context, the form and the
    notification. *)
Record view : Type := {
  store : Store.state;
  form : BoxForm.hook;
  notification : Notification.notification;
}.

Definition initial : view :=
  {| store := Store.createInitialState; form := BoxForm.initial;
     notification := Notification.initial |}.

(** [Object.keys(COUNTRY_MULTIPLIERS)]: the values of the options of the
    country selector, in the order of the object literal. *)
Definition countries : list string := ["SWEDEN"; "CHINA"; "BRAZIL"; "AUSTRALIA"].

(** [getEstimatedCost]: [None] when [null] is returned. [formatCurrency]
    formats with the locale data of the runtime ([Intl.NumberFormat]) and
    is taken as it is. The rate is read by the key as it is in the form; a
    key with no rate gives [undefined], and the product is NaN. *)
Definition getEstimatedCost (formatCurrency : float -> string) (f : formState)
  : option string :=
  if negb (String.eqb (weight f) "") && negb (String.eqb (country f) "")
     && (0 <? parseFloat (weight f))%float
  then
    let rate := match SHIPPING_RATES !! country f with Some r => r | None => nan end in
    let cost := (parseFloat (weight f) * rate)%float in
    Some (formatCurrency cost)
  else None.

Definition join (sep : string) (l : list string) : string :=
  match l with
  | [] => ""
  | a :: l' => fold_left (fun acc s => acc ++ sep ++ s) l' a
  end.

(** The message of [validateAndShowErrors] for the errors it reads. *)
Definition missing_message (errors : gmap string string) : string :=
  let missingFields :=
    ((if BoxForm.truthy_entry (errors !! "receiverName") then ["Receiver Name"] else []) ++
     (if BoxForm.truthy_entry (errors !! "weight") then ["Weight"] else []) ++
     (if BoxForm.truthy_entry (errors !! "country") then ["Destination Country"] else []))%list in
  match missingFields with
  | [] => "Please correct the errors in the form before submitting."
  | _ => "Please fill in the following required fields: " ++ join ", " missingFields
  end.

(** [validateAndShowErrors]: [validateForm] sets the errors of the form;
    the message is made from the errors of the render the callback was
    created in, those before this validation. *)
Definition validateAndShowErrors (v : view) : view * bool :=
  let '(form1, isValid) := BoxForm.validateForm (form v) in
  if negb isValid then
    ({| store := store v; form := form1;
        notification := Notification.showError (missing_message (BoxForm.errors (form v))) |},
     false)
  else ({| store := store v; form := form1; notification := notification v |}, true).

(** [handleSubmit]: [clearError], then the handler [handleFormSubmission]
    makes of [submitAction], [handleSuccess] and [handleError]. [addBox]
    catches what it throws, so the only exception is the one raised for a
    result without success, which [handleError] answers. *)
Definition handleSubmit (v : view) (env : Store.environment) : view :=
  let v0 := {| store := Store.clearError (store v); form := form v;
               notification := notification v |} in
  let '(v1, ok) := validateAndShowErrors v0 in
  if negb ok then v1
  else
    let form2 := BoxForm.setIsSubmitting (form v1) true in
    let submissionData := getSubmissionData (BoxForm.formData (form v)) in
    match Store.addBox (store v1) (Some submissionData) env with
    | (store3, Store.Success message _) =>
        let shown := if String.eqb message "" then BOX_ADDED else message in
        {| store := store3;
           form := BoxForm.setIsSubmitting (BoxForm.resetForm form2) false;
           notification := Notification.showSuccess shown |}
    | (store3, Store.Failure _) =>
        {| store := store3;
           form := BoxForm.setIsSubmitting form2 false;
           notification :=
             Notification.showError "An error occurred while saving the box. Please try again." |}
    end.

(** [handleChange] of the form with [handleNegativeWeight] as its callback. *)
Definition handleChange (v : view) (x : BoxForm.field) (value : string) : view :=
  let '(form1, warnings) := BoxForm.handleChange (form v) x value in
  {| store := store v; form := form1;
     notification := match warnings with
                     | m :: _ => Notification.showWarning m
                     | [] => notification v
                     end |}.

End AddBox.

(** ** src/utils/index.js: debounce *)

Module Debounce.
Section Debounced.

(** The arguments of a call, and the delay in milliseconds. *)
Variable A : Type.
Variable delay : N.

(** The timer [timeoutId] refers to while it is pending: when it is due
    and the arguments [func] will be applied to. *)
Record timer : Type := {
  due : N;
  args : A;
}.

(** A call of the debounced function at the time [now]: [clearTimeout]
    cancels the pending timer, [setTimeout] starts a new one. *)
Definition call (now : N) (a : A) (pending : option timer) : option timer :=
  Some {| due := now + delay; args := a |}.

(** The event loop reaching the time [now]: a pending timer that is due
    runs; the second component is the application of [func] it makes. *)
Definition elapse (now : N) (pending : option timer) : option timer * list (N * A) :=
  match pending with
  | Some t => if (due t <=? now)%N then (None, [(due t, args t)]) else (pending, [])
  | None => (None, [])
  end.

(** The calls made at the given times, one after the other, and then the
    loop left to run: the applications of [func], when and on what. *)
Fixpoint run (calls : list (N * A)) (pending : option timer) : list (N * A) :=
  match calls with
  | (now, a) :: rest =>
      let '(pending1, applied) := elapse now pending in
      (applied ++ run rest (call now a pending1))%list
  | [] =>
      match pending with
      | Some t => [(due t, args t)]
      | None => []
      end
  end.

End Debounced.

Arguments Build_timer {A} due args.
Arguments due {A} t.
Arguments args {A} t.
Arguments call {A} delay now a pending.
Arguments elapse {A} now pending.
Arguments run {A} delay calls pending.

End Debounce.

(** ** The runtime: JSON *)

(** [JSON.stringify] and [JSON.parse] (ECMAScript 25.5) on the values that
    are [undefined], [null], booleans, numbers, strings, arrays and plain
    objects. An object is the list of its own properties in the order they
    are enumerated: the array indices in ascending order, then the other
    keys in the order of their creation. A [\u] escape above U+00FF denotes
    no character of the embedding. *)

Module Json.
Import Str Conv.
Local Open Scope list_scope.

#[warnings="-register-all"]
Inductive js : Type :=
| JUndefined
| JNull
| JBool (b : bool)
| JNum (x : float)
| JStr (s : string)
| JArr (items : list js)
| JObj (members : list (string * js)).

Definition quotation : ascii := "034"%char.

(** A number that is neither NaN nor an infinity. *)
Definition is_finite (x : float) : bool :=
  match Prim2SF x with
  | S754_zero _ | S754_finite _ _ _ => true
  | _ => false
  end.

(** *** JSON.stringify *)

Definition hex_digit (d : N) : ascii :=
  if (d <? 10)%N then ascii_of_N (48 + d) else ascii_of_N (87 + d).

(** QuoteJSONString, one character. *)
Definition quote_char (c : ascii) : list ascii :=
  if (code c =? 8)%N then chars "\b"
  else if (code c =? 9)%N then chars "\t"
  else if (code c =? 10)%N then chars "\n"
  else if (code c =? 12)%N then chars "\f"
  else if (code c =? 13)%N then chars "\r"
  else if (code c =? 34)%N then ["\"%char; quotation]
  else if (code c =? 92)%N then chars "\\"
  else if (code c <? 32)%N then
    chars "\u00" ++ [hex_digit (code c / 16); hex_digit (code c mod 16)]
  else [c].

Definition quote (s : string) : list ascii :=
  quotation :: flat_map quote_char (chars s) ++ [quotation].

Fixpoint join (sep : list ascii) (l : list (list ascii)) : list ascii :=
  match l with
  | [] => []
  | [a] => a
  | a :: l' => a ++ sep ++ join sep l'
  end.

(** SerializeJSONProperty: [None] is [undefined]. *)
Fixpoint serialize (v : js) : option (list ascii) :=
  match v with
  | JUndefined => None
  | JNull => Some (chars "null")
  | JBool b => Some (if b then chars "true" else chars "false")
  | JNum x => Some (if is_finite x then Number_toString_chars x else chars "null")
  | JStr s => Some (quote s)
  | JArr items =>
      Some ("["%char ::
            join [","%char]
                 (map (fun i => match serialize i with Some t => t | None => chars "null" end)
                      items)
            ++ ["]"%char])
  | JObj members =>
      Some ("{"%char ::
            join [","%char]
                 (flat_map (fun m => match serialize (snd m) with
                                     | Some t => [quote (fst m) ++ ":"%char :: t]
                                     | None => []
                                     end)
                           members)
            ++ ["}"%char])
  end.

Definition stringify (v : js) : option string :=
  match serialize v with
  | Some t => Some (str t)
  | None => None
  end.

(** *** JSON.parse *)

(** JSONWhiteSpace: tab, line feed, carriage return, space. *)
Definition is_ws (c : ascii) : bool :=
  (code c =? 9)%N || (code c =? 10)%N || (code c =? 13)%N || (code c =? 32)%N.

Definition skip_ws (l : list ascii) : list ascii := drop_while is_ws l.

Definition hex_value (c : ascii) : option N :=
  if is_digit c then Some (code c - 48)%N
  else if (97 <=? code c)%N && (code c <=? 102)%N then Some (code c - 87)%N
  else if (65 <=? code c)%N && (code c <=? 70)%N then Some (code c - 55)%N
  else None.

(** The character after a backslash, and what follows the escape. *)
Definition parse_escape (l : list ascii) : option (ascii * list ascii) :=
  match l with
  | c :: r =>
      if (code c =? 34)%N then Some (quotation, r)
      else if (code c =? 92)%N then Some ("\"%char, r)
      else if (code c =? 47)%N then Some ("/"%char, r)
      else if (code c =? 98)%N then Some (ascii_of_N 8, r)
      else if (code c =? 102)%N then Some (ascii_of_N 12, r)
      else if (code c =? 110)%N then Some (ascii_of_N 10, r)
      else if (code c =? 114)%N then Some (ascii_of_N 13, r)
      else if (code c =? 116)%N then Some (ascii_of_N 9, r)
      else if (code c =? 117)%N then
        match r with
        | h1 :: h2 :: h3 :: h4 :: r' =>
            match hex_value h1, hex_value h2, hex_value h3, hex_value h4 with
            | Some a, Some b, Some c, Some d =>
                let n := (((a * 16 + b) * 16 + c) * 16 + d)%N in
                if (n <? 256)%N then Some (ascii_of_N n, r') else None
            | _, _, _, _ => None
            end
        | _ => None
        end
      else None
  | [] => None
  end.

(** JSONString after its opening quotation mark: the characters up to the
    closing one, and what follows it. *)
Fixpoint parse_string (fuel : nat) (l : list ascii) : option (list ascii * list ascii) :=
  match fuel with
  | O => None
  | S fuel' =>
      match l with
      | c :: r =>
          if (code c =? 34)%N then Some ([], r)
          else if (code c =? 92)%N then
            match parse_escape r with
            | Some (d, r') =>
                match parse_string fuel' r' with
                | Some (s, rest) => Some (d :: s, rest)
                | None => None
                end
            | None => None
            end
          else if (code c <? 32)%N then None
          else
            match parse_string fuel' r with
            | Some (s, rest) => Some (c :: s, rest)
            | None => None
            end
      | [] => None
      end
  end.

(** The characters a JSONNumber is made of. *)
Definition is_number_char (c : ascii) : bool :=
  is_digit c || (code c =? 45)%N || (code c =? 43)%N || (code c =? 46)%N
  || (code c =? 101)%N || (code c =? 69)%N.

(** [int]: a zero, or digits that start with none. *)
Definition valid_int (l : list ascii) : bool :=
  match l with
  | [] => false
  | [c] => is_digit c
  | c :: _ => is_digit c && negb (code c =? 48)%N && forallb is_digit l
  end.

Definition nonempty_digits (l : list ascii) : bool :=
  match l with
  | [] => false
  | _ => forallb is_digit l
  end.

(** [exp], when there is one. *)
Definition valid_exp (l : list ascii) : bool :=
  match l with
  | [] => true
  | c :: r =>
      ((code c =? 101)%N || (code c =? 69)%N) &&
      match r with
      | s :: r' => if (code s =? 45)%N || (code s =? 43)%N then nonempty_digits r'
                   else nonempty_digits r
      | [] => false
      end
  end.

(** JSONNumber: [-? int frac? exp?]. *)
Definition valid_number (l : list ascii) : bool :=
  let l1 := match l with
            | c :: r => if (code c =? 45)%N then r else l
            | [] => l
            end in
  let '(ip, r1) := span is_digit l1 in
  valid_int ip &&
  match r1 with
  | c :: r2 =>
      if (code c =? 46)%N then
        let '(fp, r3) := span is_digit r2 in
        nonempty_digits fp && valid_exp r3
      else valid_exp r1
  | [] => true
  end.

(** An array index: the canonical text of an integer below 2^32 - 1. *)
Definition is_index (k : string) : bool :=
  valid_int (chars k) && (digits_value (chars k) <? 4294967295)%N.

Definition index_value (k : string) : N := digits_value (chars k).

(** Where a new array index goes: after the indices below it. *)
Fixpoint insert_index (k : string) (x : js) (members : list (string * js))
  : list (string * js) :=
  match members with
  | m :: rest =>
      if is_index (fst m) && (index_value (fst m) <? index_value k)%N
      then m :: insert_index k x rest
      else (k, x) :: members
  | [] => [(k, x)]
  end.

Fixpoint replace_value (k : string) (x : js) (members : list (string * js))
  : list (string * js) :=
  match members with
  | m :: rest =>
      if String.eqb (fst m) k then (k, x) :: rest else m :: replace_value k x rest
  | [] => []
  end.

(** CreateDataProperty on an object under construction: a key that is
    there keeps its place and takes the new value. *)
Definition define_property (members : list (string * js)) (k : string) (x : js)
  : list (string * js) :=
  if existsb (fun m => String.eqb (fst m) k) members then replace_value k x members
  else if is_index k then insert_index k x members
  else members ++ [(k, x)].

(** JSONValue, with what follows it. Every call on a shorter text takes one
    unit of fuel; the length of the text is enough. *)
Fixpoint parse_value (fuel : nat) (l : list ascii) : option (js * list ascii) :=
  match fuel with
  | O => None
  | S fuel' =>
      match skip_ws l with
      | c :: r =>
          if (code c =? 34)%N then
            match parse_string (length r) r with
            | Some (s, rest) => Some (JStr (str s), rest)
            | None => None
            end
          else if (code c =? 91)%N then
            match skip_ws r with
            | d :: r' => if (code d =? 93)%N then Some (JArr [], r')
                         else parse_items fuel' r []
            | [] => None
            end
          else if (code c =? 123)%N then
            match skip_ws r with
            | d :: r' => if (code d =? 125)%N then Some (JObj [], r')
                         else parse_members fuel' r []
            | [] => None
            end
          else if is_digit c || (code c =? 45)%N then
            let '(token, rest) := span is_number_char (c :: r) in
            if valid_number token then Some (JNum (parseFloat (str token)), rest) else None
          else
            match starts_with (chars "null") (c :: r) with
            | Some rest => Some (JNull, rest)
            | None =>
                match starts_with (chars "true") (c :: r) with
                | Some rest => Some (JBool true, rest)
                | None =>
                    match starts_with (chars "false") (c :: r) with
                    | Some rest => Some (JBool false, rest)
                    | None => None
                    end
                end
            end
      | [] => None
      end
  end

(** The elements of an array after [[] or a comma; [acc] holds the
    elements read, the last one first. *)
with parse_items (fuel : nat) (l : list ascii) (acc : list js) : option (js * list ascii) :=
  match fuel with
  | O => None
  | S fuel' =>
      match parse_value fuel' l with
      | Some (v, r) =>
          match skip_ws r with
          | c :: r' =>
              if (code c =? 44)%N then parse_items fuel' r' (v :: acc)
              else if (code c =? 93)%N then Some (JArr (rev (v :: acc)), r')
              else None
          | [] => None
          end
      | None => None
      end
  end

(** The members of an object after [{] or a comma; [acc] is the object
    under construction. *)
with parse_members (fuel : nat) (l : list ascii) (acc : list (string * js))
  : option (js * list ascii) :=
  match fuel with
  | O => None
  | S fuel' =>
      match skip_ws l with
      | q :: r =>
          if (code q =? 34)%N then
            match parse_string (length r) r with
            | Some (k, r1) =>
                match skip_ws r1 with
                | c :: r2 =>
                    if (code c =? 58)%N then
                      match parse_value fuel' r2 with
                      | Some (v, r3) =>
                          let acc' := define_property acc (str k) v in
                          match skip_ws r3 with
                          | d :: r4 =>
                              if (code d =? 44)%N then parse_members fuel' r4 acc'
                              else if (code d =? 125)%N then Some (JObj acc', r4)
                              else None
                          | [] => None
                          end
                      | None => None
                      end
                    else None
                | [] => None
                end
            | None => None
            end
          else None
      | [] => None
      end
  end.

(** [JSON.parse]: a value with nothing but white space after it; a text
    that is no JSON throws a SyntaxError. *)
Definition parse (text : string) : result js :=
  match parse_value (S (String.length text)) (chars text) with
  | Some (v, rest) =>
      if forallb is_ws rest then Ok v else Throw "SyntaxError"
  | None => Throw "SyntaxError"
  end.

(** ** src/utils/index.js: deepClone *)

(** [JSON.parse(JSON.stringify(obj))]: when [JSON.stringify] returns
    [undefined], [JSON.parse] reads the text ["undefined"]. *)
Definition deepClone (obj : js) : result js :=
  parse (match stringify obj with
         | Some text => text
         | None => "undefined"
         end).

End Json.

(** ** The specification's own notions *)

Module Spec.
Import Form Store.
Local Open Scope list_scope.

(** The hexadecimal digits, in either case, and their values. *)
Definition hex_table : list (ascii * N) :=
  [("0", 0); ("1", 1); ("2", 2); ("3", 3); ("4", 4); ("5", 5); ("6", 6); ("7", 7);
   ("8", 8); ("9", 9); ("a", 10); ("b", 11); ("c", 12); ("d", 13); ("e", 14);
   ("f", 15); ("A", 10); ("B", 11); ("C", 12); ("D", 13); ("E", 14); ("F", 15)]%char%N.

Definition hex_digit_value (c : ascii) : option N :=
  match List.find (fun kv => Ascii.eqb c (fst kv)) hex_table with
  | Some kv => Some (snd kv)
  | None => None
  end.

(** [s] is six hexadecimal digits, with or without a leading [#], that
    spell the channels [r], [g] and [b]. *)
Definition hex_colour (s : string) (r g b : N) : Prop :=
  exists c1 c2 c3 c4 c5 c6 v1 v2 v3 v4 v5 v6,
    (s = Str.str [c1; c2; c3; c4; c5; c6] \/
     s = Str.str ("#"%char :: [c1; c2; c3; c4; c5; c6])) /\
    hex_digit_value c1 = Some v1 /\ hex_digit_value c2 = Some v2 /\
    hex_digit_value c3 = Some v3 /\ hex_digit_value c4 = Some v4 /\
    hex_digit_value c5 = Some v5 /\ hex_digit_value c6 = Some v6 /\
    r = (16 * v1 + v2)%N /\ g = (16 * v3 + v4)%N /\ b = (16 * v5 + v6)%N.

(** The text ["(r, g, b)"] the encoder produces for three channels. *)
Definition encoded (r g b : N) : string :=
  Utils.triplet (Str.digits_of_N r) (Str.digits_of_N g) (Str.digits_of_N b).

(** [s] has the exact shape the encoder produces. *)
Definition encoder_shape (s : string) : Prop := exists r g b : N, s = encoded r g b.

Definition digit_run (l : list ascii) : Prop :=
  l <> [] /\ Forall (fun c => Str.is_digit c = true) l.

Definition spaces (l : list ascii) : Prop := Forall (fun c => Str.is_space c = true) l.

(** The text [l] starts with ["(r,g,b)"], white space allowed after each
    comma. *)
Definition triplet_at (l : list ascii) (r g b : list ascii) : Prop :=
  exists w1 w2 post,
    l = ("("%char :: r ++ ","%char :: w1 ++ g ++ ","%char :: w2 ++ b ++ ")"%char :: post)%list /\
    digit_run r /\ digit_run g /\ digit_run b /\ spaces w1 /\ spaces w2.

(** [s] contains the text ["(r,g,b)"], white space allowed after each
    comma, after some [pre]. *)
Definition contains_triplet (s : string) (r g b : list ascii) : Prop :=
  exists pre l, Str.chars s = (pre ++ l)%list /\ triplet_at l r g b.

(** ["(r,g,b)"] is the first triplet of [s]: no triplet starts before it. *)
Definition first_triplet (s : string) (r g b : list ascii) : Prop :=
  exists pre l,
    Str.chars s = (pre ++ l)%list /\ triplet_at l r g b /\
    forall pre' l' r' g' b',
      Str.chars s = (pre' ++ l')%list -> (length pre' < length pre)%nat ->
      ~ triplet_at l' r' g' b'.

(** The weight entry of the error map of a candidate. *)
Definition weight_message (f : Utils.formData) : option string :=
  Utils.errors (Utils.validateBoxForm f) !! "weight".

(** The Rate Table (section 3): four country keys and their rates per
    kilogram. *)
Definition rate_table : list (string * float) :=
  [("Sweden", 7.35%float); ("China", 11.53%float);
   ("Brazil", 15.63%float); ("Australia", 50.09%float)].

(** Two keys match case-insensitively. *)
Definition same_key (a b : string) : bool :=
  String.eqb (Str.toUpperCase a) (Str.toUpperCase b).

(** The rate of the country a key matches, if any. *)
Definition rate (countryKey : string) : option float :=
  match List.find (fun kv => same_key countryKey (fst kv)) rate_table with
  | Some kv => Some (snd kv)
  | None => None
  end.

(** The Rate Table as the specification writes it: decimal fractions. *)
Definition decimal_rate_table : list (string * Q) :=
  [("Sweden", 735 # 100); ("China", 1153 # 100);
   ("Brazil", 1563 # 100); ("Australia", 5009 # 100)].

(** A rational rounded to 2 decimal places, half up. *)
Definition half_up_hundredths (q : Q) : Q := Qfloor (q * 100 + (1 # 2)) # 100.

(** A rational rounded to 2 decimal places, half to even (banker's
    rounding). *)
Definition half_even_hundredths (q : Q) : Q :=
  let n := Qfloor (q * 100) in
  let rest := (q * 100 - inject_Z n)%Q in
  if Qle_bool rest (1 # 2) && Qle_bool (1 # 2) rest
  then (if Z.even n then n else (n + 1)%Z) # 100
  else Qfloor (q * 100 + (1 # 2)) # 100.

(** The value of a number that is neither NaN nor an infinity: its
    significand times the power of 2 of its exponent. *)
Definition exact (x : float) : option Q :=
  match Prim2SF x with
  | S754_zero _ => Some 0%Q
  | S754_finite s m e =>
      let v := (inject_Z (Zpos m) * Qpower 2 e)%Q in
      Some (if s then Qopp v else v)
  | _ => None
  end.

(** [y] is a number nearest to the rational [q]: it has a value, and no
    number has a value nearer to [q]. *)
Definition nearest (q : Q) (y : float) : Prop :=
  exists v, exact y = Some v /\
    forall z u, exact z = Some u -> (Qabs (v - q) <= Qabs (u - q))%Q.

(** A weight that is absent, NaN, zero or negative. *)
Definition no_weight (w : option float) : Prop :=
  match w with
  | None => True
  | Some x => is_nan x = true \/ is_zero x = true \/ (x <? 0)%float = true
  end.

(** The sum of a sequence of numbers, taken from left to right. *)
Definition sum (l : list float) : float := fold_left PrimFloat.add l 0%float.

(** Aggregate Statistics (section 3): [totalBoxes = count(records)],
    [totalWeight = sum(weight)], [totalCost = sum(shippingCost)]. *)
Definition aggregate (records : list box) : stats :=
  {| totalBoxes := N.of_nat (length records);
     totalWeight := sum (map weight records);
     totalCost := sum (map shippingCost records) |}.

(** A number as the statistics add it: NaN and the zeros count as 0. *)
Definition counted (x : float) : float :=
  if is_nan x then 0%float else if is_zero x then 0%float else x.

(** The statistics as the reducer keeps them: the count of the records
    and the sums of their counted weights and costs. *)
Definition aggregate_counted (records : list box) : stats :=
  {| totalBoxes := N.of_nat (length records);
     totalWeight := sum (map (fun b => counted (weight b)) records);
     totalCost := sum (map (fun b => counted (shippingCost b)) records) |}.

(** A Box Record of the data model (section 3) carries a weight above 0
    and a shipping cost that is 0 or above 0. *)
Definition well_formed (b : box) : Prop :=
  (0 <? weight b)%float = true /\
  (shippingCost b = 0%float \/ (0 <? shippingCost b)%float = true).

(** [shippingCost] is consistent with [(weight, country)]: it is what the
    pricing function returns for them. *)
Definition consistent (b : box) : Prop :=
  Utils.calculateShippingCost (Some (weight b)) (Some (country b)) = Ok (shippingCost b).

(** Whether [weight] or [country] is among the updated fields. *)
Definition reprices (u : updates) : bool :=
  match u_weight u, u_country u with
  | None, None => false
  | _, _ => true
  end.

(** What an update of the record with id [i] by the fields [u] makes of
    the record [b]: every field given is merged into the record with that
    id, whose cost is priced anew when [u] touches weight or country and
    is the cost given, if one is given, otherwise; every other record stays
    as it is. *)
Definition updated_as (i : string) (u : updates) (now : string) (b b' : box) : Prop :=
  if String.eqb (id b) i then
    id b' = or_else (u_id u) (id b) /\
    receiverName b' = or_else (u_receiverName u) (receiverName b) /\
    weight b' = or_else (u_weight u) (weight b) /\
    boxColor b' = or_else (u_boxColor u) (boxColor b) /\
    country b' = or_else (u_country u) (country b) /\
    createdAt b' = or_else (u_createdAt u) (createdAt b) /\
    updatedAt b' = now /\
    (if reprices u then consistent b'
     else shippingCost b' = or_else (u_shippingCost u) (shippingCost b))
  else b' = b.

(** The four actions that change the record sequence. *)
Definition changes_records (a : action) : bool :=
  match a with
  | LOAD_BOXES _ | ADD_BOX _ | REMOVE_BOX _ | UPDATE_BOX _ => true
  | _ => false
  end.

End Spec.

(** ** Notions the proofs are stated with *)

Module Aux.
Import Form Store.
Local Open Scope list_scope.

(** The value of the finite number with significand [m] and exponent [e]. *)
Definition value_of (m : positive) (e : Z) : Q :=
  if (0 <=? e)%Z then inject_Z (Zpos m * 2 ^ e) else (Zpos m # Pos.pow 2 (Z.to_pos (- e))).

(** What [parseFloat(x.toFixed(2))] makes of a number: the number of its
    value rounded half up to 2 decimal places (a negative one is rounded
    as its opposite); NaN and the infinities are left alone. *)
Definition round2 (x : float) : float :=
  match Num.to_Q x with
  | None => x
  | Some q =>
      if Qle_bool 0 q then Num.of_Q (Spec.half_up_hundredths q)
      else (- Num.of_Q (Spec.half_up_hundredths (- q)))%float
  end.

(** What [updateBox] dispatches for the fields [u]: the cost it settled
    on and the time of the update written into them. *)
Definition dispatched (u : updates) (cost : option float) (now : string) : updates :=
  {| u_id := u_id u;
     u_receiverName := u_receiverName u;
     u_weight := u_weight u;
     u_boxColor := u_boxColor u;
     u_country := u_country u;
     u_shippingCost := cost;
     u_createdAt := u_createdAt u;
     u_updatedAt := Some now |}.

(** The text starts with no digit. *)
Definition not_digit_head (l : list ascii) : Prop :=
  match l with c :: _ => Str.is_digit c = false | [] => True end.

(** A text that starts with a digit and is read as a rational [q >= 0]
    that rounds to [y]. *)
Definition reads_as (t : list ascii) (y : float) : Prop :=
  exists c l q,
    t = c :: l /\ Str.is_digit c = true /\ Conv.parse_unsigned (c :: l) = Some (Some q) /\
    (0 <= q)%Q /\ Num.of_Q q = y.

(** What [addBox] builds from a candidate and the cost of its shipping. *)
Definition new_box (d : boxData) (cost : float) (env : environment) : box :=
  {| id := generateId env;
     receiverName := bd_receiverName d;
     weight := bd_weight d;
     boxColor := bd_boxColor d;
     country := bd_country d;
     shippingCost := cost;
     createdAt := now_created env;
     updatedAt := now_updated env |}.

(** The callback of the [reduce] in [calculateStatistics]. *)
Definition stats_step (st : stats) (b : box) : stats :=
  {| totalBoxes := totalBoxes st + 1;
     totalWeight := (totalWeight st + Num.or_zero (weight b))%float;
     totalCost := (totalCost st + Num.or_zero (shippingCost b))%float |}.

(** The number of a non-negative integer below 2^63, by the kernel's
    conversion. *)
Definition float_of_Z (z : Z) : float := of_uint63 (Uint63Axioms.of_Z z).

(** [of_Q] gives for [n / d] what the kernel's division gives for the
    numbers of [n] and [d]. *)
Definition agrees_with_division (n d : positive) : bool :=
  PrimFloat.Leibniz.eqb (Num.of_Q (Zpos n # d))
                        (float_of_Z (Zpos n) / float_of_Z (Zpos d))%float.

(** [of_Q] gives for the product of the values of two finite numbers what
    the kernel's multiplication gives. *)
Definition agrees_with_product (x y : float) : bool :=
  match Num.to_Q x, Num.to_Q y with
  | Some a, Some b => PrimFloat.Leibniz.eqb (Num.of_Q (a * b)) (x * y)%float
  | _, _ => false
  end.

Definition positives (n : nat) : list positive := map Pos.of_nat (seq 1 n).

End Aux.

(** ** Concrete inputs of the scenarios *)

Module Scenario.
Import Form Store.

Definition alice : boxData :=
  {| bd_receiverName := "Alice"; bd_weight := 2; bd_boxColor := "(0, 0, 0)";
     bd_country := "China" |}.

Definition nameless : boxData :=
  {| bd_receiverName := ""; bd_weight := 1; bd_boxColor := "(0, 0, 0)";
     bd_country := "Sweden" |}.

Definition no_updates : updates :=
  {| u_id := None; u_receiverName := None; u_weight := None; u_boxColor := None;
     u_country := None; u_shippingCost := None; u_createdAt := None;
     u_updatedAt := None |}.

Definition weight_10 : updates :=
  {| u_id := None; u_receiverName := None; u_weight := Some 10%float; u_boxColor := None;
     u_country := None; u_shippingCost := None; u_createdAt := None;
     u_updatedAt := None |}.

(** Fields that carry a cost of their own and neither weight nor country. *)
Definition cost_999 : updates :=
  {| u_id := None; u_receiverName := None; u_weight := None; u_boxColor := None;
     u_country := None; u_shippingCost := Some 999%float; u_createdAt := None;
     u_updatedAt := None |}.

(** A candidate whose weight is NaN. *)
Definition unweighed : boxData :=
  {| bd_receiverName := "Bob"; bd_weight := nan; bd_boxColor := "(0, 0, 0)";
     bd_country := "China" |}.

(** A candidate whose weight is the number 0. *)
Definition zero_weight : Utils.formData :=
  {| Utils.receiverName := Some "John Doe"; Utils.weight := VNum 0;
     Utils.boxColor := VStr "#3498db"; Utils.country := Some "Sweden" |}.

Definition env0 : environment :=
  {| date_now := 1700000000000; random_digits := "k3j9x0q1z";
     now_created := "2023-11-14T22:13:20.000Z";
     now_updated := "2023-11-14T22:13:20.000Z" |}.

End Scenario.

(** ** Notions of the further properties *)

Module Rules.
Import Form Store Spec.
Local Open Scope list_scope.

(** A receiver name the validation accepts: its trimmed text has between
    1 and 100 characters. *)
Definition accepted_name (n : option string) : Prop :=
  exists s, n = Some s /\ Str.trim s <> "" /\ (String.length (Str.trim s) <= 100)%nat.

(** A weight the validation accepts: it is not falsy and is read as a
    number above 0 and at most 10000. *)
Definition accepted_weight (w : value) : Prop :=
  truthy w = true /\
  (0 <? Utils.parseFloat_value w)%float = true /\
  (Utils.parseFloat_value w <=? 10000)%float = true.

(** A country the validation accepts: any text but the empty one. *)
Definition accepted_country (c : option string) : Prop :=
  exists s, c = Some s /\ s <> "".

(** The keys of the error map the validation can set. *)
Definition validated_keys : list string := ["receiverName"; "weight"; "country"].

(** Every entry has one of the three keys and a message that is not empty. *)
Definition entries_sound (e : gmap string string) : Prop :=
  forall k m, e !! k = Some m -> In k validated_keys /\ m <> "".

(** A number that is neither NaN, nor below 0. *)
Definition not_negative (x : float) : Prop :=
  is_nan x = false /\ (0 <=? x)%float = true.

(** The numbers that are no NaN and have a clear sign bit. *)
Definition plus_signed (y : spec_float) : Prop :=
  match y with
  | S754_zero s | S754_infinity s | S754_finite s _ _ => s = false
  | S754_nan => False
  end.

(** A number that is one of the two infinities. *)
Definition infinite (x : float) : bool :=
  match Prim2SF x with
  | S754_infinity _ => true
  | _ => false
  end.

(** A text that is absent or all of whose code units are ASCII. *)
Definition ascii_or_absent (n : option string) : Prop :=
  match n with
  | Some s => Str.ascii_only s = true
  | None => True
  end.

(** The names the error notification lists for the fields rejected. *)
Definition listed (name weight country : bool) : list string :=
  (if name then ["Receiver Name"] else []) ++
  (if weight then ["Weight"] else []) ++
  (if country then ["Destination Country"] else []).

(** A call of one of the functions the context offers, made from the
    render of the state it acts on. *)
Inductive call : Type :=
| Add (boxData : option boxData) (env : environment)
| Remove (boxId : option string)
| Update (boxId : option string) (fields : option updates) (now : string)
| ClearError
| RefreshStatistics.

Definition perform (s : state) (c : call) : state :=
  match c with
  | Add d env => fst (addBox s d env)
  | Remove i => fst (removeBox s i)
  | Update i f now => fst (updateBox s i f now)
  | ClearError => clearError s
  | RefreshStatistics => boxReducer s UPDATE_STATISTICS
  end.

(** What the call returns to its caller, for the three that return. *)
Definition answer (s : state) (c : call) : option outcome :=
  match c with
  | Add d env => Some (snd (addBox s d env))
  | Remove i => Some (snd (removeBox s i))
  | Update i f now => Some (snd (updateBox s i f now))
  | ClearError | RefreshStatistics => None
  end.

(** Calls made one after the other, each from the render that followed
    the call before it. *)
Definition perform_all (s : state) (cs : list call) : state := fold_left perform cs s.

(** The fields of an update carry no id, and no cost of their own unless
    they carry weight or country. *)
Definition own_fields (c : call) : Prop :=
  match c with
  | Update _ (Some u) _ => u_id u = None /\ (reprices u = true \/ u_shippingCost u = None)
  | _ => True
  end.

(** The fields of an update, if there are any, carry no value for a key. *)
Definition carries_no {A : Type} (key : updates -> option A) (u : option updates) : Prop :=
  match u with
  | Some g => key g = None
  | None => True
  end.

(** Every id [generateId] returns in the course of the calls is new to
    the store at that point. *)
Fixpoint fresh_ids (s : state) (cs : list call) : Prop :=
  match cs with
  | [] => True
  | c :: cs' =>
      match c with
      | Add _ env => ~ In (generateId env) (map id (boxes s))
      | _ => True
      end /\ fresh_ids (perform s c) cs'
  end.

(** The state after an action that failed with the message [e]. *)
Definition failed (s : state) (e : string) : state :=
  {| boxes := boxes s; loading := false; error := Some e; statistics := statistics s |}.

(** The records after UPDATE_BOX. *)
Definition updated (i : string) (u : updates) (bs : list box) : list box :=
  map (fun b => if String.eqb (id b) i then merge b u else b) bs.

(** Ids are distinct, every cost is the price of its record's weight and
    country, and the statistics are those of the records. *)
Definition invariant (s : state) : Prop :=
  List.NoDup (map id (boxes s)) /\
  Forall consistent (boxes s) /\
  statistics s = calculateStatistics (boxes s).

(** The times of the calls increase, each gap satisfying [gap]. *)
Fixpoint spaced (gap : N -> Prop) (last : N) (times : list N) : Prop :=
  match times with
  | [] => True
  | t :: rest => (last <= t)%N /\ gap (t - last)%N /\ spaced gap t rest
  end.

End Rules.

(** ** Notions of the properties of [deepClone] *)

Module JsonRules.
Import Json.
Local Open Scope list_scope.

(** What JSON keeps of an item of an array: [undefined] becomes [null]. *)
Definition item_of (image : js -> js) (i : js) : js :=
  match i with
  | JUndefined => JNull
  | _ => image i
  end.

(** What JSON keeps of a member of an object: one whose value is
    [undefined] is left out. *)
Definition member_of (image : js -> js) (m : string * js) : list (string * js) :=
  match snd m with
  | JUndefined => []
  | _ => [(fst m, image (snd m))]
  end.

(** What JSON keeps of a value: NaN and the infinities become [null], -0
    becomes 0. *)
Fixpoint json_image (v : js) : js :=
  match v with
  | JNum x => if is_finite x then (if is_zero x then JNum 0 else JNum x) else JNull
  | JArr items => JArr (map (item_of json_image) items)
  | JObj members => JObj (flat_map (member_of json_image) members)
  | _ => v
  end.

(** The key [a] may be enumerated before the key [b]: array indices come
    first, in ascending order. *)
Definition may_precede (a b : string) : Prop :=
  if is_index a then (if is_index b then (index_value a < index_value b)%N else True)
  else is_index b = false.

(** The keys of an object, as they are enumerated: no key twice, the
    array indices first and ascending. *)
Fixpoint enumeration (keys : list string) : Prop :=
  match keys with
  | [] => True
  | a :: rest => ~ In a rest /\ Forall (may_precede a) rest /\ enumeration rest
  end.

(** A value all of whose objects list their members as they are
    enumerated. *)
Fixpoint well_formed (v : js) : Prop :=
  match v with
  | JArr items => fold_right (fun i P => well_formed i /\ P) True items
  | JObj members =>
      enumeration (map fst members) /\
      fold_right (fun m P => well_formed (snd m) /\ P) True members
  | _ => True
  end.

(** A value JSON keeps as it is: no [undefined], no NaN, no infinity and
    no -0 anywhere in it. *)
Fixpoint plain (v : js) : Prop :=
  match v with
  | JUndefined => False
  | JNum x => is_finite x = true /\ Prim2SF x <> S754_zero true
  | JArr items => fold_right (fun i P => plain i /\ P) True items
  | JObj members => fold_right (fun m P => plain (snd m) /\ P) True members
  | _ => True
  end.

(** The calls of [parse_value] that reading the text of a value takes. *)
Fixpoint size (v : js) : nat :=
  match v with
  | JArr items => S (fold_right (fun i c => S (size i + c)) 0 items)
  | JObj members =>
      S (fold_right (fun m c => match snd m with
                                | JUndefined => c
                                | _ => S (size (snd m) + c)
                                end) 0 members)
  | _ => 1
  end.

Definition items_size (items : list js) : nat :=
  fold_right (fun i c => S (size i + c)) 0 items.

Definition members_size (members : list (string * js)) : nat :=
  fold_right (fun m c => match snd m with
                         | JUndefined => c
                         | _ => S (size (snd m) + c)
                         end) 0 members.

(** The text of an item of an array. *)
Definition item_text (i : js) : list ascii :=
  match serialize i with
  | Some t => t
  | None => Str.chars "null"
  end.

(** The text of a member of an object, if it has one. *)
Definition member_text (m : string * js) : list (list ascii) :=
  match serialize (snd m) with
  | Some t => [quote (fst m) ++ ":"%char :: t]
  | None => []
  end.

(** A text that starts with no character of a number. *)
Definition ends_number (rest : list ascii) : Prop :=
  match rest with
  | c :: _ => is_number_char c = false
  | [] => True
  end.

(** The first character of the text of a value: no white space and no
    closing bracket. *)
Definition opens_value (t : list ascii) : Prop :=
  match t with
  | c :: _ =>
      is_ws c = false /\ (Str.code c =? 93)%N = false /\ (Str.code c =? 125)%N = false
  | [] => False
  end.

(** The reader gives back what JSON keeps of the value [v], whatever
    follows its text. *)
Definition read_back (v : js) : Prop :=
  forall t fuel rest,
    serialize v = Some t -> well_formed v -> size v <= fuel -> ends_number rest ->
    parse_value fuel (t ++ rest) = Some (json_image v, rest).

(** The test of the repository. *)
Definition original : js :=
  JObj [("name", JStr "test");
        ("nested", JObj [("value", JNum 123)]);
        ("array", JArr [JNum 1; JNum 2; JObj [("nested", JBool true)]])].

(** A value JSON does not keep as it is. *)
Definition lossy : js :=
  JObj [("0", JArr [JUndefined; JNum nan; JNum (-0)]);
        ("dropped", JUndefined);
        ("text", JStr "a\b")].

End JsonRules.

(** * Facts about numbers *)

Module NumFacts.
Import Aux.

Lemma SFeqb_refl_finite s m e : SFeqb (S754_finite s m e) (S754_finite s m e) = true.
Proof.
  unfold SFeqb, SFcompare.
  destruct s; rewrite Z.compare_refl; [rewrite Pos.compare_cont_refl | rewrite Pos.compare_cont_refl]; reflexivity.
Qed.

(** A number above 0 is neither NaN nor a zero. *)
Lemma positive_truthy (w : float) : (0 <? w)%float = true -> Num.truthy w = true.
Proof.
  unfold Num.truthy, is_nan, is_zero.
  rewrite FloatAxioms.ltb_spec, !FloatAxioms.eqb_spec.
  change (Prim2SF 0) with (S754_zero false).
  change (Prim2SF PrimFloat.zero) with (S754_zero false).
  destruct (Prim2SF w) as [s|s| |s m e]; try destruct s; try discriminate; try reflexivity.
  intros _. rewrite SFeqb_refl_finite. reflexivity.
Qed.

Lemma positive_not_le_zero (w : float) : (0 <? w)%float = true -> (w <=? 0)%float = false.
Proof.
  rewrite FloatAxioms.ltb_spec, FloatAxioms.leb_spec.
  change (Prim2SF 0) with (S754_zero false).
  destruct (Prim2SF w) as [s|s| |s m e]; try destruct s; cbn; try discriminate; reflexivity.
Qed.

(** A number below 0 is at most 0. *)
Lemma negative_le_zero (w : float) : (w <? 0)%float = true -> (w <=? 0)%float = true.
Proof.
  rewrite FloatAxioms.ltb_spec, FloatAxioms.leb_spec.
  change (Prim2SF 0) with (S754_zero false).
  unfold SFltb, SFleb. destruct (SFcompare (Prim2SF w) (S754_zero false)) as [[]|]; congruence.
Qed.

(** A number equal to 0 is a zero: not NaN, not below 0. *)
Lemma eqb_zero_class (w : float) :
  (w =? 0)%float = true -> is_nan w = false /\ (w <? 0)%float = false.
Proof.
  unfold is_nan. rewrite FloatAxioms.ltb_spec, !FloatAxioms.eqb_spec.
  change (Prim2SF 0) with (S754_zero false).
  destruct (Prim2SF w) as [s|s| |s m e]; try destruct s; try discriminate; split; reflexivity.
Qed.

Lemma is_zero_falsy (w : float) : is_zero w = true -> Num.truthy w = false.
Proof. unfold Num.truthy. intros ->. now rewrite orb_true_r. Qed.

Lemma or_zero_positive (w : float) : (0 <? w)%float = true -> Num.or_zero w = w.
Proof. intros H. unfold Num.or_zero. now rewrite positive_truthy. Qed.

Lemma or_zero_nonneg (c : float) :
  c = 0%float \/ (0 <? c)%float = true -> Num.or_zero c = c.
Proof. intros [->|H]; [reflexivity | now apply or_zero_positive]. Qed.

(** ** Rounding a rational that is a binary64 value *)

Lemma digits2_pos_size (m : positive) : digits2_pos m = Pos.size m.
Proof. induction m as [m IH|m IH|]; cbn; now rewrite ?IH. Qed.

Lemma digits2_pos_log2 (m : positive) : Zpos (digits2_pos m) = (Z.log2 (Zpos m) + 1)%Z.
Proof.
  rewrite digits2_pos_size. destruct m as [m|m|]; cbn [Pos.size Z.log2]; lia.
Qed.

(** What [bounded] says of a significand and its exponent. *)
Lemma bounded_spec (m : positive) (e : Z) :
  bounded prec emax m e = true ->
  Z.max (Z.log2 (Zpos m) + e - 52) (-1074) = e /\ (e <= 971)%Z /\ (Zpos m < 2 ^ 53)%Z.
Proof.
  unfold bounded, canonical_mantissa, fexp, SpecFloat.emin, prec, emax.
  rewrite andb_true_iff, Z.eqb_eq, Z.leb_le, digits2_pos_log2.
  intros [Hc He]. split; [lia|]. split; [lia|].
  apply Z.log2_lt_pow2; lia.
Qed.

(** A rational that is exactly [m * 2^e], for a significand and exponent
    of the format, rounds to that number. *)
Lemma round_pos_exact (n d m : positive) (e : Z) :
  bounded prec emax m e = true ->
  (Zpos n * 2 ^ 1074 = Zpos m * 2 ^ (e + 1074) * Zpos d)%Z ->
  Num.round_pos n d = S754_finite false m e.
Proof.
  intros Hb Hn. destruct (bounded_spec _ _ Hb) as (Hmax & He & Hm).
  assert (He' : (-1074 <= e)%Z) by lia.
  unfold Num.round_pos.
  assert (Ha : (Zpos n * 2 ^ 1075 = (2 * Zpos m) * (Zpos d * 2 ^ (e + 1074)))%Z).
  { change (2 ^ 1075)%Z with (2 ^ 1074 * 2)%Z. rewrite Z.mul_assoc, Hn. ring. }
  assert (Hp : (0 < 2 ^ (e + 1074))%Z) by (apply Z.pow_pos_nonneg; lia).
  assert (Ht : (Zpos n * 2 ^ 1075 / Zpos d = Zpos m * 2 ^ (e + 1075))%Z).
  { rewrite Ha. replace (e + 1075)%Z with (e + 1074 + 1)%Z by lia.
    rewrite (Z.pow_add_r 2 (e + 1074) 1) by lia.
    replace (2 * Zpos m * (Zpos d * 2 ^ (e + 1074)))%Z
      with (Zpos m * (2 ^ (e + 1074) * 2 ^ 1) * Zpos d)%Z by ring.
    apply Z.div_mul. lia. }
  rewrite Ht, Z.log2_mul_pow2 by lia.
  replace (e + 1075 + Z.log2 (Zpos m) - 1075 - 52)%Z with (Z.log2 (Zpos m) + e - 52)%Z by lia.
  rewrite Hmax, Ha.
  rewrite Z.div_mul, Z.mod_mul by lia.
  rewrite Z.eqb_refl. cbn [negb orb].
  replace (2 * Zpos m / 2)%Z with (Zpos m) by (symmetry; rewrite Z.mul_comm; apply Z.div_mul; lia).
  rewrite Z.odd_mul. cbn [Z.odd andb].
  destruct (Z.eqb_spec (Zpos m) (2 ^ 53)) as [Heq|_]; [lia|].
  apply Z.leb_le in He. now rewrite He.
Qed.

(** [of_Q] takes equal rationals to the same number. *)
Lemma of_Q_eq (p q : Q) : p == q -> Num.of_Q p = Num.of_Q q.
Proof. intros H. unfold Num.of_Q. now rewrite (Qred_complete _ _ H). Qed.

(** The value of a finite number with a clear sign bit reads back as the
    number. *)
Lemma of_Q_to_Q (x : float) (m : positive) (e : Z) (q : Q) :
  Prim2SF x = S754_finite false m e ->
  q == (if (0 <=? e)%Z then inject_Z (Zpos m * 2 ^ e) else (Zpos m # Pos.pow 2 (Z.to_pos (- e)))) ->
  Num.of_Q q = x.
Proof.
  intros Hx Hq.
  pose proof (Prim2SF_valid x) as Hv. rewrite Hx in Hv. cbn in Hv.
  destruct (bounded_spec _ _ Hv) as (Hmax & He & Hm).
  assert (He' : (-1074 <= e)%Z) by lia.
  rewrite <- (SF2Prim_Prim2SF x), Hx.
  unfold Num.of_Q.
  assert (Hr : Qred q ==
    if (0 <=? e)%Z then inject_Z (Zpos m * 2 ^ e) else (Zpos m # Pos.pow 2 (Z.to_pos (- e))))
    by (now rewrite Qred_correct).
  destruct (Qred q) as [rn rd]. cbn [Qnum Qden].
  assert (Hcross : (rn * 2 ^ 1074 = Zpos m * 2 ^ (e + 1074) * Zpos rd)%Z).
  { destruct (Z.leb_spec 0 e) as [Hpos|Hneg].
    - unfold Qeq, inject_Z in Hr. cbn [Qnum Qden] in Hr.
      rewrite (Z.pow_add_r 2 e 1074) by lia. rewrite Z.mul_1_r in Hr. rewrite Hr. ring.
    - unfold Qeq in Hr. cbn [Qnum Qden] in Hr.
      rewrite Pos2Z.inj_pow, Z2Pos.id in Hr by lia.
      replace (2 ^ 1074)%Z with (2 ^ (- e) * 2 ^ (e + 1074))%Z
        by (rewrite <- Z.pow_add_r by lia; f_equal; lia).
      rewrite Z.mul_assoc, Hr. ring. }
  assert (Hpos : (0 < rn)%Z).
  { assert (0 < 2 ^ (e + 1074))%Z by (apply Z.pow_pos_nonneg; lia).
    assert (0 < 2 ^ 1074)%Z by reflexivity. nia. }
  destruct rn as [|rn|rn]; try lia.
  now rewrite (round_pos_exact rn rd m e Hv Hcross).
Qed.

(** [round_pos] against the kernel's binary64 arithmetic: quotients of
    small integers, integers around 2^53 where ties occur, and products of
    weights and rates. *)
Example round_pos_as_the_kernel :
  forallb (fun n => forallb (agrees_with_division n) (positives 12)) (positives 12) = true /\
  forallb (fun d => agrees_with_division (2 ^ 53 - 1) d && agrees_with_division d (2 ^ 53 - 1))
          (positives 12) = true /\
  forallb (fun k => PrimFloat.Leibniz.eqb (Num.of_Q (inject_Z (2 ^ 53 + Z.of_nat k)))
                                          (float_of_Z (2 ^ 53 + Z.of_nat k)))
          (seq 0 16) = true /\
  forallb (fun w => forallb (agrees_with_product w) [7.35; 11.53; 15.63; 50.09]%float)
          [0.5; 1.5; 2; 10; 0.1; 1.005; 1234.56; 10000; 1e-320; 1e300]%float = true.
Proof. conj_by_computation. Qed.

End NumFacts.

(** * Facts about strings and digits *)

Module StrFacts.
Import Str.
Local Open Scope list_scope.

Lemma chars_str (l : list ascii) : chars (str l) = l.
Proof. apply list_ascii_of_string_of_list_ascii. Qed.

Lemma str_chars (s : string) : str (chars s) = s.
Proof. apply string_of_list_ascii_of_string. Qed.

Lemma span_app (p : ascii -> bool) (a rest : list ascii) :
  Forall (fun c => p c = true) a ->
  match rest with c :: _ => p c = false | [] => True end ->
  span p (a ++ rest) = (a, rest).
Proof.
  intros Ha Hrest. induction Ha as [|c a Hc Ha IH]; cbn.
  - destruct rest as [|c rest]; [reflexivity|]. cbn. now rewrite Hrest.
  - now rewrite Hc, IH.
Qed.

Lemma span_spec (p : ascii -> bool) (l a b : list ascii) :
  span p l = (a, b) ->
  l = a ++ b /\ Forall (fun c => p c = true) a /\
  match b with c :: _ => p c = false | [] => True end.
Proof.
  revert a b. induction l as [|c l IH]; cbn; intros a b H.
  - injection H as <- <-. repeat split. constructor.
  - destruct (p c) eqn:Hc.
    + destruct (span p l) as [a' b'] eqn:Hs. injection H as <- <-.
      destruct (IH _ _ eq_refl) as (-> & Ha & Hb).
      repeat split; [now constructor | exact Hb].
    + injection H as <- <-. repeat split; [constructor | exact Hc].
Qed.

Lemma drop_while_spec (p : ascii -> bool) (l : list ascii) :
  exists w, l = w ++ drop_while p l /\ Forall (fun c => p c = true) w.
Proof.
  induction l as [|c l (w & Hw & Hp)]; cbn.
  - exists []. split; [reflexivity | constructor].
  - destruct (p c) eqn:Hc.
    + exists (c :: w). split; [cbn; now rewrite <- Hw | now constructor].
    + exists []. split; [reflexivity | constructor].
Qed.

Lemma drop_while_app (p : ascii -> bool) (w rest : list ascii) :
  Forall (fun c => p c = true) w ->
  match rest with c :: _ => p c = false | [] => True end ->
  drop_while p (w ++ rest) = rest.
Proof.
  intros Hw Hrest. induction Hw as [|c w Hc Hw IH]; cbn.
  - destruct rest as [|c rest]; [reflexivity|]. cbn. now rewrite Hrest.
  - now rewrite Hc.
Qed.

Lemma drop_while_head (p : ascii -> bool) (c : ascii) (l : list ascii) :
  p c = false -> drop_while p (c :: l) = c :: l.
Proof. cbn. now intros ->. Qed.

(** ** Decimal digits *)

Lemma digit_char_spec (d : N) :
  (d < 10)%N -> is_digit (digit_char d) = true /\ digit_val (digit_char d) = d.
Proof.
  intros H.
  assert (Hd : In d [0; 1; 2; 3; 4; 5; 6; 7; 8; 9]%N).
  { destruct d as [|p]; [now left|].
    do 9 (destruct p as [p|p|]; try lia; cbn; auto 12). }
  cbn in Hd. repeat (destruct Hd as [<-|Hd]; [split; reflexivity|]). contradiction.
Qed.

Lemma is_digit_not_space (c : ascii) : is_digit c = true -> is_space c = false.
Proof.
  unfold is_digit, is_space. intros H. apply andb_true_iff in H as [H1 H2].
  apply N.leb_le in H1. apply N.leb_le in H2.
  apply orb_false_iff. split.
  - apply andb_false_iff. right. apply N.leb_gt. lia.
  - apply N.eqb_neq. lia.
Qed.

Lemma is_digit_not (c d : ascii) :
  is_digit c = true -> is_digit d = false -> Ascii.eqb c d = false.
Proof.
  intros Hc Hd. destruct (Ascii.eqb_spec c d) as [->|]; [congruence | reflexivity].
Qed.

(** The digits of [n] before the accumulator was appended. *)
Lemma digits_fuel_app (f : nat) : forall n acc,
  digits_fuel f n acc = digits_fuel f n [] ++ acc.
Proof.
  induction f as [|f IH]; intros n acc; cbn; [reflexivity|].
  destruct (n / 10 =? 0)%N; [reflexivity|].
  rewrite IH, (IH _ [_]), <- app_assoc. reflexivity.
Qed.

Lemma digits_fuel_digits (f : nat) : forall n,
  Forall (fun c => is_digit c = true) (digits_fuel f n []).
Proof.
  induction f as [|f IH]; intros n; cbn; [constructor|].
  assert (Hd : is_digit (digit_char (n mod 10)) = true).
  { apply digit_char_spec. apply N.mod_lt. discriminate. }
  destruct (n / 10 =? 0)%N; [now repeat constructor|].
  rewrite digits_fuel_app. apply Forall_app. split; [apply IH | now repeat constructor].
Qed.

Lemma digits_value_snoc (l : list ascii) (c : ascii) :
  digits_value (l ++ [c]) = (10 * digits_value l + digit_val c)%N.
Proof. unfold digits_value. now rewrite fold_left_app. Qed.

Lemma digits_fuel_value (f : nat) : forall n,
  (n < 2 ^ N.of_nat f)%N -> digits_value (digits_fuel f n []) = n.
Proof.
  induction f as [|f IH]; intros n Hn.
  - cbn in *. lia.
  - cbn [digits_fuel].
    assert (Hm : (n mod 10 < 10)%N) by (apply N.mod_lt; discriminate).
    destruct (digit_char_spec _ Hm) as [_ Hv].
    pose proof (N.div_mod n 10 ltac:(discriminate)) as Hdm.
    destruct (N.eqb_spec (n / 10) 0) as [Hz|Hz].
    + unfold digits_value. cbn. rewrite Hv. lia.
    + rewrite digits_fuel_app, digits_value_snoc, Hv, IH; [lia|].
      rewrite Nat2N.inj_succ, N.pow_succ_r' in Hn.
      apply N.Div0.div_lt_upper_bound. lia.
Qed.

Lemma digits_of_N_value (n : N) : digits_value (digits_of_N n) = n.
Proof.
  unfold digits_of_N. apply digits_fuel_value.
  rewrite Nat2N.inj_succ, N2Nat.id.
  destruct n as [|p]; [reflexivity|]. apply N.log2_spec. reflexivity.
Qed.

Lemma digits_of_N_digits (n : N) : Forall (fun c => is_digit c = true) (digits_of_N n).
Proof. apply digits_fuel_digits. Qed.

Lemma digits_of_N_cons (n : N) : exists c l, digits_of_N n = c :: l /\ is_digit c = true.
Proof.
  pose proof (digits_of_N_digits n) as H. unfold digits_of_N in *.
  cbn [digits_fuel] in *. destruct (n / 10 =? 0)%N.
  - inversion H; subst. eauto.
  - rewrite digits_fuel_app in *. destruct (digits_fuel _ _ []) as [|c l]; cbn in *;
      inversion H; subst; eauto.
Qed.

End StrFacts.

(** * Facts about parsing and printing numbers *)

Module ConvFacts.
Import Str Conv StrFacts NumFacts Spec Aux.
Local Open Scope list_scope.

Lemma pow10_nonneg (k : Z) : (0 <= k)%Z -> pow10 k = inject_Z (10 ^ k).
Proof. intros H. unfold pow10. apply Z.leb_le in H. now rewrite H. Qed.

Lemma pow10_succ (k : Z) : pow10 (k + 1) == inject_Z 10 * pow10 k.
Proof.
  unfold pow10.
  destruct (Z.leb_spec 0 k) as [Hk|Hk].
  - destruct (Z.leb_spec 0 (k + 1)) as [_|]; [|lia].
    rewrite Z.pow_add_r by lia. rewrite inject_Z_mult. apply Qmult_comm.
  - assert (Hp : (0 < 10 ^ (- k))%Z) by (apply Z.pow_pos_nonneg; lia).
    destruct (Z.leb_spec 0 (k + 1)) as [Hk1|Hk1].
    + assert (k = -1)%Z as -> by lia. reflexivity.
    + assert (Hp1 : (0 < 10 ^ (- (k + 1)))%Z) by (apply Z.pow_pos_nonneg; lia).
      unfold Qeq, inject_Z, Qmult. cbn [Qnum Qden].
      rewrite !Pos2Z.inj_mul, !Z2Pos.id by assumption.
      replace (- k)%Z with (- (k + 1) + 1)%Z by lia.
      rewrite Z.pow_add_r by lia. change (10 ^ 1)%Z with 10%Z. ring.
Qed.

Lemma decimal_strip (s : N) (p : Z) :
  (s mod 10 = 0)%N -> decimal (s / 10) (p + 1) == decimal s p.
Proof.
  intros H. unfold decimal. rewrite pow10_succ.
  assert (Hs : s = (10 * (s / 10))%N).
  { pose proof (N.div_mod s 10 ltac:(discriminate)). lia. }
  rewrite Hs at 2. rewrite N2Z.inj_mul, inject_Z_mult. change (Z.of_N 10) with 10%Z. ring.
Qed.

Lemma decimal_zeros (s : N) (z : Z) :
  (0 <= z)%Z -> decimal (s * 10 ^ Z.to_N z) 0 == decimal s z.
Proof.
  intros Hz. unfold decimal. rewrite (pow10_nonneg z Hz).
  rewrite N2Z.inj_mul, N2Z.inj_pow, Z2N.id by assumption.
  change (Z.of_N 10) with 10%Z. change (pow10 0) with (inject_Z 1).
  rewrite <- !inject_Z_mult. now rewrite Z.mul_1_r.
Qed.

Lemma decimal_hundredths (n : Z) : (0 <= n)%Z -> decimal (Z.to_N n) (-2) == (n # 100).
Proof.
  intros Hn. unfold decimal. rewrite Z2N.id by assumption.
  change (pow10 (-2)) with (1 # 100). unfold Qeq, Qmult, inject_Z. cbn [Qnum Qden]. lia.
Qed.

(** The value of digits *)
Lemma digits_value_app (a b : list ascii) :
  digits_value (a ++ b) = (digits_value a * 10 ^ N.of_nat (length b) + digits_value b)%N.
Proof.
  revert a. induction b as [|c b IH] using rev_ind; intros a.
  - rewrite app_nil_r. cbn. lia.
  - rewrite app_assoc, !digits_value_snoc, IH, length_app. cbn [length].
    replace (N.of_nat (length b + 1)) with (N.succ (N.of_nat (length b))) by lia.
    rewrite N.pow_succ_r'. lia.
Qed.

Lemma digits_value_zeros (z : nat) : digits_value (repeat "0"%char z) = 0%N.
Proof.
  induction z as [|z IH]; [reflexivity|].
  change (repeat "0"%char (S z)) with (["0"%char] ++ repeat "0"%char z).
  rewrite digits_value_app, IH. reflexivity.
Qed.

Lemma zeros_digits (z : nat) : Forall (fun c => is_digit c = true) (repeat "0"%char z).
Proof. induction z; cbn; now constructor. Qed.

(** ** Reading what was printed *)

Lemma starts_with_Infinity (c : ascii) (l : list ascii) :
  is_digit c = true -> starts_with (chars "Infinity") (c :: l) = None.
Proof.
  intros Hc. change (chars "Infinity") with ("I"%char :: chars "nfinity").
  cbn [starts_with]. destruct (Ascii.eqb_spec "I" c) as [<-|]; [discriminate | reflexivity].
Qed.

(** A run of digits followed by no fraction. *)
Lemma parse_unsigned_int (c : ascii) (ip rest : list ascii) :
  Forall (fun c => is_digit c = true) (c :: ip) ->
  not_digit_head rest ->
  match rest with d :: _ => Ascii.eqb d "." = false | [] => True end ->
  parse_unsigned ((c :: ip) ++ rest) =
    Some (Some (decimal (digits_value (c :: ip)) (parse_exponent rest))).
Proof.
  intros Hd Hrest Hdot. unfold parse_unsigned.
  inversion Hd as [|? ? Hc Hip]; subst.
  change ((c :: ip) ++ rest) with (c :: (ip ++ rest)).
  rewrite (starts_with_Infinity _ _ Hc).
  change (c :: (ip ++ rest)) with ((c :: ip) ++ rest).
  rewrite (span_app is_digit (c :: ip) rest Hd Hrest).
  destruct rest as [|d rest]; [reflexivity|].
  destruct (Ascii.eqb_spec d ".") as [->|Hne]; [discriminate|].
  destruct d as [[] [] [] [] [] [] [] []]; try reflexivity. now destruct Hne.
Qed.

(** A run of digits, a point and a run of digits. *)
Lemma parse_unsigned_frac (c : ascii) (ip fp rest : list ascii) :
  Forall (fun c => is_digit c = true) (c :: ip) ->
  Forall (fun c => is_digit c = true) fp ->
  not_digit_head rest ->
  parse_unsigned ((c :: ip) ++ "."%char :: fp ++ rest) =
    Some (Some (decimal (digits_value ((c :: ip) ++ fp))
                        (parse_exponent rest - Z.of_nat (length fp)))).
Proof.
  intros Hd Hf Hrest. unfold parse_unsigned.
  inversion Hd as [|? ? Hc Hip]; subst.
  change ((c :: ip) ++ "."%char :: fp ++ rest) with (c :: (ip ++ "."%char :: fp ++ rest)).
  rewrite (starts_with_Infinity _ _ Hc).
  change (c :: (ip ++ "."%char :: fp ++ rest)) with ((c :: ip) ++ "."%char :: fp ++ rest).
  rewrite (span_app is_digit (c :: ip) _ Hd) by reflexivity.
  rewrite (span_app is_digit fp rest Hf Hrest). reflexivity.
Qed.

Lemma parse_exponent_part (ex : Z) : parse_exponent (exponent_part ex) = ex.
Proof.
  unfold exponent_part, parse_exponent. cbn [Ascii.eqb Bool.eqb orb].
  destruct (digits_of_N_cons (Z.abs_N ex)) as (c & l & E & Hc).
  pose proof (digits_of_N_digits (Z.abs_N ex)) as Hd.
  pose proof (digits_of_N_value (Z.abs_N ex)) as Hv.
  rewrite <- (app_nil_r (digits_of_N (Z.abs_N ex))).
  destruct (Z.ltb_spec ex 0) as [Hneg|Hpos]; cbn [Ascii.eqb Bool.eqb];
    rewrite (span_app is_digit _ [] Hd I); cbn [fst]; rewrite E in *; rewrite Hv; lia.
Qed.

Lemma exponent_part_head (ex : Z) : not_digit_head (exponent_part ex).
Proof. reflexivity. Qed.

(** [parseFloat] on a text that starts with a digit. *)
Lemma parseFloat_digit (c : ascii) (l : list ascii) (q : Q) :
  is_digit c = true ->
  parse_unsigned (c :: l) = Some (Some q) ->
  parseFloat (str (c :: l)) = Num.of_Q q.
Proof.
  intros Hc Hp. unfold parseFloat. rewrite chars_str.
  rewrite (drop_while_head _ _ _ (is_digit_not_space _ Hc)).
  rewrite (is_digit_not c "-" Hc eq_refl), (is_digit_not c "+" Hc eq_refl), Hp.
  destruct (Qeq_bool q 0) eqn:Hz; [|reflexivity].
  apply Qeq_bool_eq in Hz. now rewrite (of_Q_eq _ _ Hz).
Qed.

(** What is read of the two-decimal notation of [n] hundredths. *)
Lemma parse_fixed_digits (n : N) :
  exists c l,
    fixed_digits n = c :: l /\ is_digit c = true /\
    parse_unsigned (c :: l) = Some (Some (decimal n (-2))).
Proof.
  unfold fixed_digits.
  set (m := repeat "0"%char (3 - length (digits_of_N n)) ++ digits_of_N n).
  assert (Hm : Forall (fun c => is_digit c = true) m).
  { apply Forall_app. split; [apply zeros_digits | apply digits_of_N_digits]. }
  assert (Hv : digits_value m = n).
  { unfold m. now rewrite digits_value_app, digits_value_zeros, digits_of_N_value. }
  assert (Hk : (3 <= length m)%nat).
  { unfold m. rewrite length_app, repeat_length. lia. }
  pose proof (firstn_skipn (length m - 2) m) as Hsplit.
  assert (Hf : Forall (fun c => is_digit c = true) (firstn (length m - 2) m)).
  { rewrite <- Hsplit in Hm. now apply Forall_app in Hm. }
  assert (Hs : Forall (fun c => is_digit c = true) (skipn (length m - 2) m)).
  { rewrite <- Hsplit in Hm. now apply Forall_app in Hm. }
  assert (Hl : length (skipn (length m - 2) m) = 2%nat) by (rewrite length_skipn; lia).
  assert (Hlf : length (firstn (length m - 2) m) = (length m - 2)%nat)
    by (rewrite length_firstn; lia).
  destruct (firstn (length m - 2) m) as [|c ip] eqn:Ef.
  { cbn [length] in Hlf. lia. }
  exists c, (ip ++ "."%char :: skipn (length m - 2) m).
  split; [reflexivity|]. split; [now inversion Hf|].
  change (c :: ip ++ "."%char :: skipn (length m - 2) m)
    with ((c :: ip) ++ "."%char :: skipn (length m - 2) m).
  rewrite <- (app_nil_r (skipn (length m - 2) m)) at 1.
  rewrite (parse_unsigned_frac c ip _ [] Hf Hs I), Hsplit, Hv, Hl. reflexivity.
Qed.

(** What is read of a layout of the digits [s] scaled by [10^p]: a text
    that starts with a digit and has the value [s * 10^p]. *)
Lemma parse_layout (s : N) (p : Z) :
  exists c l q,
    layout s p = c :: l /\ is_digit c = true /\
    parse_unsigned (c :: l) = Some (Some q) /\ q == decimal s p.
Proof.
  unfold layout.
  destruct (digits_of_N_cons s) as (d & rest & E & Hd).
  pose proof (digits_of_N_digits s) as Hds.
  pose proof (digits_of_N_value s) as Hv.
  rewrite E in *. clear E.
  set (ds := d :: rest) in *.
  set (k := Z.of_nat (length ds)).
  assert (Hk : k = (1 + Z.of_nat (length rest))%Z) by (unfold k, ds; cbn [length]; lia).
  set (n := (k + p)%Z).
  destruct ((k <=? n)%Z && (n <=? 21)%Z) eqn:CA.
  { (* digits followed by zeros *)
    apply andb_true_iff in CA as [H1 _]. apply Z.leb_le in H1.
    exists d, (rest ++ repeat "0"%char (Z.to_nat (n - k))),
      (decimal (digits_value (ds ++ repeat "0"%char (Z.to_nat (n - k)))) 0).
    split; [reflexivity|]. split; [exact Hd|]. split.
    - change (d :: rest ++ ?z) with ((d :: rest) ++ z).
      rewrite <- (app_nil_r ((d :: rest) ++ _)).
      change ((d :: rest) ++ ?z) with (d :: (rest ++ z)).
      apply (parse_unsigned_int d _ []); [|exact I|exact I].
      change (d :: rest ++ ?z) with (ds ++ z).
      apply Forall_app. split; [exact Hds | apply zeros_digits].
    - rewrite digits_value_app, digits_value_zeros, repeat_length, Hv, N.add_0_r.
      replace (N.of_nat (Z.to_nat (n - k))) with (Z.to_N p) by (unfold n; lia).
      apply decimal_zeros. unfold n in H1. lia. }
  destruct ((0 <? n)%Z && (n <=? 21)%Z) eqn:CB.
  { (* a point inside the digits *)
    apply andb_true_iff in CB as [H1 H2]. apply Z.ltb_lt in H1.
    assert (Hnk : (n < k)%Z).
    { apply andb_false_iff in CA as [CA|CA]; [apply Z.leb_gt in CA; lia | congruence]. }
    destruct (Z.to_nat n) as [|j] eqn:Ej; [lia|].
    pose proof (firstn_skipn j rest) as Hsplit.
    assert (Hf : Forall (fun c => is_digit c = true) (d :: firstn j rest)).
    { inversion Hds; subst. constructor; [assumption|].
      rewrite <- Hsplit in H4. now apply Forall_app in H4. }
    assert (Hs : Forall (fun c => is_digit c = true) (skipn j rest)).
    { inversion Hds; subst. rewrite <- Hsplit in H4. now apply Forall_app in H4. }
    exists d, (firstn j rest ++ "."%char :: skipn j rest),
      (decimal (digits_value ((d :: firstn j rest) ++ skipn j rest))
               (parse_exponent [] - Z.of_nat (length (skipn j rest)))).
    split; [reflexivity|]. split; [exact Hd|]. split.
    - change (d :: firstn j rest ++ ?z) with ((d :: firstn j rest) ++ z).
      rewrite <- (app_nil_r (skipn j rest)) at 1.
      apply (parse_unsigned_frac d _ _ [] Hf Hs I).
    - change ((d :: firstn j rest) ++ skipn j rest) with (d :: (firstn j rest ++ skipn j rest)).
      rewrite Hsplit. fold ds. rewrite Hv, length_skipn.
      replace (parse_exponent [] - Z.of_nat (length rest - j))%Z with p; [reflexivity|].
      cbn [parse_exponent]. unfold n in *. lia. }
  destruct ((-6 <? n)%Z && (n <=? 0)%Z) eqn:CC.
  { (* zeros between the point and the digits *)
    apply andb_true_iff in CC as [_ H2]. apply Z.leb_le in H2.
    set (z := repeat "0"%char (Z.to_nat (- n))).
    exists "0"%char, ("."%char :: z ++ ds),
      (decimal (digits_value (["0"%char] ++ z ++ ds))
               (parse_exponent [] - Z.of_nat (length (z ++ ds)))).
    split; [reflexivity|]. split; [reflexivity|]. split.
    - change ("0"%char :: "."%char :: z ++ ds) with (["0"%char] ++ "."%char :: z ++ ds).
      rewrite <- (app_nil_r (z ++ ds)) at 1.
      apply (parse_unsigned_frac "0" [] _ []); [repeat constructor| |exact I].
      apply Forall_app. split; [apply zeros_digits | exact Hds].
    - change (["0"%char] ++ z ++ ds) with (repeat "0"%char (S (Z.to_nat (- n))) ++ ds).
      rewrite digits_value_app, digits_value_zeros, Hv, N.mul_0_l, N.add_0_l.
      rewrite length_app. unfold z. rewrite repeat_length.
      replace (parse_exponent [] - Z.of_nat (Z.to_nat (- n) + length ds))%Z with p;
        [reflexivity|].
      cbn [parse_exponent]. fold k. unfold n in *. lia. }
  (* exponential notation *)
  destruct rest as [|c2 rest'].
  - exists d, (exponent_part (n - 1)),
      (decimal (digits_value [d]) (parse_exponent (exponent_part (n - 1)))).
    split; [reflexivity|]. split; [exact Hd|]. split.
    + apply (parse_unsigned_int d [] (exponent_part (n - 1)) Hds); reflexivity.
    + fold ds. rewrite Hv, parse_exponent_part.
      replace (n - 1)%Z with p; [reflexivity|]. unfold n. cbn [length] in Hk. lia.
  - exists d, ("."%char :: (c2 :: rest') ++ exponent_part (n - 1)),
      (decimal (digits_value ([d] ++ c2 :: rest'))
               (parse_exponent (exponent_part (n - 1)) - Z.of_nat (length (c2 :: rest')))).
    split; [reflexivity|]. split; [exact Hd|]. split.
    + apply (parse_unsigned_frac d [] (c2 :: rest') (exponent_part (n - 1)));
        [now inversion Hds; repeat constructor | now inversion Hds | reflexivity].
    + change ([d] ++ c2 :: rest') with ds. rewrite Hv, parse_exponent_part.
      replace (n - 1 - Z.of_nat (length (c2 :: rest')))%Z with p; [reflexivity|].
      unfold n. lia.
Qed.

(** ** The digits chosen for a number read back as the number *)

Lemma find_short_sound (fuel : nat) : forall k x q n0 s p,
  find_short fuel k x q n0 = Some (s, p) -> Num.of_Q (decimal s p) = x.
Proof.
  induction fuel as [|fuel IH]; intros k x q n0 s p; cbn [find_short]; [discriminate|].
  set (p0 := (n0 - k)%Z). set (lo := Z.to_N (Qfloor (q * pow10 (- p0)))).
  destruct (PrimFloat.Leibniz.eqb (Num.of_Q (decimal lo p0)) x) eqn:Hlo;
    destruct (PrimFloat.Leibniz.eqb (Num.of_Q (decimal (lo + 1) p0)) x) eqn:Hhi;
    cbn [andb];
    try apply FloatAxioms.Leibniz.eqb_spec in Hlo;
    try apply FloatAxioms.Leibniz.eqb_spec in Hhi.
  - destruct (Qle_bool _ _); intros [= <- <-]; assumption.
  - intros [= <- <-]; assumption.
  - intros [= <- <-]; assumption.
  - apply IH.
Qed.

Lemma strip_zeros_value (fuel : nat) : forall s p s' p',
  strip_zeros fuel s p = (s', p') -> decimal s' p' == decimal s p.
Proof.
  induction fuel as [|fuel IH]; intros s p s' p'; cbn [strip_zeros].
  - intros [= <- <-]. reflexivity.
  - destruct ((0 <? s)%N && (s mod 10 =? 0)%N) eqn:Hc.
    + apply andb_true_iff in Hc as [_ Hc]. apply N.eqb_eq in Hc.
      intros H. rewrite (IH _ _ _ _ H). now apply decimal_strip.
    + intros [= <- <-]. reflexivity.
Qed.

Lemma exact_decimal_value (m : positive) (e : Z) (s : N) (p : Z) :
  exact_decimal m e = (s, p) ->
  decimal s p ==
    (if (0 <=? e)%Z then inject_Z (Zpos m * 2 ^ e) else (Zpos m # Pos.pow 2 (Z.to_pos (- e)))).
Proof.
  unfold exact_decimal. destruct (Z.leb_spec 0 e) as [He|He]; intros [= <- <-].
  - unfold decimal. rewrite Z2N.id by (apply Z.mul_nonneg_nonneg; [lia | apply Z.pow_nonneg; lia]).
    change (pow10 0) with (inject_Z 1). rewrite <- inject_Z_mult. now rewrite Z.mul_1_r.
  - assert (H5 : (0 < 5 ^ (- e))%Z) by (apply Z.pow_pos_nonneg; lia).
    assert (H10 : (0 < 10 ^ (- e))%Z) by (apply Z.pow_pos_nonneg; lia).
    assert (H2 : (0 < 2 ^ (- e))%Z) by (apply Z.pow_pos_nonneg; lia).
    unfold decimal, pow10. destruct (Z.leb_spec 0 e) as [|_]; [lia|].
    rewrite Z2N.id by lia.
    unfold Qeq, Qmult, inject_Z. cbn [Qnum Qden].
    rewrite Pos2Z.inj_pow, !Z2Pos.id by lia. rewrite Pos.mul_1_l, Z2Pos.id by lia.
    change 10%Z with (2 * 5)%Z. rewrite Z.pow_mul_l. ring.
Qed.

Lemma shortest_reads_back (x : float) (m : positive) (e : Z) (s : N) (p : Z) :
  Prim2SF x = S754_finite false m e ->
  shortest x m e = (s, p) ->
  Num.of_Q (decimal s p) = x.
Proof.
  intros Hx. unfold shortest.
  set (q := if (0 <=? e)%Z then inject_Z (Zpos m * 2 ^ e)
            else (Zpos m # Pos.pow 2 (Z.to_pos (- e)))).
  destruct (match find_short 17 1 x q (decimal_exponent q) with
            | Some r => r
            | None => exact_decimal m e
            end) as [s0 p0] eqn:Hsel.
  intros Hstrip. apply strip_zeros_value in Hstrip. rewrite (of_Q_eq _ _ Hstrip).
  destruct (find_short 17 1 x q (decimal_exponent q)) as [[s1 p1]|] eqn:Hfind.
  - injection Hsel as <- <-. exact (find_short_sound _ _ _ _ _ _ _ Hfind).
  - apply exact_decimal_value in Hsel. exact (of_Q_to_Q x m e _ Hx Hsel).
Qed.

Lemma float_of_spec (x : float) (y : spec_float) : Prim2SF x = y -> x = SF2Prim y.
Proof. intros <-. symmetry. apply SF2Prim_Prim2SF. Qed.

(** ** Two decimals *)

(** A finite number of 10^21 or more is an integer, so rounding it to two
    decimals leaves it as it is. *)
Lemma round_big (x : float) (m : positive) (e : Z) :
  Prim2SF x = S754_finite false m e ->
  (inject_Z (10 ^ 21) <= value_of m e)%Q ->
  Num.of_Q (half_up_hundredths (value_of m e)) = x.
Proof.
  intros Hx Hbig.
  pose proof (Prim2SF_valid x) as Hv. rewrite Hx in Hv. cbn in Hv.
  destruct (bounded_spec _ _ Hv) as (_ & _ & Hm).
  unfold value_of in *. destruct (Z.leb_spec 0 e) as [He|He].
  - apply (of_Q_to_Q x m e _ Hx). apply Z.leb_le in He. rewrite He.
    unfold half_up_hundredths, Qfloor, Qmult, Qplus, inject_Z, Qeq. cbn [Qnum Qden].
    set (v := (Zpos m * 2 ^ e)%Z).
    change (Z.pos (1 * 1)) with 1%Z. change (Z.pos (1 * 1 * 2)) with 2%Z.
    rewrite <- (Z.div_unique (v * 100 * 2 + 1 * 1) 2 (v * 100) 1) by lia. lia.
  - exfalso. revert Hbig. unfold Qle, inject_Z. cbn [Qnum Qden].
    assert (H2 : (0 < 2 ^ (- e))%Z) by (apply Z.pow_pos_nonneg; lia).
    rewrite Pos2Z.inj_pow, Z2Pos.id by lia.
    assert (2 ^ 53 < 10 ^ 21)%Z by reflexivity. nia.
Qed.

Lemma SF2Prim_opp_round (n d : positive) :
  SF2Prim (SFopp (Num.round_pos n d)) = (- SF2Prim (Num.round_pos n d))%float.
Proof.
  unfold Num.round_pos.
  set (e := Z.max _ _). set (m := if _ && _ then _ else _).
  destruct (if (m =? 2 ^ 53)%Z then _ else _) as [m' e'].
  destruct m' as [|p|p]; try reflexivity.
  destruct (e' <=? 971)%Z; reflexivity.
Qed.

Lemma of_Q_opp (q : Q) : (0 < q)%Q -> Num.of_Q (- q) = (- Num.of_Q q)%float.
Proof.
  intros Hq. unfold Num.of_Q. rewrite Qred_opp.
  assert (Hr : (0 < Qred q)%Q) by (now rewrite Qred_correct).
  destruct (Qred q) as [rn rd]. unfold Qlt in Hr. cbn in Hr.
  destruct rn as [|rn|rn]; try lia. cbn [Qopp Qnum Qden Z.opp].
  apply SF2Prim_opp_round.
Qed.

Lemma decimal_nonneg (s : N) (p : Z) : (0 <= decimal s p)%Q.
Proof.
  unfold decimal, pow10. apply Qmult_le_0_compat.
  - unfold Qle, inject_Z. cbn. lia.
  - destruct (0 <=? p)%Z.
    + unfold Qle, inject_Z. cbn [Qnum Qden]. assert (0 <= 10 ^ p)%Z by (apply Z.pow_nonneg; lia). lia.
    + unfold Qle. cbn. lia.
Qed.

(** [parseFloat] on a minus sign followed by a text that starts with a
    digit. *)
Lemma parseFloat_minus (c : ascii) (l : list ascii) (q : Q) :
  is_digit c = true ->
  parse_unsigned (c :: l) = Some (Some q) ->
  (0 <= q)%Q ->
  parseFloat (str ("-"%char :: c :: l)) = (- Num.of_Q q)%float.
Proof.
  intros Hc Hp Hq. unfold parseFloat. rewrite chars_str.
  rewrite (drop_while_head is_space "-" _ eq_refl). cbn [Ascii.eqb Bool.eqb]. rewrite Hp.
  destruct (Qeq_bool q 0) eqn:Hz.
  - apply Qeq_bool_eq in Hz. now rewrite (of_Q_eq _ _ Hz).
  - apply of_Q_opp. apply Qeq_bool_neq in Hz. lra.
Qed.

Lemma reads_as_plain (t : list ascii) (y : float) :
  reads_as t y -> parseFloat (str t) = y.
Proof. intros (c & l & q & -> & Hc & Hp & _ & <-). now apply parseFloat_digit. Qed.

Lemma reads_as_minus (t : list ascii) (y : float) :
  reads_as t y -> parseFloat (str ("-"%char :: t)) = (- y)%float.
Proof. intros (c & l & q & -> & Hc & Hp & Hq & <-). now apply parseFloat_minus. Qed.

Lemma layout_reads (x : float) (m : positive) (e : Z) (s : N) (p : Z) :
  Prim2SF x = S754_finite false m e ->
  shortest x m e = (s, p) ->
  reads_as (layout s p) x.
Proof.
  intros Hx Hsh. destruct (parse_layout s p) as (c & l & q & E & Hc & Hp & Hq).
  exists c, l, q. repeat split; try assumption.
  - rewrite Hq. apply decimal_nonneg.
  - rewrite (of_Q_eq _ _ Hq). exact (shortest_reads_back x m e s p Hx Hsh).
Qed.

Lemma abs_finite (x : float) (sg : bool) (m : positive) (e : Z) :
  Prim2SF x = S754_finite sg m e -> Prim2SF (abs x) = S754_finite false m e.
Proof. intros H. now rewrite abs_spec, H. Qed.

Lemma opp_abs_negative (x : float) (m : positive) (e : Z) :
  Prim2SF x = S754_finite true m e -> (- abs x)%float = x.
Proof. intros H. apply Prim2SF_inj. now rewrite opp_spec, abs_spec, H. Qed.

Lemma abs_positive (x : float) (m : positive) (e : Z) :
  Prim2SF x = S754_finite false m e -> abs x = x.
Proof. intros H. apply Prim2SF_inj. now rewrite abs_spec, H. Qed.

(** [parseFloat] reads the text of a number back as the number, except
    that the text of -0 is ["0"]. *)
Lemma parseFloat_toString (x : float) :
  Prim2SF x <> S754_zero true -> parseFloat (Number_toString x) = x.
Proof.
  intros Hnz. unfold Number_toString, Number_toString_chars.
  destruct (Prim2SF x) as [sg|sg| |sg m e] eqn:Hx.
  - destruct sg; [contradiction|]. rewrite (float_of_spec _ _ Hx). reflexivity.
  - rewrite (float_of_spec _ _ Hx). destruct sg; reflexivity.
  - rewrite (float_of_spec _ _ Hx). reflexivity.
  - destruct (shortest (abs x) m e) as [s p] eqn:Hsh.
    pose proof (layout_reads (abs x) m e s p (abs_finite _ _ _ _ Hx) Hsh) as Hr.
    destruct sg.
    + rewrite (reads_as_minus _ _ Hr). exact (opp_abs_negative _ _ _ Hx).
    + rewrite (reads_as_plain _ _ Hr). exact (abs_positive _ _ _ Hx).
Qed.

Lemma value_of_pos (m : positive) (e : Z) : (0 < value_of m e)%Q.
Proof.
  unfold value_of. destruct (Z.leb_spec 0 e) as [He|He].
  - unfold Qlt, inject_Z. cbn [Qnum Qden].
    assert (0 < 2 ^ e)%Z by (apply Z.pow_pos_nonneg; lia). nia.
  - unfold Qlt. cbn [Qnum Qden]. lia.
Qed.

(** The two-decimal text of a positive finite number. *)
Lemma toFixed2_reads (x : float) (m : positive) (e : Z) :
  Prim2SF x = S754_finite false m e ->
  reads_as (toFixed2_chars x) (Num.of_Q (half_up_hundredths (value_of m e))).
Proof.
  intros Hx. unfold toFixed2_chars, Num.to_Q. rewrite Hx. fold (value_of m e).
  pose proof (value_of_pos m e) as Hpos.
  assert (Hq0 : Qle_bool 0 (value_of m e) = true) by (apply Qle_bool_iff; lra).
  unfold Qlt_bool. rewrite Hq0. cbn [negb].
  destruct (Qle_bool (inject_Z (10 ^ 21)) (value_of m e)) eqn:Hbig.
  - apply Qle_bool_iff in Hbig.
    assert (Hr : Num.of_Q (half_up_hundredths (value_of m e)) = x).
    { exact (round_big x m e Hx Hbig). }
    rewrite Hr, (abs_positive _ _ _ Hx).
    unfold Number_toString_chars. rewrite Hx, (abs_positive _ _ _ Hx).
    destruct (shortest x m e) as [s p] eqn:Hsh. exact (layout_reads x m e s p Hx Hsh).
  - assert (Hn : (0 <= nearest_hundredth (value_of m e))%Z).
    { unfold nearest_hundredth. change 0%Z with (Qfloor 0). apply Qfloor_resp_le. lra. }
    destruct (parse_fixed_digits (Z.to_N (nearest_hundredth (value_of m e))))
      as (c & l & -> & Hc & Hp).
    exists c, l, (decimal (Z.to_N (nearest_hundredth (value_of m e))) (-2)).
    repeat split; try assumption; [apply decimal_nonneg|].
    apply of_Q_eq. now apply decimal_hundredths.
Qed.

(** [parseFloat(x.toFixed(2))] is [x] rounded to 2 decimal places. *)
Lemma parseFloat_toFixed2 (x : float) : parseFloat (toFixed2 x) = round2 x.
Proof.
  unfold toFixed2, round2.
  destruct (Prim2SF x) as [sg|sg| |sg m e] eqn:Hx.
  - unfold toFixed2_chars, Num.to_Q. rewrite Hx. reflexivity.
  - unfold toFixed2_chars, Num.to_Q. rewrite Hx.
    apply parseFloat_toString. rewrite Hx. discriminate.
  - unfold toFixed2_chars, Num.to_Q. rewrite Hx.
    apply parseFloat_toString. rewrite Hx. discriminate.
  - pose proof (value_of_pos m e) as Hpos. destruct sg.
    + pose proof (toFixed2_reads (abs x) m e (abs_finite _ _ _ _ Hx)) as Hr.
      assert (Hopp : (- - value_of m e)%Q = value_of m e).
      { destruct (value_of m e) as [a b]. unfold Qopp. cbn [Qnum Qden].
        now rewrite Z.opp_involutive. }
      assert (H1 : Qle_bool 0 (- value_of m e) = false).
      { apply not_true_is_false. intros H. apply Qle_bool_iff in H. lra. }
      assert (H2 : Qle_bool 0 (value_of m e) = true) by (apply Qle_bool_iff; lra).
      assert (Hc : toFixed2_chars x = "-"%char :: toFixed2_chars (abs x)).
      { unfold toFixed2_chars, Num.to_Q.
        rewrite (abs_finite _ _ _ _ Hx), Hx. fold (value_of m e).
        unfold Qlt_bool. rewrite H1, H2. cbn [negb]. rewrite Hopp.
        rewrite (abs_positive _ _ _ (abs_finite _ _ _ _ Hx)). reflexivity. }
      rewrite Hc, (reads_as_minus _ _ Hr).
      unfold Num.to_Q. rewrite Hx. fold (value_of m e).
      now rewrite H1, Hopp.
    + rewrite (reads_as_plain _ _ (toFixed2_reads x m e Hx)).
      unfold Num.to_Q. rewrite Hx. fold (value_of m e).
      assert (Hq0 : Qle_bool 0 (value_of m e) = true) by (apply Qle_bool_iff; lra).
      now rewrite Hq0.
Qed.

(** The runtime model on values whose texts are known: the nearest
    binary64 value of a decimal, the shortest text of a number, and the
    two-decimal text, which rounds the stored value half up. *)
Example number_of_decimal :
  Num.of_Q (1153 # 100) = 11.53%float /\
  Num.of_Q (1 # 3) = (1 / 3)%float /\
  Num.of_Q (inject_Z (2 ^ 53 + 1)) = 9007199254740992%float /\
  parseFloat "1.7976931348623159e308" = infinity /\
  parseFloat "  -12.25e2kg" = (-1225)%float /\
  is_nan (parseFloat "kg") = true.
Proof. conj_by_computation. Qed.

Example text_of_number :
  Number_toString 1e21 = "1e+21" /\
  Number_toString 115.30000000000001 = "115.30000000000001" /\
  Number_toString 0.000001 = "0.000001" /\
  Number_toString 1e-7 = "1e-7" /\
  Number_toString (-1.5) = "-1.5".
Proof. conj_by_computation. Qed.

Example two_decimals :
  toFixed2 1.005 = "1.00" /\
  toFixed2 0.125 = "0.13" /\
  toFixed2 10.235 = "10.23" /\
  toFixed2 (10 * 11.53) = "115.30" /\
  toFixed2 (-0.004) = "-0.00" /\
  toFixed2 1e21 = "1e+21".
Proof. conj_by_computation. Qed.

End ConvFacts.
(** * Rounding to the nearest number *)

Module Rounding.
Import Spec Aux NumFacts.
Local Open Scope Z_scope.

(** The significand and exponent [round_pos] arrives at belong to the format. *)
Lemma round_pos_valid (n d : positive) : valid_binary (Num.round_pos n d) = true.
Proof.
  unfold Num.round_pos.
  set (a := Zpos n * 2 ^ 1075).
  set (t := a / Zpos d).
  set (e := Z.max (Z.log2 t - 1075 - 52) (-1074)).
  set (b := Zpos d * 2 ^ (e + 1074)).
  set (q2 := a / b).
  set (q := q2 / 2).
  set (up := Z.odd q2 && _).
  set (m := if up then q + 1 else q).
  assert (Ha : 0 < a) by (subst a; apply Z.mul_pos_pos; [lia | reflexivity]).
  assert (He : -1074 <= e) by (subst e; lia).
  assert (Hp : 0 < 2 ^ (e + 1074)) by (apply Z.pow_pos_nonneg; lia).
  assert (Hb : 0 < b) by (subst b; lia).
  assert (Ht : 0 <= t) by (subst t; apply Z.div_pos; lia).
  assert (Hq2t : q2 = t / 2 ^ (e + 1074)).
  { subst q2 b t. now rewrite Z.div_div by lia. }
  assert (Hq2 : 0 <= q2) by (subst q2; apply Z.div_pos; lia).
  assert (Hq : 0 <= q /\ 2 * q <= q2 < 2 * q + 2).
  { subst q. pose proof (Z.div_mod q2 2 ltac:(lia)). pose proof (Z.mod_pos_bound q2 2 ltac:(lia)).
    split; [apply Z.div_pos; lia | lia]. }
  assert (Hm : q <= m <= q + 1) by (subst m; destruct up; lia).
  (* the two regimes *)
  assert (Hrange : (e = -1074 /\ q2 < 2 ^ 53) \/ 2 ^ 53 <= q2 < 2 ^ 54).
  { destruct (Z.eq_dec t 0) as [Ht0|Ht0].
    - left. subst e. rewrite Ht0. cbn. split; [reflexivity|]. rewrite Hq2t, Ht0. cbn. reflexivity.
    - assert (Htpos : 0 < t) by lia.
      destruct (Z.log2_spec t Htpos) as [Hlo Hhi].
      destruct (Z_lt_ge_dec (Z.log2 t - 1075 - 52) (-1074)) as [Hsmall|Hbig].
      + left. assert (e = -1074) by (subst e; apply Z.max_r; clear - Hsmall; lia). split; [assumption|].
        rewrite Hq2t. replace (e + 1074) with 0 by lia. rewrite Z.pow_0_r, Z.div_1_r.
        eapply Z.lt_le_trans; [exact Hhi|]. apply Z.pow_le_mono_r; clear - Hsmall; lia.
      + right. assert (Hee : e = Z.log2 t - 1075 - 52) by (subst e; apply Z.max_l; clear - Hbig; lia).
        rewrite Hq2t.
        replace (e + 1074) with (Z.log2 t - 53) by lia.
        assert (Hk : 0 <= Z.log2 t - 53) by lia.
        assert (Hpk : 0 < 2 ^ (Z.log2 t - 53)) by (apply Z.pow_pos_nonneg; lia).
        split.
        * apply Z.div_le_lower_bound; [lia|].
          rewrite <- Z.pow_add_r by lia. replace (Z.log2 t - 53 + 53) with (Z.log2 t) by lia. exact Hlo.
        * apply Z.div_lt_upper_bound; [lia|].
          rewrite <- Z.pow_add_r by lia. replace (Z.log2 t - 53 + 54) with (Z.succ (Z.log2 t)) by lia.
          exact Hhi. }
  change (2 ^ 53) with 9007199254740992 in *.
  change (2 ^ 54) with 18014398509481984 in *.
  change (2 ^ 52) with 4503599627370496 in *.
  destruct (Z.eqb_spec m 9007199254740992) as [Hm53|Hm53].
  - (* carried into the next binade *)
    destruct (Z.leb_spec (e + 1) 971) as [Hle|Hgt]; [|reflexivity].
    cbn [valid_binary]. unfold bounded, canonical_mantissa, fexp, SpecFloat.emin, prec, emax.
    apply andb_true_iff. split; [apply Z.eqb_eq | apply Z.leb_le; lia].
    change (Zpos (digits2_pos 4503599627370496)) with 53. lia.
  - destruct m as [|p|p] eqn:Hmp; [reflexivity| |reflexivity].
    destruct (Z.leb_spec e 971) as [Hle|Hgt]; [|reflexivity].
    cbn [valid_binary]. unfold bounded, canonical_mantissa, fexp, SpecFloat.emin, prec, emax.
    apply andb_true_iff. split; [apply Z.eqb_eq | apply Z.leb_le; lia].
    rewrite digits2_pos_log2.
    destruct Hrange as [[He0 Hs]|[Hlo Hhi]].
    + assert (Zpos p < 9007199254740992) by lia.
      assert (Z.log2 (Zpos p) < 53) by (apply Z.log2_lt_pow2; [lia|]; exact H).
      lia.
    + assert (Hpl : 4503599627370496 <= Zpos p) by lia.
      assert (Hpu : Zpos p < 9007199254740992) by lia.
      assert (52 <= Z.log2 (Zpos p)) by (apply Z.log2_le_pow2; [lia|]; exact Hpl).
      assert (Z.log2 (Zpos p) < 53) by (apply Z.log2_lt_pow2; [lia|]; exact Hpu).
      lia.
Qed.


(** What [round_pos] arrives at for [n / d]: a significand [m] and an
    exponent [e] such that [m * 2^e] is a multiple of [2^e] nearest to
    [n / d], where [n / d] is at least [2^(e + 52)] unless [e] is the
    least exponent. All is stated on integers, scaled by [2^1074 * d]. *)
Lemma round_pos_grid (n d : positive) :
  exists m e : Z,
    -1074 <= e /\ 0 <= m <= 2 ^ 53 /\
    (forall j : Z,
       Z.abs (m * (2 ^ (e + 1074) * Zpos d) - Zpos n * 2 ^ 1074) <=
       Z.abs (j * (2 ^ (e + 1074) * Zpos d) - Zpos n * 2 ^ 1074)) /\
    (e = -1074 \/ 2 ^ 52 * (2 ^ (e + 1074) * Zpos d) <= Zpos n * 2 ^ 1074) /\
    (Zpos n < 2 ^ 1000 * Zpos d -> e <= 950) /\
    Num.round_pos n d =
      (let '(m', e') := if m =? 2 ^ 53 then (2 ^ 52, e + 1) else (m, e) in
       match m' with
       | Zpos p => if e' <=? 971 then S754_finite false p e' else S754_infinity false
       | _ => S754_zero false
       end).
Proof.
  unfold Num.round_pos.
  set (a := Zpos n * 2 ^ 1075).
  set (t := a / Zpos d).
  set (e := Z.max (Z.log2 t - 1075 - 52) (-1074)).
  set (b := Zpos d * 2 ^ (e + 1074)).
  set (q2 := a / b).
  set (ex := a mod b =? 0).
  set (q := q2 / 2).
  set (up := Z.odd q2 && (negb ex || Z.odd q)).
  set (m := if up then q + 1 else q).
  exists m, e.
  assert (Ha : 0 < a) by (subst a; apply Z.mul_pos_pos; [lia | reflexivity]).
  assert (HaA : a = 2 * (Zpos n * 2 ^ 1074)).
  { subst a. change (2 ^ 1075) with (2 * 2 ^ 1074). ring. }
  assert (He : -1074 <= e) by (subst e; lia).
  assert (Hp : 0 < 2 ^ (e + 1074)) by (apply Z.pow_pos_nonneg; lia).
  assert (Hb : 0 < b) by (subst b; lia).
  assert (Hbg : 2 ^ (e + 1074) * Zpos d = b) by (subst b; ring).
  assert (Ht : 0 <= t) by (subst t; apply Z.div_pos; lia).
  assert (Hq2t : q2 = t / 2 ^ (e + 1074)).
  { subst q2 b t. now rewrite Z.div_div by lia. }
  assert (Hq2 : 0 <= q2) by (subst q2; apply Z.div_pos; lia).
  pose proof (Z.div_mod a b ltac:(lia)) as Hdiv. fold q2 in Hdiv.
  pose proof (Z.mod_pos_bound a b Hb) as Hrho.
  set (rho := a mod b) in *.
  pose proof (Z.div_mod q2 2 ltac:(lia)) as Hdiv2. fold q in Hdiv2.
  pose proof (Z.mod_pos_bound q2 2 ltac:(lia)) as Hbeta.
  assert (Hodd : Z.odd q2 = (q2 mod 2 =? 1)).
  { rewrite Zmod_odd. now destruct (Z.odd q2). }
  assert (Hq : 0 <= q) by (subst q; apply Z.div_pos; lia).
  assert (Hrange : (e = -1074 /\ q2 < 2 ^ 53) \/ 2 ^ 53 <= q2 < 2 ^ 54).
  { destruct (Z.eq_dec t 0) as [Ht0|Ht0].
    - left. subst e. rewrite Ht0. cbn. split; [reflexivity|]. rewrite Hq2t, Ht0. cbn. reflexivity.
    - assert (Htpos : 0 < t) by lia.
      destruct (Z.log2_spec t Htpos) as [Hlo Hhi].
      destruct (Z_lt_ge_dec (Z.log2 t - 1075 - 52) (-1074)) as [Hsmall|Hbig].
      + left. assert (e = -1074) by (subst e; apply Z.max_r; clear - Hsmall; lia).
        split; [assumption|].
        rewrite Hq2t. replace (e + 1074) with 0 by lia. rewrite Z.pow_0_r, Z.div_1_r.
        eapply Z.lt_le_trans; [exact Hhi|]. apply Z.pow_le_mono_r; clear - Hsmall; lia.
      + right. assert (Hee : e = Z.log2 t - 1075 - 52) by (subst e; apply Z.max_l; clear - Hbig; lia).
        rewrite Hq2t.
        replace (e + 1074) with (Z.log2 t - 53) by lia.
        assert (Hk : 0 <= Z.log2 t - 53) by lia.
        assert (Hpk : 0 < 2 ^ (Z.log2 t - 53)) by (apply Z.pow_pos_nonneg; lia).
        split.
        * apply Z.div_le_lower_bound; [lia|].
          rewrite <- Z.pow_add_r by lia. replace (Z.log2 t - 53 + 53) with (Z.log2 t) by lia.
          exact Hlo.
        * apply Z.div_lt_upper_bound; [lia|].
          rewrite <- Z.pow_add_r by lia.
          replace (Z.log2 t - 53 + 54) with (Z.succ (Z.log2 t)) by lia.
          exact Hhi. }
  change (2 ^ 53) with 9007199254740992 in *.
  change (2 ^ 54) with 18014398509481984 in *.
  change (2 ^ 52) with 4503599627370496 in *.
  assert (Hm : q <= m <= q + 1) by (subst m; destruct up; lia).
  split; [exact He|]. split; [lia|]. split; [|split; [|split; [|reflexivity]]].
  - (* nearest on the grid *)
    intros j. rewrite Hbg.
    set (A := Zpos n * 2 ^ 1074) in *.
    assert (Hk : (j - q) * b <= 0 \/ b <= (j - q) * b).
    { destruct (Z_le_gt_dec j q) as [Hle|Hgt].
      - left. apply Z.mul_nonpos_nonneg; lia.
      - right. rewrite <- (Z.mul_1_l b) at 1. apply Z.mul_le_mono_nonneg_r; lia. }
    assert (Hjb : (j - q) * b = j * b - q * b) by ring.
    assert (Hq2b : q2 * b = 2 * (q * b) + (q2 mod 2) * b) by (rewrite Hdiv2 at 1; ring).
    assert (Hmb : m * b = q * b + (if up then b else 0)) by (subst m; destruct up; ring).
    assert (Hup : up = true -> q2 mod 2 = 1).
    { subst up. intros H. apply andb_true_iff in H as [H _]. rewrite Hodd in H.
      now apply Z.eqb_eq in H. }
    assert (Hdown : up = false -> q2 mod 2 = 0 \/ (q2 mod 2 = 1 /\ rho = 0)).
    { subst up. intros H. apply andb_false_iff in H as [H|H].
      - left. rewrite Hodd in H. apply Z.eqb_neq in H. lia.
      - apply orb_false_iff in H as [H _]. apply negb_false_iff in H.
        subst ex. apply Z.eqb_eq in H. lia. }
    rewrite (Z.mul_comm b q2) in Hdiv.
    set (jb := j * b) in *. set (qb := q * b) in *. set (mb := m * b) in *.
    set (q2b := q2 * b) in *. clearbody jb qb mb q2b.
    destruct up.
    + specialize (Hup eq_refl). rewrite Hup in Hq2b. lia.
    + destruct (Hdown eq_refl) as [H0|[H1 Hr]].
      * rewrite H0 in Hq2b. lia.
      * rewrite H1 in Hq2b. lia.
  - (* the number is at least 2^(e + 52) *)
    destruct Hrange as [[He0 _]|[Hlo _]]; [now left|]. right. rewrite Hbg.
    assert (4503599627370496 * b * 2 <= q2 * b).
    { replace (4503599627370496 * b * 2) with (9007199254740992 * b) by ring.
      apply Z.mul_le_mono_nonneg_r; lia. }
    lia.
  - (* the exponent of a number below 2^1000 *)
    intros Hn.
    destruct (Z.eq_dec t 0) as [Ht0|Ht0]; [subst e; rewrite Ht0; cbn; lia|].
    assert (Htpos : 0 < t) by lia.
    assert (Htlt : t < 2 ^ 2075).
    { subst t. apply Z.div_lt_upper_bound; [lia|]. subst a.
      change (2 ^ 2075) with (2 ^ 1000 * 2 ^ 1075).
      assert (0 < 2 ^ 1075) by reflexivity. nia. }
    apply Z.log2_lt_pow2 in Htlt; [|exact Htpos]. subst e. lia.
Qed.

(** ** Values, scaled to integers *)

Local Open Scope Q_scope.

Lemma scaled_power (e : Z) :
  (-1074 <= e)%Z -> Qpower 2 e * inject_Z (2 ^ 1074) == inject_Z (2 ^ (e + 1074)).
Proof.
  intros He. rewrite (Zpower_Qpower 2 (e + 1074)) by lia.
  rewrite (Zpower_Qpower 2 1074) by lia.
  change (inject_Z 2) with 2. rewrite Qpower_plus by discriminate. reflexivity.
Qed.

(** The value of a number, times [2^1074], is an integer: 0 or below, or
    a significand below [2^53] times a power of 2. *)
Lemma exact_scaled (z : float) (u : Q) :
  exact z = Some u ->
  exists U : Z,
    u * inject_Z (2 ^ 1074) == inject_Z U /\
    ((U <= 0)%Z \/
     exists k f : Z, U = (k * 2 ^ (f + 1074))%Z /\ (0 < k < 2 ^ 53)%Z /\ (-1074 <= f)%Z).
Proof.
  unfold exact. pose proof (Prim2SF_valid z) as Hv.
  destruct (Prim2SF z) as [s|s| |s m e]; try discriminate; intros [= <-].
  - exists 0%Z. split; [ring | now left].
  - cbn in Hv. destruct (bounded_spec _ _ Hv) as (Hmax & He & Hm).
    assert (He' : (-1074 <= e)%Z) by lia.
    assert (Hp : (0 < 2 ^ (e + 1074))%Z) by (apply Z.pow_pos_nonneg; lia).
    destruct s.
    + exists (- (Zpos m * 2 ^ (e + 1074)))%Z. split; [|left; lia].
      rewrite inject_Z_opp, inject_Z_mult, <- (scaled_power e He').
      generalize (inject_Z (2 ^ 1074)) (Qpower 2 e) (inject_Z (Zpos m)). intros; ring.
    + exists (Zpos m * 2 ^ (e + 1074))%Z. split.
      * rewrite inject_Z_mult, <- (scaled_power e He').
        generalize (inject_Z (2 ^ 1074)) (Qpower 2 e) (inject_Z (Zpos m)). intros; ring.
      * right. exists (Zpos m), e. split; [reflexivity|]. split; [lia | exact He'].
Qed.

(** Distances to [n / d] compare as the scaled integers do. *)
Lemma distance_scaled (n d : positive) (v u : Q) (V U : Z) :
  v * inject_Z (2 ^ 1074) == inject_Z V ->
  u * inject_Z (2 ^ 1074) == inject_Z U ->
  (Z.abs (V * Zpos d - Zpos n * 2 ^ 1074) <= Z.abs (U * Zpos d - Zpos n * 2 ^ 1074))%Z ->
  Qabs (v - (Zpos n # d)) <= Qabs (u - (Zpos n # d)).
Proof.
  intros Hv Hu Hle.
  set (c := inject_Z (2 ^ 1074) * inject_Z (Zpos d)).
  assert (Hc : 0 < c).
  { subst c. rewrite <- inject_Z_mult. change 0 with (inject_Z 0). rewrite <- Zlt_Qlt.
    assert (0 < 2 ^ 1074)%Z by reflexivity. lia. }
  assert (Hq : (Zpos n # d) * inject_Z (Zpos d) == inject_Z (Zpos n)).
  { unfold Qeq, Qmult, inject_Z. cbn [Qnum Qden]. lia. }
  assert (Hscale : forall w W, w * inject_Z (2 ^ 1074) == inject_Z W ->
            Qabs (w - (Zpos n # d)) * c == inject_Z (Z.abs (W * Zpos d - Zpos n * 2 ^ 1074))).
  { intros w W Hw.
    rewrite <- (Qabs_pos c) at 1 by (apply Qlt_le_weak; exact Hc).
    rewrite <- Qabs_Qmult.
    assert (Heq : (w - (Zpos n # d)) * c ==
                  inject_Z (W * Zpos d - Zpos n * 2 ^ 1074)).
    { subst c. unfold Z.sub. rewrite inject_Z_plus, inject_Z_opp, !inject_Z_mult.
      rewrite <- Hw, <- Hq. ring. }
    rewrite (Qabs_wd _ _ Heq). reflexivity. }
  apply (Qmult_le_r _ _ c Hc).
  rewrite (Hscale v V Hv), (Hscale u U Hu). now rewrite <- Zle_Qle.
Qed.

(** A rational below [2^1000] is not rounded to an infinity. *)
Lemma round_pos_finite (n d : positive) :
  (Zpos n < 2 ^ 1000 * Zpos d)%Z -> Num.round_pos n d <> S754_infinity false.
Proof.
  intros Hn.
  destruct (round_pos_grid n d) as (m & e & He & Hm & _ & _ & Hbound & Heq).
  specialize (Hbound Hn). rewrite Heq.
  destruct (Z.eqb_spec m (2 ^ 53)) as [Hm53|Hm53].
  - change (2 ^ 52)%Z with (Zpos 4503599627370496).
    destruct (Z.leb_spec (e + 1) 971) as [_|Hgt]; [discriminate | lia].
  - destruct m as [|p|p]; try discriminate.
    destruct (Z.leb_spec e 971) as [_|Hgt]; [discriminate | lia].
Qed.

(** The number [round_pos] arrives at for [n / d], when it is no infinity,
    is nearest to it. *)
Lemma round_pos_nearest (n d : positive) :
  Num.round_pos n d <> S754_infinity false ->
  nearest (Zpos n # d) (SF2Prim (Num.round_pos n d)).
Proof.
  intros Hfin.
  destruct (round_pos_grid n d) as (m & e & He & Hm & Hgrid & Hbig & _ & Heq).
  assert (Hp : (0 < 2 ^ (e + 1074))%Z) by (apply Z.pow_pos_nonneg; lia).
  assert (Hv : exists v, exact (SF2Prim (Num.round_pos n d)) = Some v /\
                         v * inject_Z (2 ^ 1074) == inject_Z (m * 2 ^ (e + 1074))).
  { unfold exact. rewrite Prim2SF_SF2Prim by apply round_pos_valid.
    rewrite Heq in Hfin. rewrite Heq. revert Hfin.
    destruct (Z.eqb_spec m (2 ^ 53)) as [Hm53|Hm53].
    - change (2 ^ 52)%Z with (Zpos 4503599627370496).
      destruct (Z.leb_spec (e + 1) 971) as [Hle|Hgt]; intros Hfin; [|now destruct Hfin].
      eexists. split; [reflexivity|].
      rewrite <- Qmult_assoc, scaled_power by lia. rewrite <- inject_Z_mult, Hm53.
      replace (Zpos 4503599627370496 * 2 ^ (e + 1 + 1074))%Z
        with (2 ^ 53 * 2 ^ (e + 1074))%Z; [reflexivity|].
      replace (e + 1 + 1074)%Z with (1 + (e + 1074))%Z by lia.
      rewrite (Z.pow_add_r 2 1 (e + 1074)) by lia. change (2 ^ 1)%Z with 2%Z.
      change (2 ^ 53)%Z with 9007199254740992%Z. lia.
    - destruct m as [|p|p]; [| |lia].
      + intros _. exists 0. split; [reflexivity|]. rewrite Z.mul_0_l. ring.
      + destruct (Z.leb_spec e 971) as [Hle|Hgt]; intros Hfin; [|now destruct Hfin].
        eexists. split; [reflexivity|].
        rewrite <- Qmult_assoc, scaled_power by lia. now rewrite <- inject_Z_mult. }
  destruct Hv as (v & Hex & Hv). exists v. split; [exact Hex|].
  intros z u Hz. destruct (exact_scaled z u Hz) as (U & Hu & HU).
  apply (distance_scaled n d v u _ U Hv Hu).
  rewrite <- Z.mul_assoc.
  destruct HU as [Hneg|(k & f & -> & Hk & Hf)].
  - (* zero is on the grid and nearer than any number below it *)
    eapply Z.le_trans; [apply (Hgrid 0%Z)|].
    assert (0 < Zpos n * 2 ^ 1074)%Z by (apply Z.mul_pos_pos; [lia | reflexivity]).
    assert (U * Zpos d <= 0)%Z by (apply Z.mul_nonpos_nonneg; lia).
    lia.
  - destruct (Z_le_gt_dec e f) as [Hef|Hef].
    + (* a number on the grid *)
      replace (k * 2 ^ (f + 1074) * Zpos d)%Z
        with (k * 2 ^ (f - e) * (2 ^ (e + 1074) * Zpos d))%Z.
      * apply Hgrid.
      * replace (f + 1074)%Z with ((f - e) + (e + 1074))%Z by lia.
        rewrite (Z.pow_add_r 2 (f - e) (e + 1074)) by lia. ring.
    + (* a number below the least one of the binade *)
      destruct Hbig as [->|Hbig]; [lia|].
      eapply Z.le_trans; [apply (Hgrid (2 ^ 52)%Z)|].
      assert (Hlt : (k * 2 ^ (f + 1074) < 2 ^ 52 * 2 ^ (e + 1074))%Z).
      { assert (Hpf : (0 < 2 ^ (f + 1074))%Z) by (apply Z.pow_pos_nonneg; lia).
        replace (e + 1074)%Z with (1 + ((e - 1 - f) + (f + 1074)))%Z by lia.
        rewrite (Z.pow_add_r 2 1 (e - 1 - f + (f + 1074))) by lia.
        rewrite (Z.pow_add_r 2 (e - 1 - f) (f + 1074)) by lia.
        assert (1 <= 2 ^ (e - 1 - f))%Z
          by (pose proof (Z.pow_pos_nonneg 2 (e - 1 - f) ltac:(lia) ltac:(lia)); lia).
        change (2 ^ 1)%Z with 2%Z. change (2 ^ 53)%Z with (2 ^ 52 * 2)%Z in Hk.
        assert (0 < 2 ^ 52)%Z by reflexivity. nia. }
      assert (k * 2 ^ (f + 1074) * Zpos d < 2 ^ 52 * 2 ^ (e + 1074) * Zpos d)%Z
        by (apply Z.mul_lt_mono_pos_r; lia).
      lia.
Qed.


(** ** The numbers of rationals *)

Lemma nearest_wd (p q : Q) (y : float) : p == q -> nearest p y -> nearest q y.
Proof.
  intros Hpq (v & Hv & Hmin). exists v. split; [exact Hv|].
  intros z u Hz. specialize (Hmin z u Hz).
  rewrite <- (Qabs_wd (v - p) (v - q)), <- (Qabs_wd (u - p) (u - q));
    [exact Hmin | now rewrite Hpq | now rewrite Hpq].
Qed.

(** The number of a rational that is not below 0, when it is no infinity,
    is nearest to the rational. *)
Lemma of_Q_nearest (h : Q) :
  0 <= h -> Prim2SF (Num.of_Q h) <> S754_infinity false -> nearest h (Num.of_Q h).
Proof.
  intros Hh. unfold Num.of_Q.
  pose proof (Qred_correct h) as Hr.
  destruct (Qred h) as [rn rd]. cbn [Qnum Qden].
  destruct rn as [|rn|rn]; intros Hfin.
  - exists 0. split; [reflexivity|]. intros z u _.
    assert (H0 : Qabs (0 - h) == 0).
    { rewrite <- Hr. reflexivity. }
    rewrite H0. apply Qabs_nonneg.
  - rewrite Prim2SF_SF2Prim in Hfin by apply round_pos_valid.
    apply (nearest_wd _ _ _ Hr). now apply round_pos_nearest.
  - exfalso. rewrite <- Hr in Hh. unfold Qle in Hh. cbn [Qnum Qden] in Hh. lia.
Qed.

Lemma of_Q_finite (h : Q) :
  h < inject_Z (2 ^ 1000) -> Prim2SF (Num.of_Q h) <> S754_infinity false.
Proof.
  intros Hh. unfold Num.of_Q.
  pose proof (Qred_correct h) as Hr. rewrite <- Hr in Hh.
  destruct (Qred h) as [rn rd]. cbn [Qnum Qden].
  destruct rn as [|rn|rn].
  - discriminate.
  - rewrite Prim2SF_SF2Prim by apply round_pos_valid. apply round_pos_finite.
    unfold Qlt, inject_Z in Hh. cbn [Qnum Qden] in Hh. lia.
  - rewrite Prim2SF_SF2Prim.
    + pose proof (round_pos_grid rn rd) as (m & e & _ & _ & _ & _ & _ & Heq).
      rewrite Heq. destruct (if (m =? 2 ^ 53)%Z then _ else _) as [[|p|p] e'];
        try discriminate. destruct (e' <=? 971)%Z; discriminate.
    + pose proof (round_pos_valid rn rd) as Hv.
      pose proof (round_pos_grid rn rd) as (m & e & _ & _ & _ & _ & _ & Heq).
      rewrite Heq in Hv |- *.
      destruct (if (m =? 2 ^ 53)%Z then _ else _) as [[|p|p] e']; try reflexivity.
      destruct (e' <=? 971)%Z; [exact Hv | reflexivity].
Qed.

(** The value of a number, as the significand times the power of 2. *)
Lemma value_of_power (m : positive) (e : Z) :
  value_of m e == inject_Z (Zpos m) * Qpower 2 e.
Proof.
  unfold value_of. destruct (Z.leb_spec 0 e) as [He|He].
  - rewrite inject_Z_mult, (Zpower_Qpower 2 e) by exact He. reflexivity.
  - rewrite Qmake_Qdiv. unfold Qdiv. apply Qmult_comp; [reflexivity|].
    rewrite Pos2Z.inj_pow, Z2Pos.id by lia.
    rewrite (Zpower_Qpower 2 (- e)) by lia. change (inject_Z 2) with 2.
    rewrite Qpower_opp, Qinv_involutive. reflexivity.
Qed.

Lemma exact_finite (x : float) (m : positive) (e : Z) :
  Prim2SF x = S754_finite false m e -> exact x = Some (inject_Z (Zpos m) * Qpower 2 e).
Proof. unfold exact. now intros ->. Qed.

Lemma half_up_hundredths_wd (p q : Q) :
  p == q -> half_up_hundredths p = half_up_hundredths q.
Proof.
  intros H. unfold half_up_hundredths. f_equal. apply Qfloor_comp. now rewrite H.
Qed.

Lemma half_up_hundredths_below (q : Q) : half_up_hundredths q <= q + (1 # 200).
Proof.
  unfold half_up_hundredths. set (k := Qfloor (q * 100 + (1 # 2))).
  pose proof (Qfloor_le (q * 100 + (1 # 2))) as Hlo. fold k in Hlo.
  assert (Hk : (k # 100) == inject_Z k * (1 # 100)).
  { unfold Qeq, Qmult, inject_Z. cbn [Qnum Qden]. lia. }
  rewrite Hk. lra.
Qed.

Lemma half_up_hundredths_nonneg (q : Q) : 0 <= q -> 0 <= half_up_hundredths q.
Proof.
  intros H. unfold half_up_hundredths, Qle. cbn [Qnum Qden].
  assert (0 <= Qfloor (q * 100 + (1 # 2)))%Z; [|lia].
  change 0%Z with (Qfloor 0). apply Qfloor_resp_le. lra.
Qed.

(** What [parseFloat(x.toFixed(2))] makes of a finite number above 0 is a
    number nearest to its value rounded half up to 2 decimal places. *)
Lemma round2_nearest (x : float) (m : positive) (e : Z) :
  Prim2SF x = S754_finite false m e ->
  nearest (half_up_hundredths (inject_Z (Zpos m) * Qpower 2 e)) (round2 x).
Proof.
  intros Hx.
  rewrite <- (half_up_hundredths_wd _ _ (value_of_power m e)).
  pose proof (ConvFacts.value_of_pos m e) as Hpos.
  assert (Hr : round2 x = Num.of_Q (half_up_hundredths (value_of m e))).
  { unfold round2, Num.to_Q. rewrite Hx. fold (value_of m e).
    assert (Hq0 : Qle_bool 0 (value_of m e) = true) by (apply Qle_bool_iff; lra).
    now rewrite Hq0. }
  rewrite Hr. apply of_Q_nearest.
  - apply half_up_hundredths_nonneg. lra.
  - destruct (Qlt_le_dec (value_of m e) (inject_Z (10 ^ 21))) as [Hsmall|Hbig].
    + apply of_Q_finite.
      pose proof (half_up_hundredths_below (value_of m e)) as Hh.
      assert (inject_Z (10 ^ 21) + (1 # 200) < inject_Z (2 ^ 1000)) by reflexivity.
      lra.
    + rewrite (ConvFacts.round_big x m e Hx Hbig), Hx. discriminate.
Qed.

End Rounding.

(** * Pricing *)

Module PricingFacts.
Import Str Conv Utils Spec ConvFacts Aux.

(** The object lookup of the code finds the rate the table of the
    specification gives. *)
Lemma lookup_rate (c : string) : SHIPPING_RATES !! toUpperCase c = rate c.
Proof.
  unfold rate, rate_table, same_key, SHIPPING_RATES. cbn [List.find fst snd list_to_map foldr].
  change (toUpperCase "Sweden") with "SWEDEN".
  change (toUpperCase "China") with "CHINA".
  change (toUpperCase "Brazil") with "BRAZIL".
  change (toUpperCase "Australia") with "AUSTRALIA".
  generalize (toUpperCase c). intros k.
  repeat (rewrite lookup_insert; case_decide as H;
          [ subst k; reflexivity
          | apply not_eq_sym in H; apply String.eqb_neq in H; rewrite H; clear H ]).
  apply lookup_empty.
Qed.

Lemma rate_truthy (c : string) (r : float) : rate c = Some r -> Num.truthy r = true.
Proof.
  unfold rate, rate_table. cbn [List.find fst snd].
  repeat (destruct (same_key c _); [intros [= <-]; reflexivity|]).
  discriminate.
Qed.

Lemma rate_empty : rate "" = None.
Proof. reflexivity. Qed.

Lemma no_weight_zero (x : float) :
  no_weight (Some x) -> negb (Num.truthy x) || (x <=? 0)%float = true.
Proof.
  unfold Num.truthy. cbn. intros [H|[H|H]].
  - now rewrite H.
  - rewrite H, orb_true_r. reflexivity.
  - rewrite (NumFacts.negative_le_zero _ H). apply orb_true_r.
Qed.

(** C2: an absent, NaN, zero or negative weight is priced 0, an absent or
    empty country key is priced 0, and a positive weight with a non-empty
    key of ASCII characters that matches no rate makes the function
    throw. *)
Theorem C2_pricing_asymmetry :
  (forall w c, no_weight w -> calculateShippingCost w c = Ok 0%float) /\
  (forall w, calculateShippingCost w None = Ok 0%float /\
             calculateShippingCost w (Some "") = Ok 0%float) /\
  (forall x c,
     (0 <? x)%float = true -> c <> "" -> ascii_only c = true -> rate c = None ->
     calculateShippingCost (Some x) (Some c) =
       Throw ("Shipping rate not found for country: " ++ c)).
Proof.
  split; [|split].
  - intros [x|] [c|] H; try reflexivity.
    unfold calculateShippingCost.
    apply no_weight_zero in H. apply orb_true_iff in H as [H|H]; rewrite H; [reflexivity|].
    now rewrite !orb_true_r.
  - intros [x|]; split; try reflexivity.
    unfold calculateShippingCost. cbn. now rewrite orb_true_r.
  - intros x c Hx Hc _ Hr. unfold calculateShippingCost.
    rewrite (NumFacts.positive_truthy _ Hx), (NumFacts.positive_not_le_zero _ Hx).
    apply String.eqb_neq in Hc. rewrite Hc. cbn [negb orb].
    now rewrite lookup_rate, Hr.
Qed.

(** ** The price of a supported country *)

(** For a positive weight and a key that matches a rate, the price is what
    [parseFloat((weight * rate).toFixed(2))] makes of the product. *)
Lemma price_of_product (w : float) (c : string) (r : float) :
  (0 <? w)%float = true ->
  rate c = Some r ->
  calculateShippingCost (Some w) (Some c) = Ok (round2 (w * r)).
Proof.
  intros Hw Hr. unfold calculateShippingCost.
  rewrite (NumFacts.positive_truthy _ Hw), (NumFacts.positive_not_le_zero _ Hw).
  destruct (String.eqb_spec c "") as [->|_]; [now rewrite rate_empty in Hr|].
  cbn [negb orb]. rewrite lookup_rate, Hr, (rate_truthy _ _ Hr).
  now rewrite parseFloat_toFixed2.
Qed.

(** The prices of the tests in [src/utils/__tests__/index.test.js]. *)
Example prices :
  calculateShippingCost (Some 1%float) (Some "SWEDEN") = Ok 7.35%float /\
  calculateShippingCost (Some 2%float) (Some "CHINA") = Ok 23.06%float /\
  calculateShippingCost (Some 0.5%float) (Some "BRAZIL") = Ok 7.82%float /\
  calculateShippingCost (Some 1.5%float) (Some "AUSTRALIA") = Ok 75.14%float /\
  calculateShippingCost (Some 1%float) (Some "INVALID") =
    Throw "Shipping rate not found for country: INVALID" /\
  calculateShippingCost (Some 1%float) (Some "") = Ok 0%float.
Proof. conj_by_computation. Qed.

End PricingFacts.

(** * The colour codec *)

Module ColourFacts.
Import Str Conv Utils Spec StrFacts Aux.
Local Open Scope list_scope.

Lemma hex_digit_code (c : ascii) (v : N) :
  hex_digit_value c = Some v ->
  is_hex c = true /\ hex_val c = v /\ Ascii.eqb c "#" = false.
Proof.
  unfold hex_digit_value, hex_table. cbn [List.find fst snd].
  intros H.
  repeat match type of H with
         | context [Ascii.eqb c ?d] =>
             destruct (Ascii.eqb_spec c d) as [->|_];
             [injection H as <-; repeat split; reflexivity|]
         end.
  discriminate.
Qed.

Lemma is_hex_digit (c : ascii) : is_hex c = true -> exists v, hex_digit_value c = Some v.
Proof.
  destruct c as [b0 b1 b2 b3 b4 b5 b6 b7].
  destruct b0, b1, b2, b3, b4, b5, b6, b7; cbn; try discriminate; intros _; eexists; reflexivity.
Qed.

Lemma exec_hex_six (c1 c2 c3 c4 c5 c6 : ascii) :
  is_hex c1 = true -> is_hex c2 = true -> is_hex c3 = true ->
  is_hex c4 = true -> is_hex c5 = true -> is_hex c6 = true ->
  Ascii.eqb c1 "#" = false ->
  exec_hex [c1; c2; c3; c4; c5; c6] = Some ([c1; c2], [c3; c4], [c5; c6]) /\
  exec_hex ("#"%char :: [c1; c2; c3; c4; c5; c6]) = Some ([c1; c2], [c3; c4], [c5; c6]).
Proof.
  intros H1 H2 H3 H4 H5 H6 Hs. unfold exec_hex. rewrite Hs. cbn.
  rewrite H1, H2, H3, H4, H5, H6. split; reflexivity.
Qed.

Lemma exec_hex_some (l g1 g2 g3 : list ascii) :
  exec_hex l = Some (g1, g2, g3) ->
  exists c1 c2 c3 c4 c5 c6,
    (l = [c1; c2; c3; c4; c5; c6] \/ l = "#"%char :: [c1; c2; c3; c4; c5; c6]) /\
    g1 = [c1; c2] /\ g2 = [c3; c4] /\ g3 = [c5; c6] /\
    forallb is_hex [c1; c2; c3; c4; c5; c6] = true.
Proof.
  unfold exec_hex.
  set (l' := match l with c :: t => if Ascii.eqb c "#" then t else l | [] => l end).
  assert (Hl : l = l' \/ l = "#"%char :: l').
  { subst l'. destruct l as [|c t]; [now left|].
    destruct (Ascii.eqb_spec c "#") as [->|_]; [now right | now left]. }
  destruct l' as [|c1 [|c2 [|c3 [|c4 [|c5 [|c6 [|c7 l']]]]]]]; try discriminate.
  destruct (forallb is_hex _) eqn:Hall; [|discriminate].
  intros [= <- <- <-]. exists c1, c2, c3, c4, c5, c6. repeat split; assumption.
Qed.

Lemma parseInt16_pair (a b : ascii) : parseInt16 [a; b] = (16 * hex_val a + hex_val b)%N.
Proof. unfold parseInt16. cbn [fold_left]. lia. Qed.

Lemma truthy_str_cons (c : ascii) (l : list ascii) : truthy (VStr (str (c :: l))) = true.
Proof. reflexivity. Qed.


(** ** The decoder *)

Lemma digit_run_cons (l : list ascii) :
  digit_run l -> exists c t, l = c :: t /\ is_digit c = true.
Proof.
  intros [Hne Hd]. destruct l as [|c t]; [contradiction|].
  inversion Hd; subst. eauto.
Qed.

Lemma digit_run_digits (n : N) : digit_run (digits_of_N n).
Proof.
  split; [|apply digits_of_N_digits].
  destruct (digits_of_N_cons n) as (c & l & -> & _). discriminate.
Qed.

(** A triplet at the head of the text is matched, with its three runs of
    digits as the groups. *)
Lemma match_here_triplet (r g b w1 w2 post : list ascii) :
  digit_run r -> digit_run g -> digit_run b -> spaces w1 -> spaces w2 ->
  match_here ("("%char :: r ++ ","%char :: w1 ++ g ++ ","%char :: w2 ++ b ++ ")"%char :: post)
  = Some (r, g, b).
Proof.
  intros Hr Hg Hb Hw1 Hw2.
  destruct (digit_run_cons _ Hr) as (cr & tr & Er & Dr).
  destruct (digit_run_cons _ Hg) as (cg & tg & Eg & Dg).
  destruct (digit_run_cons _ Hb) as (cb & tb & Eb & Db).
  destruct Hr as [_ Hr], Hg as [_ Hg], Hb as [_ Hb].
  unfold match_here. cbn [Ascii.eqb Bool.eqb negb].
  rewrite (span_app is_digit r) by (assumption || reflexivity).
  rewrite Er at 1. cbn [Ascii.eqb Bool.eqb negb].
  rewrite (drop_while_app is_space w1)
    by (try assumption; rewrite Eg; cbn; now apply is_digit_not_space).
  rewrite (span_app is_digit g) by (assumption || reflexivity).
  rewrite Eg at 1. cbn [Ascii.eqb Bool.eqb negb].
  rewrite (drop_while_app is_space w2)
    by (try assumption; rewrite Eb; cbn; now apply is_digit_not_space).
  rewrite (span_app is_digit b) by (assumption || reflexivity).
  rewrite Eb at 1. reflexivity.
Qed.

(** What a match at the head of the text has read. *)
Lemma match_here_sound (l r g b : list ascii) :
  match_here l = Some (r, g, b) ->
  exists w1 w2 post,
    l = "("%char :: r ++ ","%char :: w1 ++ g ++ ","%char :: w2 ++ b ++ ")"%char :: post /\
    digit_run r /\ digit_run g /\ digit_run b /\ spaces w1 /\ spaces w2.
Proof.
  unfold match_here. destruct l as [|c0 l1]; [discriminate|].
  destruct (Ascii.eqb_spec c0 "(") as [->|]; [|discriminate]. cbn [negb].
  destruct (span is_digit l1) as [r' l2] eqn:S1.
  destruct r' as [|cr tr]; [discriminate|]. destruct l2 as [|c1 l3]; [discriminate|].
  destruct (Ascii.eqb_spec c1 ",") as [->|]; [|discriminate]. cbn [negb].
  destruct (drop_while_spec is_space l3) as (w1 & E1 & W1).
  destruct (span is_digit (drop_while is_space l3)) as [g' l4] eqn:S2.
  destruct g' as [|cg tg]; [discriminate|]. destruct l4 as [|c2 l5]; [discriminate|].
  destruct (Ascii.eqb_spec c2 ",") as [->|]; [|discriminate]. cbn [negb].
  destruct (drop_while_spec is_space l5) as (w2 & E2 & W2).
  destruct (span is_digit (drop_while is_space l5)) as [b' l6] eqn:S3.
  destruct b' as [|cb tb]; [discriminate|]. destruct l6 as [|c3 l7]; [discriminate|].
  destruct (Ascii.eqb_spec c3 ")") as [->|]; [|discriminate].
  intros [= <- <- <-].
  apply span_spec in S1 as (-> & D1 & _), S2 as (F2 & D2 & _), S3 as (F3 & D3 & _).
  exists w1, w2, l7. rewrite F3 in E2. rewrite E2 in F2. rewrite F2 in E1. rewrite E1.
  repeat split; try assumption; discriminate.
Qed.

Lemma match_rgb_sound (l r g b : list ascii) :
  match_rgb l = Some (r, g, b) ->
  exists pre w1 w2 post,
    l = pre ++ "("%char :: r ++ ","%char :: w1 ++ g ++ ","%char :: w2 ++ b ++ ")"%char :: post /\
    digit_run r /\ digit_run g /\ digit_run b /\ spaces w1 /\ spaces w2.
Proof.
  induction l as [|c l IH].
  - cbn. discriminate.
  - cbn [match_rgb]. destruct (match_here (c :: l)) as [[[r' g'] b']|] eqn:Hm.
    + intros [= -> -> ->]. apply match_here_sound in Hm as (w1 & w2 & post & H).
      exists [], w1, w2, post. exact H.
    + intros H. destruct (IH H) as (pre & w1 & w2 & post & -> & Hrest).
      exists (c :: pre), w1, w2, post. split; [reflexivity | exact Hrest].
Qed.

Lemma match_rgb_head (l : list ascii) (m : list ascii * list ascii * list ascii) :
  match_here l = Some m -> match_rgb l = Some m.
Proof. destruct l; cbn; now intros ->. Qed.

(** A match at the head of the text is a triplet at the head. *)
Lemma match_here_triplet_at (l r g b : list ascii) :
  match_here l = Some (r, g, b) <-> triplet_at l r g b.
Proof.
  split.
  - intros H. apply match_here_sound in H as (w1 & w2 & post & H). now exists w1, w2, post.
  - intros (w1 & w2 & post & -> & Hr & Hg & Hb & H1 & H2). now apply match_here_triplet.
Qed.

(** The decoder finds the first triplet of the text. *)
Lemma match_rgb_first (pre : list ascii) : forall l rest r g b,
  l = pre ++ rest ->
  triplet_at rest r g b ->
  (forall pre' l' r' g' b',
     l = pre' ++ l' -> (length pre' < length pre)%nat -> ~ triplet_at l' r' g' b') ->
  match_rgb l = Some (r, g, b).
Proof.
  induction pre as [|c pre IH]; intros l rest r g b -> Hat Hfirst.
  - apply match_rgb_head. now apply match_here_triplet_at.
  - cbn [app match_rgb].
    destruct (match_here (c :: pre ++ rest)) as [[[r' g'] b']|] eqn:Hm.
    + exfalso. apply (Hfirst [] (c :: pre ++ rest) r' g' b'); [reflexivity | cbn; lia|].
      now apply match_here_triplet_at.
    + apply (IH _ rest); [reflexivity | exact Hat|].
      intros pre' l' r' g' b' Heq Hlen.
      apply (Hfirst (c :: pre') l'); [cbn; now rewrite Heq | cbn; lia].
Qed.

(** A text that contains no triplet is not matched. *)
Lemma match_rgb_none (l : list ascii) :
  (forall pre rest r g b, l = pre ++ rest -> ~ triplet_at rest r g b) ->
  match_rgb l = None.
Proof.
  induction l as [|c l IH]; intros Hno.
  - reflexivity.
  - cbn [match_rgb].
    destruct (match_here (c :: l)) as [[[r g] b]|] eqn:Hm.
    + exfalso. apply (Hno [] (c :: l) r g b); [reflexivity|].
      now apply match_here_triplet_at.
    + apply IH. intros pre rest r g b -> Hat.
      exact (Hno (c :: pre) rest r g b eq_refl Hat).
Qed.

(** C8, as the claim states it, fails: a text that is not of the shape
    the encoder produces is decoded and not answered by the fallback. *)
Lemma C8_counterexample :
  ~ encoder_shape "x(1,2,3)y" /\
  rgbToColor (VStr "x(1,2,3)y") = "rgb(1, 2, 3)" /\
  rgbToColor (VStr "x(1,2,3)y") <> "#000000".
Proof.
  split; [|split; [reflexivity | discriminate]].
  intros (r & g & b & H). unfold encoded, triplet in H. cbn in H. discriminate.
Qed.

(** C8, amended: the decoder returns ["rgb(r, g, b)"] for every text of
    the shape the encoder produces; for a text of ASCII characters it
    returns the ["rgb(r, g, b)"] of the first triplet of digit runs the
    text contains, white space allowed after each comma, and the fallback
    ["#000000"] when the text contains none; the empty text and every
    value that is no string give the fallback; it never throws. *)
Theorem C8_rgbToColor_amended :
  (forall r g b : N,
     rgbToColor (VStr (encoded r g b)) =
       css_rgb (digits_of_N r) (digits_of_N g) (digits_of_N b)) /\
  (forall s r g b,
     ascii_only s = true -> first_triplet s r g b ->
     rgbToColor (VStr s) = css_rgb r g b) /\
  (forall s,
     ascii_only s = true -> (forall r g b, ~ contains_triplet s r g b) ->
     rgbToColor (VStr s) = "#000000") /\
  (forall v, (forall s, v <> VStr s) -> rgbToColor v = "#000000") /\
  rgbToColor (VStr "") = "#000000" /\
  rgbToColor (VStr "(255, 0, 0)") = "rgb(255, 0, 0)" /\
  rgbToColor (VStr "garbage") = "#000000" /\
  rgbToColor (VStr "a(1,2)(3, 4,5)(6,7,8)") = "rgb(3, 4, 5)".
Proof.
  split; [|split; [|split; [|split; [|repeat split]]]].
  - intros r g b. unfold rgbToColor, encoded, triplet.
    rewrite truthy_str_cons, chars_str. cbn [negb].
    rewrite (match_rgb_head _ (digits_of_N r, digits_of_N g, digits_of_N b)); [reflexivity|].
    change (chars ", ") with (","%char :: [" "%char]).
    cbn [app].
    apply (match_here_triplet _ _ _ [" "%char] [" "%char] []);
      try apply digit_run_digits; repeat constructor.
  - intros s r g b _ (pre & l & Hs & Hat & Hfirst). unfold rgbToColor.
    destruct s as [|c s].
    + exfalso. destruct pre; [|discriminate Hs]. cbn in Hs. subst l.
      destruct Hat as (w1 & w2 & post & H & _). discriminate H.
    + cbn [truthy String.eqb negb].
      now rewrite (match_rgb_first pre _ l r g b Hs Hat Hfirst).
  - intros s _ Hno. unfold rgbToColor.
    destruct (negb (truthy (VStr s))); [reflexivity|].
    rewrite match_rgb_none; [reflexivity|].
    intros pre rest r g b Hs Hat. apply (Hno r g b). now exists pre, rest.
  - intros v Hv. destruct v as [| | |x|s]; try reflexivity. now destruct (Hv s).
Qed.

End ColourFacts.

(** * Validation *)

Module ValidationFacts.
Import Str Conv Utils Spec Scenario ConvFacts Aux.

Lemma receiverName_errors_weight f :
  receiverName_errors f ∅ !! "weight" = (None : option string).
Proof.
  unfold receiverName_errors.
  destruct (String.eqb _ ""); [|destruct (_ <? _)%nat];
    rewrite ?lookup_insert_ne by discriminate; apply lookup_empty.
Qed.

Lemma country_errors_weight f (e : gmap string string) :
  country_errors f e !! "weight" = e !! "weight".
Proof.
  unfold country_errors. destruct (country f) as [[|c s]|];
    rewrite ?lookup_insert_ne by discriminate; reflexivity.
Qed.

(** The weight entry of the error map, branch by branch. *)
Lemma weight_message_cases (f : formData) :
  weight_message f =
  if negb (truthy (weight f)) then
    Some "Weight is required. Please enter the package weight in kilograms."
  else
    let w := parseFloat_value (weight f) in
    if is_nan w then Some "Please enter a valid numeric weight value."
    else if (w <? 0)%float then Some "Negative values are not permitted for weight."
    else if (w =? 0)%float then Some "Weight must be greater than 0 kg."
    else if (10000 <? w)%float then
      Some "Weight cannot exceed 10,000 kg. Please check the weight."
    else None.
Proof.
  unfold weight_message, validateBoxForm. cbn [errors].
  rewrite country_errors_weight. unfold weight_errors.
  repeat match goal with
         | |- context [if ?b then _ else _] => destruct b
         end;
    rewrite ?lookup_insert_eq; try reflexivity; apply receiverName_errors_weight.
Qed.

Lemma isValid_iff_no_errors (f : formData) :
  isValid (validateBoxForm f) = true <-> errors (validateBoxForm f) = ∅.
Proof.
  unfold validateBoxForm. cbn [isValid errors].
  rewrite bool_decide_eq_true. apply map_size_empty_iff.
Qed.

(** C7 on the code: a candidate whose weight is the number 0 gets the
    "required" message, not the "greater than 0" one, because 0 is falsy;
    a non-empty text that parses to 0 gets the "greater than 0" message.
    [isValid] is true exactly when the error map is empty. *)
Theorem C7_zero_weight_messages :
  (forall f x, weight f = VNum x -> is_zero x = true ->
     weight_message f =
       Some "Weight is required. Please enter the package weight in kilograms.") /\
  weight_message zero_weight <> Some "Weight must be greater than 0 kg." /\
  (forall f s, weight f = VStr s -> s <> "" -> (parseFloat s =? 0)%float = true ->
     weight_message f = Some "Weight must be greater than 0 kg.") /\
  (forall f, isValid (validateBoxForm f) = true <-> errors (validateBoxForm f) = ∅).
Proof.
  split; [|split; [|split]].
  - intros f x Hw Hx. rewrite weight_message_cases, Hw. cbn [truthy].
    now rewrite (NumFacts.is_zero_falsy _ Hx).
  - rewrite weight_message_cases. cbn. discriminate.
  - intros f s Hw Hs Hz. rewrite weight_message_cases, Hw. cbn [truthy parseFloat_value].
    apply String.eqb_neq in Hs. rewrite Hs. cbn [negb].
    destruct (NumFacts.eqb_zero_class _ Hz) as [-> ->]. now rewrite Hz.
  - apply isValid_iff_no_errors.
Qed.

(** The remaining branches of the weight rule. *)
Lemma weight_rule_branches (f : formData) :
  (truthy (weight f) = false ->
     weight_message f =
       Some "Weight is required. Please enter the package weight in kilograms.") /\
  (truthy (weight f) = true -> is_nan (parseFloat_value (weight f)) = true ->
     weight_message f = Some "Please enter a valid numeric weight value.") /\
  (truthy (weight f) = true -> (parseFloat_value (weight f) <? 0)%float = true ->
     weight_message f = Some "Negative values are not permitted for weight.") /\
  (truthy (weight f) = true -> (10000 <? parseFloat_value (weight f))%float = true ->
     weight_message f = Some "Weight cannot exceed 10,000 kg. Please check the weight.").
Proof.
  rewrite weight_message_cases. repeat split; intros Ht; rewrite Ht; cbn [negb];
    try reflexivity; intros H.
  - now rewrite H.
  - assert (Hn : is_nan (parseFloat_value (weight f)) = false).
    { unfold is_nan. revert H. rewrite FloatAxioms.ltb_spec, FloatAxioms.eqb_spec.
      change (Prim2SF 0) with (S754_zero false).
      destruct (Prim2SF _) as [s|s| |s m e]; try destruct s; try discriminate; intros _;
        try reflexivity. now rewrite NumFacts.SFeqb_refl_finite. }
    now rewrite Hn, H.
  - revert H. generalize (parseFloat_value (weight f)). intros w H.
    assert (Hp : (0 <? w)%float = true).
    { revert H. rewrite !FloatAxioms.ltb_spec.
      change (Prim2SF 10000) with (S754_finite false 5497558138880000 (-39)).
      change (Prim2SF 0) with (S754_zero false).
      destruct (Prim2SF w) as [s|s| |s m e]; try destruct s; try discriminate; reflexivity. }
    pose proof (NumFacts.positive_truthy _ Hp) as Htr. unfold Num.truthy in Htr.
    apply negb_true_iff, orb_false_iff in Htr as [Hn Hz]. rewrite Hn.
    unfold is_zero in Hz. change PrimFloat.zero with 0%float in Hz. rewrite Hz.
    assert (Hl : (w <? 0)%float = false).
    { revert Hp. rewrite !FloatAxioms.ltb_spec. change (Prim2SF 0) with (S754_zero false).
      destruct (Prim2SF w) as [s|s| |s m e]; try destruct s; try discriminate; reflexivity. }
    now rewrite Hl, H.
Qed.

(** A number that is truthy is parsed as itself. *)
Lemma parseFloat_value_number (x : float) :
  Num.truthy x = true -> parseFloat_value (VNum x) = x.
Proof.
  intros Ht. apply parseFloat_toString. intros Hx.
  unfold Num.truthy, is_zero in Ht. rewrite FloatAxioms.eqb_spec, Hx in Ht.
  change (Prim2SF PrimFloat.zero) with (S754_zero false) in Ht.
  cbn in Ht. now rewrite orb_true_r in Ht.
Qed.

(** The weight rule on a candidate whose weight is a number. *)
Lemma weight_message_number (f : formData) (x : float) :
  weight f = VNum x ->
  weight_message f =
  if negb (Num.truthy x) then
    Some "Weight is required. Please enter the package weight in kilograms."
  else if (x <? 0)%float then Some "Negative values are not permitted for weight."
  else if (10000 <? x)%float then
    Some "Weight cannot exceed 10,000 kg. Please check the weight."
  else None.
Proof.
  intros Hw. rewrite weight_message_cases, Hw. cbn [truthy].
  destruct (Num.truthy x) eqn:Ht; cbn [negb]; [|reflexivity].
  cbv zeta. rewrite (parseFloat_value_number x Ht).
  unfold Num.truthy in Ht. apply negb_true_iff, orb_false_iff in Ht as [Hn Hz].
  unfold is_zero in Hz. change PrimFloat.zero with 0%float in Hz. now rewrite Hn, Hz.
Qed.

(** The two validations of section 8, evaluated. *)
Example validate_examples :
  isValid (validateBoxForm
             {| receiverName := Some ""; weight := VNum 1; boxColor := VUndefined;
                country := Some "Sweden" |}) = false /\
  isValid (validateBoxForm
             {| receiverName := Some "John"; weight := VNum 1.5; boxColor := VUndefined;
                country := Some "Sweden" |}) = true.
Proof. split; vm_compute; reflexivity. Qed.

End ValidationFacts.

(** * The record store *)

Module StoreFacts.
Import Form Store Spec Scenario Aux.
Local Open Scope list_scope.

Lemma boxReducer_ok s a s' out :
  transition s a = Ok (s', out) -> boxReducer s a = s'.
Proof. unfold boxReducer, boxReducer_console. now intros ->. Qed.

Lemma boxReducer_throw s a e :
  transition s a = Throw e ->
  boxReducer s a =
    {| boxes := boxes s; loading := false; error := Some GENERIC_ERROR;
       statistics := statistics s |}.
Proof. unfold boxReducer, boxReducer_console. now intros ->. Qed.

(** C6: a transition that throws leaves the records (and the statistics)
    as they were and sets the error to the generic message; an action of
    an unknown type returns the very state it was given and only writes a
    warning to the console. *)
Theorem C6_reducer_exception_atomic (s : state) (a : action) :
  (forall e, transition s a = Throw e ->
     boxes (boxReducer s a) = boxes s /\
     statistics (boxReducer s a) = statistics s /\
     error (boxReducer s a) = Some GENERIC_ERROR) /\
  (forall type,
     boxReducer_console s (OTHER type) = (s, [("Unknown action type: " ++ type)%string])).
Proof.
  split.
  - intros e H. rewrite (boxReducer_throw _ _ _ H). auto.
  - reflexivity.
Qed.

(** C6 on a transition that throws: UPDATE_BOX without a payload on a
    store of one record. *)
Lemma C6_witness :
  let s := fst (addBox createInitialState (Some alice) env0) in
  boxes (boxReducer s (UPDATE_BOX None)) = boxes s /\
  statistics (boxReducer s (UPDATE_BOX None)) = statistics s /\
  error (boxReducer s (UPDATE_BOX None)) = Some GENERIC_ERROR.
Proof.
  exact (proj1 (C6_reducer_exception_atomic
                  (fst (addBox createInitialState (Some alice) env0)) (UPDATE_BOX None))
               "Cannot read properties of undefined (reading 'id')" eq_refl).
Defined.

(** The transitions that do throw: ADD_BOX and UPDATE_BOX without a
    payload (the latter on a non-empty sequence). *)
Lemma transition_throws s a e :
  transition s a = Throw e ->
  a = ADD_BOX None \/ (a = UPDATE_BOX None /\ boxes s <> []).
Proof.
  destruct a as [p|[b|]|p|[[i u]|]|p|p| | |t]; simpl; try discriminate; auto.
  destruct (boxes s); [discriminate|]. intros _. right. split; [reflexivity|discriminate].
Qed.

(** C10: REMOVE_BOX and UPDATE_BOX reset the error to null, whether or
    not a record has the id. *)
Theorem C10_remove_update_clear_error (s : state) (i : option string)
    (j : string) (u : updates) :
  error (boxReducer s (REMOVE_BOX i)) = None /\
  error (boxReducer s (UPDATE_BOX (Some (j, u)))) = None.
Proof. split; reflexivity. Qed.

(** ** Statistics *)

Lemma calculateStatistics_fold bs :
  calculateStatistics bs =
  fold_left stats_step bs {| totalBoxes := 0; totalWeight := 0; totalCost := 0 |}.
Proof. destruct bs; reflexivity. Qed.

Lemma stats_fold_well_formed bs : forall acc,
  Forall well_formed bs ->
  fold_left stats_step bs acc =
  {| totalBoxes := totalBoxes acc + N.of_nat (length bs);
     totalWeight := fold_left PrimFloat.add (map weight bs) (totalWeight acc);
     totalCost := fold_left PrimFloat.add (map shippingCost bs) (totalCost acc) |}.
Proof.
  induction bs as [|b bs IH]; intros acc Hwf.
  - destruct acc; simpl. now rewrite N.add_0_r.
  - inversion Hwf as [|? ? [Hw Hc] Hrest]; subst.
    cbn [fold_left map length]. rewrite IH by assumption.
    unfold stats_step; cbn [totalBoxes totalWeight totalCost].
    rewrite (NumFacts.or_zero_positive _ Hw), (NumFacts.or_zero_nonneg _ Hc).
    f_equal. lia.
Qed.

(** On records of the data model the reducer's aggregate is the
    specification's. *)
Lemma calculateStatistics_aggregate bs :
  Forall well_formed bs -> calculateStatistics bs = aggregate bs.
Proof.
  intros H. rewrite calculateStatistics_fold, stats_fold_well_formed by assumption.
  reflexivity.
Qed.

Lemma or_zero_counted (x : float) : Num.or_zero x = counted x.
Proof.
  unfold Num.or_zero, Num.truthy, counted. now destruct (is_nan x), (is_zero x).
Qed.

Lemma stats_fold_counted bs : forall acc,
  fold_left stats_step bs acc =
  {| totalBoxes := totalBoxes acc + N.of_nat (length bs);
     totalWeight :=
       fold_left PrimFloat.add (map (fun b => counted (weight b)) bs) (totalWeight acc);
     totalCost :=
       fold_left PrimFloat.add (map (fun b => counted (shippingCost b)) bs) (totalCost acc) |}.
Proof.
  induction bs as [|b bs IH]; intros acc.
  - destruct acc; simpl. now rewrite N.add_0_r.
  - cbn [fold_left map length]. rewrite IH.
    unfold stats_step; cbn [totalBoxes totalWeight totalCost].
    rewrite !or_zero_counted. f_equal. lia.
Qed.

(** Whatever the records hold, the reducer's aggregate is their count and
    the sums of their counted weights and costs. *)
Lemma calculateStatistics_counted bs : calculateStatistics bs = aggregate_counted bs.
Proof. rewrite calculateStatistics_fold, stats_fold_counted. reflexivity. Qed.

Lemma transition_recomputes s a s' out :
  changes_records a = true ->
  transition s a = Ok (s', out) ->
  statistics s' = calculateStatistics (boxes s').
Proof.
  destruct a as [p|[b|]|p|[[i u]|]|p|p| | |t]; simpl; try discriminate;
    intros _ H; try (injection H as <- _; reflexivity).
  destruct (boxes s); [|discriminate]. injection H as <- _. reflexivity.
Qed.

Lemma addBox_priced s d env cost :
  Utils.calculateShippingCost (Some (bd_weight d)) (Some (bd_country d)) = Ok cost ->
  addBox s (Some d) env =
  ({| boxes := boxes s ++ [new_box d cost env]; loading := false; error := None;
      statistics := calculateStatistics (boxes s ++ [new_box d cost env]) |},
   Success BOX_ADDED (Some (generateId env))).
Proof. unfold addBox. intros ->. reflexivity. Qed.

Lemma price_alice :
  Utils.calculateShippingCost (Some (bd_weight alice)) (Some (bd_country alice)) = Ok 23.06%float.
Proof. vm_compute. reflexivity. Qed.

Lemma addBox_alice env :
  fst (addBox createInitialState (Some alice) env) =
  {| boxes := [new_box alice 23.06 env]; loading := false; error := None;
     statistics := {| totalBoxes := 1; totalWeight := 2; totalCost := 23.06 |} |}.
Proof. rewrite (addBox_priced _ _ _ _ price_alice). reflexivity. Qed.

(** Alice's record is a record of the data model, and its cost is
    consistent. *)
Lemma alice_record env :
  well_formed (new_box alice 23.06 env) /\ consistent (new_box alice 23.06 env).
Proof. split; [split; [reflexivity | right; reflexivity] | exact price_alice]. Qed.

(** C4, as the claim states it, fails: [addBox] stores a candidate whose
    weight is NaN, and the total weight of the statistics is then 0, not
    the sum of the weights, which is NaN. *)
Lemma C4_counterexample :
  let s1 := fst (addBox createInitialState (Some unweighed) env0) in
  snd (addBox createInitialState (Some unweighed) env0) =
    Success BOX_ADDED (Some (generateId env0)) /\
  map weight (boxes s1) = [nan] /\
  totalWeight (statistics s1) = 0%float /\
  is_nan (totalWeight (aggregate (boxes s1))) = true /\
  statistics s1 <> aggregate (boxes s1).
Proof.
  cbv zeta. repeat match goal with |- _ /\ _ => split end;
    try (vm_compute; reflexivity).
  intros H. apply (f_equal (fun st => is_nan (totalWeight st))) in H.
  vm_compute in H. discriminate H.
Qed.

(** C4, amended: after a load, add, remove or update action the
    statistics are the count of the resulting records and the sums, from
    left to right, of their weights and of their shipping costs, a weight
    or cost that is NaN counting as 0; on records of the data model (a
    weight above 0, a cost of 0 or above) these are the plain sums. Adding
    Alice's record (weight 2, China) to the empty store gives 1, 2 and
    23.06; removing its id gives 0 boxes. *)
Theorem C4_statistics_recomputed (s : state) (a : action) (s' : state) (out : list string) :
  changes_records a = true ->
  transition s a = Ok (s', out) ->
  boxReducer s a = s' /\
  statistics s' = aggregate_counted (boxes s') /\
  (Forall well_formed (boxes s') -> statistics s' = aggregate (boxes s')) /\
  (forall env,
     let s1 := fst (addBox createInitialState (Some alice) env) in
     statistics s1 = {| totalBoxes := 1; totalWeight := 2; totalCost := 23.06 |} /\
     totalBoxes (statistics (fst (removeBox s1 (Some (generateId env))))) = 0%N).
Proof.
  intros Ha Ht. split; [exact (boxReducer_ok _ _ _ _ Ht)|].
  pose proof (transition_recomputes _ _ _ _ Ha Ht) as Hst.
  split; [rewrite Hst; apply calculateStatistics_counted|]. split.
  - intros Hwf. rewrite Hst. now apply calculateStatistics_aggregate.
  - intros env. cbn zeta. rewrite addBox_alice. split; [reflexivity|].
    unfold removeBox, generateId. cbn [append fst].
    unfold boxReducer, boxReducer_console, transition. cbn [fst boxes List.filter id].
    rewrite String.eqb_refl. reflexivity.
Qed.

(** C4 on the ADD_BOX action that [addBox] dispatches for Alice's record. *)
Lemma C4_witness :
  let b := new_box alice 23.06 env0 in
  let s1 := fst (addBox createInitialState (Some alice) env0) in
  boxReducer createInitialState (ADD_BOX (Some b)) = s1 /\
  statistics s1 = aggregate_counted (boxes s1) /\
  (Forall well_formed (boxes s1) -> statistics s1 = aggregate (boxes s1)) /\
  (forall env,
     let s1 := fst (addBox createInitialState (Some alice) env) in
     statistics s1 = {| totalBoxes := 1; totalWeight := 2; totalCost := 23.06 |} /\
     totalBoxes (statistics (fst (removeBox s1 (Some (generateId env))))) = 0%N).
Proof.
  exact (C4_statistics_recomputed createInitialState
           (ADD_BOX (Some (new_box alice 23.06 env0)))
           (fst (addBox createInitialState (Some alice) env0)) []
           eq_refl eq_refl).
Defined.

(** ** Adding a record *)

Lemma addBox_throws s d env e :
  Utils.calculateShippingCost (Some (bd_weight d)) (Some (bd_country d)) = Throw e ->
  addBox s (Some d) env =
  ({| boxes := boxes s; loading := false; error := Some (message_or_generic e);
      statistics := statistics s |}, Failure (message_or_generic e)).
Proof. unfold addBox. intros ->. reflexivity. Qed.

(** C1, as the claim states it, fails: a candidate the validation function
    rejects (its receiver name is empty) is appended by [addBox]. *)
Lemma C1_counterexample :
  Utils.isValid (Utils.validateBoxForm (candidate_of nameless)) = false /\
  boxes (fst (addBox createInitialState (Some nameless) env0)) =
    [new_box nameless 7.35 env0].
Proof. split; vm_compute; reflexivity. Qed.

(** C1, amended: the submission handler of the form validates the form
    data first, and an invalid form leaves the records as they are; a valid
    one is handed to [addBox]. [addBox] itself appends the record whenever
    its argument is an object and pricing returns, and leaves the records
    as they are when pricing throws or the argument is no object. *)
Theorem C1_submission_validates_before_add
    (s : state) (f : formState) (d : boxData) (env : environment) :
  (validateForm f = false -> boxes (handleSubmit s f env) = boxes s) /\
  (validateForm f = true ->
     handleSubmit s f env = fst (addBox (clearError s) (Some (getSubmissionData f)) env)) /\
  (forall cost,
     Utils.calculateShippingCost (Some (bd_weight d)) (Some (bd_country d)) = Ok cost ->
     boxes (fst (addBox s (Some d) env)) = boxes s ++ [new_box d cost env]) /\
  (forall e,
     Utils.calculateShippingCost (Some (bd_weight d)) (Some (bd_country d)) = Throw e ->
     boxes (fst (addBox s (Some d) env)) = boxes s) /\
  boxes (fst (addBox s None env)) = boxes s.
Proof.
  unfold handleSubmit. repeat split.
  - intros ->. reflexivity.
  - intros ->. reflexivity.
  - intros cost H. now rewrite (addBox_priced _ _ _ _ H).
  - intros e H. now rewrite (addBox_throws _ _ _ _ H).
Qed.

(** ** Updating a record *)

Lemma Forall2_map_r {A : Type} (R : A -> A -> Prop) (g : A -> A) (l : list A) :
  (forall x, In x l -> R x (g x)) -> Forall2 R l (map g l).
Proof.
  induction l as [|x l IH]; intros H; [constructor|].
  constructor; [apply H; now left | apply IH; intros y Hy; apply H; now right].
Qed.

Lemma find_by_id (i : string) (bs : list box) (b : box) :
  List.NoDup (map id bs) -> In b bs -> id b = i ->
  List.find (fun b => String.eqb (id b) i) bs = Some b.
Proof.
  induction bs as [|c bs IH]; intros Hnd Hin Hid; [contradiction|].
  inversion Hnd as [|? ? Hnotin Hnd']; subst. simpl.
  destruct Hin as [->|Hin].
  - now rewrite String.eqb_refl.
  - destruct (String.eqb_spec (id c) (id b)) as [Heq|Hne].
    + exfalso. apply Hnotin. rewrite Heq. now apply in_map.
    + now apply IH.
Qed.

Lemma find_none_by_id (i : string) (bs : list box) :
  List.find (fun b => String.eqb (id b) i) bs = None ->
  forall b, In b bs -> String.eqb (id b) i = false.
Proof. intros H b Hb. exact (find_none _ _ H b Hb). Qed.

(** The payload [updateBox] dispatches when it succeeds. *)
Lemma updateBox_success s i u now s' msg o :
  updateBox s (Some i) (Some u) now = (s', Success msg o) ->
  exists cost,
    s' = boxReducer s (UPDATE_BOX (Some (i, dispatched u cost now))) /\
    (reprices u = false -> cost = u_shippingCost u) /\
    (reprices u = true ->
       match List.find (fun b => String.eqb (id b) i) (boxes s) with
       | Some b =>
           exists c, cost = Some c /\
             Utils.calculateShippingCost (Some (or_else (u_weight u) (weight b)))
                                         (Some (or_else (u_country u) (country b))) = Ok c
       | None => cost = u_shippingCost u
       end).
Proof.
  unfold updateBox, updateBox_in, reprices, dispatched.
  destruct i as [|c i]; [discriminate|].
  destruct (u_weight u) as [w|] eqn:Hw, (u_country u) as [k|] eqn:Hk;
    cbn [or_else];
    try (destruct (List.find _ (boxes s)) as [b|] eqn:Hfind;
         [ destruct (Utils.calculateShippingCost _ _) as [cost|e] eqn:Hcalc;
           [ intros H; injection H as <- _ _; exists (Some cost);
             split; [reflexivity|]; split; [discriminate|]; intros _; eauto
           | discriminate ]
         | intros H; injection H as <- _ _; exists (u_shippingCost u);
           split; [reflexivity|]; split; [discriminate|]; intros _; reflexivity ]).
  intros H; injection H as <- _ _. exists (u_shippingCost u).
  split; [reflexivity|]. split; [reflexivity|discriminate].
Qed.

Lemma updateBox_failure s i u now s' e :
  updateBox s i u now = (s', Failure e) -> boxes s' = boxes s.
Proof.
  unfold updateBox, updateBox_in.
  destruct i as [[|c i]|], u as [u|]; try (intros H; injection H as <- _; reflexivity).
  destruct (match u_weight u, u_country u with None, None => _ | _, _ => _ end);
    intros H; [discriminate | injection H as <- _; reflexivity].
Qed.

Lemma price_10_china :
  Utils.calculateShippingCost (Some 10%float) (Some "China") = Ok 115.3%float.
Proof. vm_compute. reflexivity. Qed.




(** The scenario of C5 evaluated: the record's cost becomes 115.30. *)
Example update_alice_to_10 :
  map shippingCost
    (boxes (fst (updateBox (fst (addBox createInitialState (Some alice) env0))
                           (Some (generateId env0)) (Some weight_10) "later")))
  = [115.3%float].
Proof. vm_compute. reflexivity. Qed.

End StoreFacts.

(** * Bounds on prices *)

Module PriceBounds.
Import Str Conv Utils Spec Aux Rules NumFacts.
Local Open Scope Z_scope.

(** What [round_pos] returns has a clear sign bit. *)
Lemma round_pos_sign (n d : positive) : plus_signed (Num.round_pos n d).
Proof.
  unfold Num.round_pos. cbv zeta.
  destruct (if Z.odd _ && _ then _ else _) as [|p|p];
    destruct (_ =? _); cbn; try reflexivity;
    repeat match goal with |- context [if ?c then _ else _] => destruct c end; reflexivity.
Qed.

Lemma plus_signed_not_negative (x : float) :
  plus_signed (Prim2SF x) -> not_negative x.
Proof.
  unfold not_negative, is_nan. rewrite FloatAxioms.eqb_spec, FloatAxioms.leb_spec.
  change (Prim2SF 0) with (S754_zero false).
  destruct (Prim2SF x) as [s|s| |s m e]; cbn; try contradiction; intros ->; split; try reflexivity.
  unfold SFeqb, SFcompare. rewrite Z.compare_refl, Pos.compare_cont_refl. reflexivity.
Qed.

Lemma of_Q_plus_signed (q : Q) : (0 <= q)%Q -> plus_signed (Prim2SF (Num.of_Q q)).
Proof.
  intros Hq. unfold Num.of_Q.
  assert (Hr : (0 <= Qred q)%Q) by (now rewrite Qred_correct).
  destruct (Qred q) as [rn rd]. unfold Qle in Hr. cbn [Qnum Qden] in *.
  destruct rn as [|rn|rn]; [reflexivity| |lia].
  rewrite Prim2SF_SF2Prim by apply Rounding.round_pos_valid.
  apply round_pos_sign.
Qed.

(** ** The sign of a product *)

Lemma shr_1_nonneg (mrs : shr_record) : 0 <= shr_m mrs -> 0 <= shr_m (shr_1 mrs).
Proof. destruct mrs as [[|[p|p|]|p] r s]; cbn; lia. Qed.

Lemma iter_shr_1_nonneg (p : positive) : forall mrs,
  0 <= shr_m mrs -> 0 <= shr_m (SpecFloat.iter_pos shr_1 p mrs).
Proof.
  induction p as [p IH|p IH|]; intros mrs H; cbn [SpecFloat.iter_pos].
  - apply IH, IH, shr_1_nonneg, H.
  - apply IH, IH, H.
  - apply shr_1_nonneg, H.
Qed.

Lemma shr_fexp_nonneg (m e : Z) (l : location) :
  0 <= m -> 0 <= shr_m (fst (shr_fexp prec emax m e l)).
Proof.
  intros H. unfold shr_fexp, shr.
  assert (H0 : 0 <= shr_m (shr_record_of_loc m l)) by (destruct l as [|[]]; exact H).
  destruct (_ - e) as [|p|p]; cbn [fst]; [exact H0 | now apply iter_shr_1_nonneg | exact H0].
Qed.

Lemma round_nearest_even_nonneg (m : Z) (l : location) : 0 <= m -> 0 <= round_nearest_even m l.
Proof. intros H. destruct l as [|[]]; cbn; try destruct (Z.even m); lia. Qed.

Lemma binary_round_aux_sign (sx : bool) (mx ex : Z) (lx : location) :
  0 <= mx ->
  match binary_round_aux prec emax sx mx ex lx with
  | S754_zero s | S754_infinity s | S754_finite s _ _ => s = sx
  | S754_nan => False
  end.
Proof.
  intros H. unfold binary_round_aux.
  pose proof (shr_fexp_nonneg mx ex lx H) as H1.
  destruct (shr_fexp prec emax mx ex lx) as [mrs' e']. cbn [fst] in H1.
  pose proof (shr_fexp_nonneg _ e' loc_Exact
                (round_nearest_even_nonneg _ (loc_of_shr_record mrs') H1)) as H2.
  destruct (shr_fexp prec emax _ e' loc_Exact) as [mrs'' e'']. cbn [fst] in H2.
  destruct (shr_m mrs'') as [|p|p]; [reflexivity| |lia].
  destruct (e'' <=? _); reflexivity.
Qed.

(** The product of two numbers above 0 is no NaN and not below 0. *)
Lemma mul_plus_signed (x y : float) :
  (0 <? x)%float = true -> (0 <? y)%float = true -> plus_signed (Prim2SF (x * y)).
Proof.
  rewrite !FloatAxioms.ltb_spec, mul_spec.
  change (Prim2SF 0) with (S754_zero false).
  destruct (Prim2SF x) as [s|s| |s m e]; try destruct s; try discriminate; intros _;
    (destruct (Prim2SF y) as [t|t| |t k f]; try destruct t; try discriminate; intros _);
    try reflexivity.
  unfold SF64mul, SFmul.
  exact (binary_round_aux_sign false (Zpos (m * k)) (e + f) loc_Exact ltac:(lia)).
Qed.

(** Rounding to two decimals keeps a number that is not below 0 so. *)
Lemma round2_plus_signed (x : float) :
  plus_signed (Prim2SF x) -> plus_signed (Prim2SF (round2 x)).
Proof.
  intros H. unfold round2, Num.to_Q.
  destruct (Prim2SF x) as [s|s| |s m e] eqn:Hx; cbn in H; try contradiction; subst s.
  - change (Qle_bool 0 0) with true. cbv iota. apply of_Q_plus_signed, Rounding.half_up_hundredths_nonneg.
    apply Qle_refl.
  - now rewrite Hx.
  - fold (value_of m e). pose proof (ConvFacts.value_of_pos m e) as Hpos.
    assert (Hle : Qle_bool 0 (value_of m e) = true) by (apply Qle_bool_iff; lra).
    rewrite Hle. apply of_Q_plus_signed, Rounding.half_up_hundredths_nonneg. lra.
Qed.

Lemma rate_positive (c : string) (r : float) : rate c = Some r -> (0 <? r)%float = true.
Proof.
  unfold rate, rate_table. cbn [List.find fst snd].
  repeat (destruct (same_key c _); [intros [= <-]; reflexivity|]).
  discriminate.
Qed.

(** A number that is not falsy and not at most 0 is above 0. *)
Lemma truthy_above_zero (x : float) :
  negb (Num.truthy x) = false -> (x <=? 0)%float = false -> (0 <? x)%float = true.
Proof.
  intros Ht Hle. apply negb_false_iff in Ht. unfold Num.truthy, is_nan, is_zero in Ht.
  revert Ht Hle. rewrite FloatAxioms.ltb_spec, FloatAxioms.leb_spec, !FloatAxioms.eqb_spec.
  change (Prim2SF 0) with (S754_zero false).
  change (Prim2SF PrimFloat.zero) with (S754_zero false).
  destruct (Prim2SF x) as [s|s| |s m e]; try destruct s; cbn; try discriminate; reflexivity.
Qed.

(** A price the pricing function returns is no NaN and has a clear sign
    bit. *)
Lemma price_plus_signed (w : option float) (c : option string) (p : float) :
  calculateShippingCost w c = Ok p -> plus_signed (Prim2SF p).
Proof.
  intros H.
  destruct w as [x|], c as [k|]; try (injection H as <-; reflexivity).
  unfold calculateShippingCost in H.
  destruct (negb (Num.truthy x) || String.eqb k "" || (x <=? 0)%float) eqn:Hguard;
    [injection H as <-; reflexivity|].
  apply orb_false_iff in Hguard as [Hguard Hle].
  apply orb_false_iff in Hguard as [Ht Hk].
  rewrite PricingFacts.lookup_rate in H.
  destruct (rate k) as [r|] eqn:Hr; [|discriminate].
  rewrite (PricingFacts.rate_truthy _ _ Hr) in H. injection H as <-.
  rewrite ConvFacts.parseFloat_toFixed2. apply round2_plus_signed, mul_plus_signed.
  - exact (truthy_above_zero x Ht Hle).
  - exact (rate_positive _ _ Hr).
Qed.

(** X1: for a weight that is a number, [null] or [undefined] and a country
    that is a text, [null] or [undefined], a price the pricing function
    returns is neither NaN nor below 0. *)
Theorem price_never_negative (w : option float) (c : option string) (p : float) :
  calculateShippingCost w c = Ok p -> not_negative p.
Proof. intros H. apply plus_signed_not_negative. exact (price_plus_signed w c p H). Qed.

(** X1 on two kilograms for China. *)
Lemma price_never_negative_witness : not_negative 23.06%float.
Proof. exact (price_never_negative (Some 2%float) (Some "China") 23.06%float eq_refl). Defined.

(** X2: for a weight that is a number, [null] or [undefined] and a country
    that is a text of ASCII characters, [null] or [undefined], the pricing
    function throws exactly when the weight is above 0 and the country key
    is not empty and matches no rate; the message names the key as it was
    given. *)
Theorem pricing_throws_exactly (w : option float) (c : option string) (e : string) :
  ascii_or_absent c ->
  (calculateShippingCost w c = Throw e <->
   exists x k,
     w = Some x /\ c = Some k /\ (0 <? x)%float = true /\ k <> "" /\ rate k = None /\
     e = ("Shipping rate not found for country: " ++ k)%string).
Proof.
  intros _. split.
  - destruct w as [x|], c as [k|]; try discriminate.
    unfold calculateShippingCost.
    destruct (negb (Num.truthy x) || String.eqb k "" || (x <=? 0)%float) eqn:Hguard;
      [discriminate|].
    apply orb_false_iff in Hguard as [Hguard Hle].
    apply orb_false_iff in Hguard as [Ht Hk].
    rewrite PricingFacts.lookup_rate.
    destruct (rate k) as [r|] eqn:Hr.
    + now rewrite (PricingFacts.rate_truthy _ _ Hr).
    + intros [= <-]. exists x, k.
      split; [reflexivity|]. split; [reflexivity|].
      split; [exact (truthy_above_zero x Ht Hle)|].
      split; [now apply String.eqb_neq|]. split; [exact Hr | reflexivity].
  - intros (x & k & -> & -> & Hx & Hk & Hr & ->).
    unfold calculateShippingCost.
    rewrite (NumFacts.positive_truthy _ Hx), (NumFacts.positive_not_le_zero _ Hx).
    apply String.eqb_neq in Hk. rewrite Hk. cbn [negb orb].
    now rewrite PricingFacts.lookup_rate, Hr.
Qed.

(** X2 on the key INVALID of the tests. *)
Lemma pricing_throws_exactly_witness :
  calculateShippingCost (Some 1%float) (Some "INVALID") =
    Throw "Shipping rate not found for country: INVALID" <->
  exists x k,
    Some 1%float = Some x /\ Some "INVALID" = Some k /\ (0 <? x)%float = true /\
    k <> "" /\ rate k = None /\
    "Shipping rate not found for country: INVALID" =
      ("Shipping rate not found for country: " ++ k)%string.
Proof.
  exact (pricing_throws_exactly (Some 1%float) (Some "INVALID")
           "Shipping rate not found for country: INVALID" eq_refl).
Defined.

End PriceBounds.
(** * The price of a supported country *)

Module PriceRounding.
Import Str Conv Utils Spec Aux Rules NumFacts Rounding.

(** A number that is no NaN, has a clear sign bit and no value is the
    positive infinity. *)
Lemma plus_signed_infinite (x : float) :
  plus_signed (Prim2SF x) -> exact x = None -> x = infinity.
Proof.
  unfold exact. intros Hs He. apply Prim2SF_inj.
  destruct (Prim2SF x) as [s|s| |s m e]; cbn in Hs; try contradiction; try discriminate.
  now subst s.
Qed.

(** What [parseFloat(x.toFixed(2))] makes of a number that is no NaN and
    has a clear sign bit. *)
Lemma round2_of_plus_signed (x : float) :
  plus_signed (Prim2SF x) ->
  match exact x with
  | Some q => nearest (half_up_hundredths q) (round2 x)
  | None => round2 x = infinity
  end.
Proof.
  intros Hs. destruct (exact x) as [q|] eqn:Hq.
  - unfold exact in Hq.
    destruct (Prim2SF x) as [s|s| |s m e] eqn:Hx; cbn in Hs; try contradiction;
      try discriminate; subst s; injection Hq as <-.
    + assert (Hr : round2 x = 0%float) by (unfold round2, Num.to_Q; now rewrite Hx).
      rewrite Hr. exists 0%Q. split; [reflexivity|]. intros z u _.
      assert (H0 : (Qabs (0 - half_up_hundredths 0) == 0)%Q) by reflexivity.
      rewrite H0. apply Qabs_nonneg.
    + now apply round2_nearest.
  - rewrite (plus_signed_infinite x Hs Hq). reflexivity.
Qed.

(** C3, as the claim states it, fails: the rate of Sweden is 7.35 and
    half a kilogram times 7.35 is 3.675, which rounds to 3.68 half up as
    well as half to even; the price is 3.67, and 3.67 is not the number
    nearest to 3.68. *)
Lemma C3_counterexample :
  In ("Sweden", 735 # 100) decimal_rate_table /\
  (exists w, exact 0.5%float = Some w /\ w == 1 # 2) /\
  half_up_hundredths ((1 # 2) * (735 # 100)) == 368 # 100 /\
  half_even_hundredths ((1 # 2) * (735 # 100)) == 368 # 100 /\
  calculateShippingCost (Some 0.5%float) (Some "Sweden") = Ok 3.67%float /\
  nearest (368 # 100) 3.68%float /\
  ~ nearest (368 # 100) 3.67%float.
Proof.
  split; [now left|]. split; [eexists; split; [reflexivity | reflexivity]|].
  split; [reflexivity|]. split; [reflexivity|]. split; [vm_compute; reflexivity|].
  assert (H368 : Num.of_Q (368 # 100) = 3.68%float) by (vm_compute; reflexivity).
  split.
  - rewrite <- H368. apply of_Q_nearest; [discriminate|].
    rewrite H368. vm_compute. discriminate.
  - intros (v & Hv & Hmin). injection Hv as <-.
    assert (Hu : exists u, exact 3.68%float = Some u) by (eexists; reflexivity).
    destruct Hu as (u & Hu). specialize (Hmin _ u Hu).
    injection Hu as <-. vm_compute in Hmin. now apply Hmin.
Qed.

(** C3, amended: for a positive weight [w] and a key [c] that matches,
    whatever its case, a country of the Rate Table (Sweden 7.35, China
    11.53, Brazil 15.63, Australia 50.09), the price is a number nearest
    to the hundredth that is nearest, the upper one of two, to the exact
    value of the binary64 product of the weight and the rate, where the
    rate is the number nearest to the decimal of the table; it is Infinity
    when the product is. *)
Theorem C3_price_is_rounded_product (w : float) (c : string) (r : float) :
  (0 <? w)%float = true ->
  rate c = Some r ->
  exists p,
    calculateShippingCost (Some w) (Some c) = Ok p /\
    match exact (w * r) with
    | Some q => nearest (half_up_hundredths q) p
    | None => p = infinity
    end.
Proof.
  intros Hw Hr. exists (round2 (w * r)).
  split; [now apply PricingFacts.price_of_product|].
  apply round2_of_plus_signed, PriceBounds.mul_plus_signed; [exact Hw|].
  exact (PriceBounds.rate_positive _ _ Hr).
Qed.

(** C3 on half a kilogram for Brazil, the key in lower case. *)
Lemma C3_witness :
  exists p,
    calculateShippingCost (Some 0.5%float) (Some "brazil") = Ok p /\
    match exact (0.5 * 15.63) with
    | Some q => nearest (half_up_hundredths q) p
    | None => p = infinity
    end.
Proof.
  apply (C3_price_is_rounded_product 0.5%float "brazil" 15.63%float); reflexivity.
Defined.

(** The rates of the code are the numbers nearest to the decimals of the
    Rate Table. *)
Lemma rates_nearest_to_decimals :
  Forall2 (fun kv kq => fst kv = fst kq /\ nearest (snd kq) (snd kv))
          rate_table decimal_rate_table.
Proof.
  repeat constructor; cbn [fst snd];
    match goal with
    | |- nearest ?q ?x =>
        replace x with (Num.of_Q q) by (vm_compute; reflexivity);
        apply of_Q_nearest; [discriminate | vm_compute; discriminate]
    end.
Qed.

End PriceRounding.

(** * The two colour helpers together *)

Module ColourRoundTrip.
Import Str Conv Utils Spec Rules StrFacts ColourFacts.
Local Open Scope list_scope.

Lemma css_rgb_triplet (r g b : list ascii) :
  css_rgb r g b = ("rgb" ++ triplet r g b)%string.
Proof. reflexivity. Qed.

Lemma match_rgb_skip (c : ascii) (l : list ascii) :
  Ascii.eqb c "(" = false -> match_rgb (c :: l) = match_rgb l.
Proof. intros H. cbn [match_rgb match_here]. now rewrite H. Qed.

Lemma match_here_spaced (r g b : list ascii) :
  digit_run r -> digit_run g -> digit_run b ->
  match_here ("("%char :: r ++ chars ", " ++ g ++ chars ", " ++ b ++ [")"%char]) = Some (r, g, b).
Proof.
  intros Hr Hg Hb. change (chars ", ") with (","%char :: [" "%char]). cbn [app].
  apply (match_here_triplet r g b [" "%char] [" "%char] []); try assumption;
    repeat constructor.
Qed.

(** The decoder on the text of a triplet of digit runs. *)
Lemma rgbToColor_triplet (r g b : list ascii) :
  digit_run r -> digit_run g -> digit_run b ->
  rgbToColor (VStr (triplet r g b)) = css_rgb r g b.
Proof.
  intros Hr Hg Hb. unfold rgbToColor, triplet.
  rewrite truthy_str_cons, chars_str. cbn [negb].
  now rewrite (match_rgb_head _ (r, g, b)) by now apply match_here_spaced.
Qed.

(** The decoder on a text it has produced. *)
Lemma rgbToColor_css (r g b : list ascii) :
  digit_run r -> digit_run g -> digit_run b ->
  rgbToColor (VStr (css_rgb r g b)) = css_rgb r g b.
Proof.
  intros Hr Hg Hb. unfold rgbToColor at 1. unfold css_rgb at 1 2.
  change (chars "rgb(") with ("r"%char :: "g"%char :: "b"%char :: ["("%char]).
  cbn [app]. rewrite truthy_str_cons, chars_str. cbn [negb].
  rewrite !match_rgb_skip by reflexivity.
  now rewrite (match_rgb_head _ (r, g, b)) by now apply match_here_spaced.
Qed.

Lemma hex_val_bound (c : ascii) : is_hex c = true -> (hex_val c <= 15)%N.
Proof.
  destruct c as [[] [] [] [] [] [] [] []]; vm_compute; intros H;
    try discriminate H; intros H'; discriminate H'.
Qed.

Lemma parseInt16_bound (a b : ascii) :
  is_hex a = true -> is_hex b = true -> (parseInt16 [a; b] <= 255)%N.
Proof.
  intros Ha Hb. rewrite parseInt16_pair.
  pose proof (hex_val_bound a Ha). pose proof (hex_val_bound b Hb). lia.
Qed.

(** What the encoder returns is the text of three channels, each at most
    255. *)
Lemma hexToRgb_encoded (v : value) :
  exists r g b : N, (r <= 255 /\ g <= 255 /\ b <= 255)%N /\ hexToRgb v = encoded r g b.
Proof.
  assert (Hblack : exists r g b : N,
            (r <= 255 /\ g <= 255 /\ b <= 255)%N /\ "(0, 0, 0)" = encoded r g b).
  { exists 0%N, 0%N, 0%N. split; [lia | reflexivity]. }
  destruct v as [| | |x|s]; try exact Hblack.
  unfold hexToRgb. destruct (negb (truthy (VStr s))); [exact Hblack|].
  destruct (exec_hex (chars s)) as [[[g1 g2] g3]|] eqn:He; [|exact Hblack].
  apply exec_hex_some in He as (c1 & c2 & c3 & c4 & c5 & c6 & _ & -> & -> & -> & Hall).
  cbn in Hall. rewrite !andb_true_iff in Hall.
  destruct Hall as (I1 & I2 & I3 & I4 & I5 & I6 & _).
  exists (parseInt16 [c1; c2]), (parseInt16 [c3; c4]), (parseInt16 [c5; c6]).
  split; [|reflexivity]. auto using parseInt16_bound.
Qed.

(** X3: whatever its argument, the encoder returns the text ["(r, g, b)"]
    of three channels between 0 and 255. *)
Theorem hexToRgb_channels_in_range (v : value) :
  exists r g b : N, (r <= 255 /\ g <= 255 /\ b <= 255)%N /\ hexToRgb v = encoded r g b.
Proof. exact (hexToRgb_encoded v). Qed.

(** X4: the decoder never answers a text of the encoder by its fallback:
    it returns that text with [rgb] in front, a colour of CSS. *)
Theorem rgbToColor_of_hexToRgb (v : value) :
  rgbToColor (VStr (hexToRgb v)) = ("rgb" ++ hexToRgb v)%string.
Proof.
  destruct (hexToRgb_encoded v) as (r & g & b & _ & ->).
  unfold encoded. rewrite <- css_rgb_triplet.
  apply rgbToColor_triplet; apply digit_run_digits.
Qed.

(** X5: the decoder is idempotent: decoding what it returned, the fallback
    or a colour, returns the same text. *)
Theorem rgbToColor_idempotent (v : value) :
  rgbToColor (VStr (rgbToColor v)) = rgbToColor v.
Proof.
  destruct v as [| | |x|s]; try reflexivity.
  unfold rgbToColor at 2 3. destruct (negb (truthy (VStr s))); [reflexivity|].
  destruct (match_rgb (chars s)) as [[[r g] b]|] eqn:Hm; [|reflexivity].
  apply match_rgb_sound in Hm as (pre & w1 & w2 & post & _ & Hr & Hg & Hb & _).
  now apply rgbToColor_css.
Qed.

(** ** Case and the leading [#] *)

Lemma upper_char_hash (c : ascii) : Ascii.eqb (upper_char c) "#" = Ascii.eqb c "#".
Proof. destruct c as [[] [] [] [] [] [] [] []]; vm_compute; reflexivity. Qed.

Lemma upper_char_is_hex (c : ascii) : is_hex (upper_char c) = is_hex c.
Proof. destruct c as [[] [] [] [] [] [] [] []]; vm_compute; reflexivity. Qed.

Lemma upper_char_hex_val (c : ascii) : is_hex c = true -> hex_val (upper_char c) = hex_val c.
Proof.
  destruct c as [[] [] [] [] [] [] [] []]; vm_compute; intros H;
    try discriminate H; reflexivity.
Qed.

Lemma forallb_is_hex_upper (l : list ascii) :
  forallb is_hex (map upper_char l) = forallb is_hex l.
Proof. induction l as [|c l IH]; cbn; [reflexivity|]. now rewrite upper_char_is_hex, IH. Qed.

Lemma parseInt16_upper (a b : ascii) :
  is_hex a = true -> is_hex b = true ->
  parseInt16 [upper_char a; upper_char b] = parseInt16 [a; b].
Proof. intros Ha Hb. now rewrite !parseInt16_pair, !upper_char_hex_val. Qed.

(** The groups matched in the upper-cased text are the upper-cased groups. *)
Lemma exec_hex_upper (l : list ascii) :
  exec_hex (map upper_char l) =
  match exec_hex l with
  | Some (g1, g2, g3) => Some (map upper_char g1, map upper_char g2, map upper_char g3)
  | None => None
  end.
Proof.
  unfold exec_hex.
  set (l' := match l with c :: t => if Ascii.eqb c "#" then t else l | [] => l end).
  assert (Hl : match map upper_char l with
               | c :: t => if Ascii.eqb c "#" then t else map upper_char l
               | [] => map upper_char l
               end = map upper_char l').
  { subst l'. destruct l as [|c t]; [reflexivity|]. cbn [map].
    rewrite upper_char_hash. now destruct (Ascii.eqb c "#"). }
  rewrite Hl. clearbody l'. clear Hl.
  destruct l' as [|c1 [|c2 [|c3 [|c4 [|c5 [|c6 [|c7 t]]]]]]]; try reflexivity.
  change (map upper_char [c1; c2; c3; c4; c5; c6])
    with [upper_char c1; upper_char c2; upper_char c3; upper_char c4; upper_char c5; upper_char c6].
  cbn [forallb]. rewrite !upper_char_is_hex.
  now destruct (is_hex c1 && (is_hex c2 && (is_hex c3 && (is_hex c4 && (is_hex c5 && (is_hex c6 && true)))))).
Qed.

Lemma toUpperCase_empty (s : string) : String.eqb (toUpperCase s) "" = String.eqb s "".
Proof. destruct s; reflexivity. Qed.

(** X6: the encoder reads the hexadecimal digits in either case: a text
    of ASCII characters and its upper-cased form are encoded alike; and a
    [#] put in front of a text that starts with none makes no
    difference. *)
Theorem hexToRgb_ignores_case_and_hash :
  (forall s, ascii_only s = true -> hexToRgb (VStr (toUpperCase s)) = hexToRgb (VStr s)) /\
  (forall s, starts_with ["#"%char] (chars s) = None ->
             hexToRgb (VStr (String "#" s)) = hexToRgb (VStr s)).
Proof.
  split.
  - intros s _. unfold hexToRgb. cbn [truthy]. rewrite toUpperCase_empty.
    destruct (negb (negb (String.eqb s ""))); [reflexivity|].
    unfold toUpperCase. rewrite chars_str, exec_hex_upper.
    destruct (exec_hex (chars s)) as [[[g1 g2] g3]|] eqn:He; [|reflexivity].
    apply exec_hex_some in He as (c1 & c2 & c3 & c4 & c5 & c6 & _ & -> & -> & -> & Hall).
    cbn in Hall. rewrite !andb_true_iff in Hall.
    destruct Hall as (I1 & I2 & I3 & I4 & I5 & I6 & _).
    cbn [map]. now rewrite !parseInt16_upper.
  - intros s Hs. unfold hexToRgb. cbn [truthy String.eqb negb].
    change (chars (String "#" s)) with ("#"%char :: chars s).
    destruct s as [|c s]; [reflexivity|]. cbn [String.eqb negb].
    unfold exec_hex at 1. cbn [Ascii.eqb]. 
    change (chars (String c s)) with (c :: chars s) in *.
    cbn [starts_with] in Hs.
    unfold exec_hex. 
    destruct (Ascii.eqb "#" c) eqn:Hc; [discriminate|].
    rewrite Ascii.eqb_sym in Hc. rewrite Hc. 
    change (Ascii.eqb "#" "#") with true. cbv iota. reflexivity.
Qed.

End ColourRoundTrip.

(** * The validation rules *)

Module ValidationRules.
Import Str Conv Utils Spec Scenario Rules ValidationFacts.

(** ** Comparisons of numbers *)

Lemma SFcompare_antisym (x y : spec_float) :
  SFcompare y x = match SFcompare x y with Some c => Some (CompOpp c) | None => None end.
Proof.
  destruct x as [s|s| |s m e], y as [t|t| |t k f]; try destruct s; try destruct t;
    try reflexivity; cbn [SFcompare];
    pose proof (Pos.compare_cont_antisym m k Eq) as Hp; cbn [CompOpp] in Hp;
    rewrite (Z.compare_antisym e f), <- Hp;
    destruct (Z.compare e f); cbn [CompOpp]; try reflexivity;
    now rewrite CompOpp_involutive.
Qed.

(** When two numbers compare, [x <= y] is the failure of [y < x]. *)
Lemma SFleb_not_ltb (x y : spec_float) :
  SFcompare x y <> None -> (SFltb y x = false <-> SFleb x y = true).
Proof.
  unfold SFltb, SFleb. rewrite (SFcompare_antisym x y).
  destruct (SFcompare x y) as [[]|]; cbn [CompOpp]; intros H;
    try (now destruct H); split; congruence.
Qed.

(** A number the weight rule lets through is above 0 and at most 10000,
    and conversely. *)
Lemma weight_rule_range (w : float) :
  is_nan w = false /\ (w <? 0)%float = false /\ (w =? 0)%float = false /\
  (10000 <? w)%float = false <->
  (0 <? w)%float = true /\ (w <=? 10000)%float = true.
Proof.
  unfold is_nan.
  rewrite !FloatAxioms.ltb_spec, !FloatAxioms.eqb_spec, FloatAxioms.leb_spec.
  change (Prim2SF 0) with (S754_zero false).
  generalize (Prim2SF 10000) (eq_refl : Prim2SF 10000 = S754_finite false 5497558138880000 (-39)).
  intros y Hy.
  destruct (Prim2SF w) as [s|s| |s m e] eqn:Hw.
  - (* a zero *) split; [intros (_ & _ & H & _); discriminate | intros [H _]; discriminate].
  - (* an infinity *)
    destruct s; subst y.
    + split; [intros (_ & H & _); discriminate | intros [H _]; discriminate].
    + split; [intros (_ & _ & _ & H); discriminate | intros [_ H]; discriminate].
  - (* NaN *) split; [intros (H & _); discriminate | intros [H _]; discriminate].
  - destruct s.
    + split; [intros (_ & H & _); discriminate | intros [H _]; discriminate].
    + assert (Hc : SFcompare (S754_finite false m e) y <> None) by (subst y; discriminate).
      pose proof (SFleb_not_ltb _ _ Hc) as Hiff.
      rewrite NumFacts.SFeqb_refl_finite.
      split.
      * intros (_ & _ & _ & H). split; [reflexivity | now apply Hiff].
      * intros [_ H]. repeat split; now apply Hiff.
Qed.

(** ** The error map, rule by rule *)

Lemma receiverName_errors_empty (f : formData) :
  receiverName_errors f ∅ = ∅ <-> accepted_name (receiverName f).
Proof.
  unfold receiverName_errors, accepted_name.
  destruct (receiverName f) as [s|].
  - destruct (String.eqb_spec (trim s) "") as [He|He].
    + split; [intros H; now apply insert_non_empty in H|].
      intros (s' & [= <-] & Hne & _). contradiction.
    + destruct (Nat.ltb_spec 100 (String.length (trim s))) as [Hl|Hl].
      * split; [intros H; now apply insert_non_empty in H|].
        intros (s' & [= <-] & _ & Hle). lia.
      * split; [|reflexivity]. intros _. exists s. auto.
  - cbn. split; [intros H; now apply insert_non_empty in H|].
    intros (s' & [=] & _).
Qed.

Lemma weight_errors_empty (f : formData) (e : gmap string string) :
  weight_errors f e = ∅ <-> accepted_weight (weight f) /\ e = ∅.
Proof.
  unfold weight_errors, accepted_weight.
  destruct (truthy (weight f)); cbn [negb].
  - pose proof (weight_rule_range (parseFloat_value (weight f))) as Hr.
    cbv zeta.
    destruct (is_nan _) eqn:Hn, (_ <? 0)%float eqn:Hl, (_ =? 0)%float eqn:Hz,
      (10000 <? _)%float eqn:Hm;
      try (split; [intros H; now apply insert_non_empty in H|];
           intros [(_ & H1 & H2) _];
           destruct (proj2 Hr (conj H1 H2)) as (? & ? & ? & ?); discriminate).
    split.
    + intros ->. split; [|reflexivity]. split; [reflexivity|]. apply Hr. auto.
    + now intros [_ ->].
  - split; [intros H; now apply insert_non_empty in H|]. now intros [[[=] _] _].
Qed.

Lemma country_errors_empty (f : formData) (e : gmap string string) :
  country_errors f e = ∅ <-> accepted_country (country f) /\ e = ∅.
Proof.
  unfold country_errors, accepted_country.
  destruct (country f) as [[|c s]|].
  - split; [intros H; now apply insert_non_empty in H|].
    intros [(s' & [= <-] & Hne) _]. contradiction.
  - split; [|now intros [_ ->]]. intros ->. split; [|reflexivity].
    exists (String c s). split; [reflexivity | discriminate].
  - split; [intros H; now apply insert_non_empty in H|].
    intros [(s' & [=] & _) _].
Qed.

Lemma validateBoxForm_accepts (f : formData) :
  isValid (validateBoxForm f) = true <->
  accepted_name (receiverName f) /\ accepted_weight (weight f) /\ accepted_country (country f).
Proof.
  rewrite isValid_iff_no_errors. unfold validateBoxForm. cbn [errors].
  rewrite country_errors_empty, weight_errors_empty, receiverName_errors_empty.
  tauto.
Qed.

(** X7: a candidate whose receiver name is absent or a text of ASCII
    characters is valid exactly when the trimmed receiver name has between
    1 and 100 characters, the weight is not falsy and is read as a number
    above 0 and at most 10000, and the country is a text that is not empty.
    The colour plays no part. *)
Theorem valid_exactly_when_accepted (f : formData) :
  ascii_or_absent (receiverName f) ->
  (isValid (validateBoxForm f) = true <->
   accepted_name (receiverName f) /\ accepted_weight (weight f) /\ accepted_country (country f)).
Proof. intros _. exact (validateBoxForm_accepts f). Qed.

(** X7 on a candidate of the tests. *)
Lemma valid_exactly_when_accepted_witness :
  let f := {| receiverName := Some "John Doe"; weight := VNum 1.5; boxColor := VStr "#3498db";
              country := Some "Sweden" |} in
  isValid (validateBoxForm f) = true <->
  accepted_name (receiverName f) /\ accepted_weight (weight f) /\ accepted_country (country f).
Proof.
  exact (valid_exactly_when_accepted
           {| receiverName := Some "John Doe"; weight := VNum 1.5; boxColor := VStr "#3498db";
              country := Some "Sweden" |} eq_refl).
Defined.

(** ** The keys and the messages *)

Lemma entries_sound_insert (k m : string) (e : gmap string string) :
  In k validated_keys -> m <> "" -> entries_sound e -> entries_sound (<[k := m]> e).
Proof.
  intros Hk Hm He k' m' H. apply lookup_insert_Some in H as [[<- <-]|[_ H]]; [auto|].
  now apply He.
Qed.

Lemma validateBoxForm_entries_sound (f : formData) : entries_sound (errors (validateBoxForm f)).
Proof.
  unfold validateBoxForm. cbn [errors].
  assert (H0 : entries_sound (∅ : gmap string string)).
  { intros k m H. now rewrite lookup_empty in H. }
  assert (H1 : entries_sound (receiverName_errors f ∅)).
  { unfold receiverName_errors.
    destruct (String.eqb _ ""); [|destruct (_ <? _)%nat]; try assumption;
      apply entries_sound_insert; try assumption; try discriminate; cbn; auto. }
  assert (H2 : entries_sound (weight_errors f (receiverName_errors f ∅))).
  { unfold weight_errors. cbv zeta.
    repeat match goal with
           | |- context [if ?b then _ else _] => destruct b
           end; try assumption;
      apply entries_sound_insert; try assumption; try discriminate; cbn; auto. }
  unfold country_errors. destruct (country f) as [[|c s]|]; try assumption;
    apply entries_sound_insert; try assumption; try discriminate; cbn; auto.
Qed.

(** X8: the error map only ever has entries for the receiver name, the
    weight and the country, and no message is the empty text. *)
Theorem errors_only_for_validated_fields (f : formData) (k m : string) :
  errors (validateBoxForm f) !! k = Some m -> In k validated_keys /\ m <> "".
Proof. apply validateBoxForm_entries_sound. Qed.

(** X8 on the weight entry of a candidate whose weight is the number 0. *)
Lemma errors_only_for_validated_fields_witness :
  In "weight" validated_keys /\
  "Weight is required. Please enter the package weight in kilograms." <> "".
Proof.
  exact (errors_only_for_validated_fields zero_weight "weight"
           "Weight is required. Please enter the package weight in kilograms." eq_refl).
Defined.

(** X9: a weight given as a number passes the weight rule exactly when it
    is above 0 and at most 10000: the text the number is converted to is
    read back as the number. *)
Theorem numeric_weight_accepted_in_range (f : formData) (x : float) :
  weight f = VNum x ->
  (weight_message f = None <-> (0 <? x)%float = true /\ (x <=? 10000)%float = true).
Proof.
  intros Hw. rewrite (weight_message_number f x Hw).
  pose proof (weight_rule_range x) as Hr.
  destruct (Num.truthy x) eqn:Ht; cbn [negb].
  - unfold Num.truthy in Ht. apply negb_true_iff, orb_false_iff in Ht as [Hn Hz].
    unfold is_zero in Hz. change PrimFloat.zero with 0%float in Hz.
    destruct (x <? 0)%float eqn:Hl, (10000 <? x)%float eqn:Hm;
      try (split; [discriminate|]; intros H;
           destruct (proj2 Hr H) as (? & ? & ? & ?); discriminate).
    split; [|reflexivity]. intros _. apply Hr. auto.
  - split; [discriminate|]. intros [Hp _].
    now rewrite (NumFacts.positive_truthy _ Hp) in Ht.
Qed.

(** X9 on the weight 1.5 of the tests. *)
Lemma numeric_weight_accepted_in_range_witness :
  weight_message {| receiverName := Some "John"; weight := VNum 1.5; boxColor := VUndefined;
                    country := Some "Sweden" |} = None <->
  (0 <? 1.5)%float = true /\ (1.5 <=? 10000)%float = true.
Proof.
  exact (numeric_weight_accepted_in_range
           {| receiverName := Some "John"; weight := VNum 1.5; boxColor := VUndefined;
              country := Some "Sweden" |} 1.5%float eq_refl).
Defined.

End ValidationRules.

(** * The form *)

Module FormHook.
Import Str Conv Form Spec Rules StrFacts ValidationFacts ValidationRules.
Local Open Scope list_scope.

(** ** Trimming *)

Lemma drop_while_fixed (p : ascii -> bool) (l : list ascii) :
  match l with c :: _ => p c = false | [] => True end -> drop_while p l = l.
Proof. destruct l as [|c l]; [reflexivity|]. cbn. now intros ->. Qed.

Lemma drop_while_stops (p : ascii -> bool) (l : list ascii) :
  match drop_while p l with c :: _ => p c = false | [] => True end.
Proof.
  induction l as [|c l IH]; cbn; [exact I|].
  destruct (p c) eqn:Hc; [exact IH | exact Hc].
Qed.

Lemma drop_while_keeps_last (p : ascii -> bool) (c : ascii) (a : list ascii) :
  p c = false -> exists a', drop_while p (a ++ [c]) = a' ++ [c].
Proof.
  intros Hc. induction a as [|d a [a' IH]]; cbn.
  - rewrite Hc. now exists [].
  - destruct (p d); [now exists a' | now exists (d :: a)].
Qed.

(** A trimmed text has no white space at either end. *)
Lemma trim_chars_ends (l : list ascii) :
  match trim_chars l with c :: _ => is_space c = false | [] => True end /\
  match rev (trim_chars l) with c :: _ => is_space c = false | [] => True end.
Proof.
  unfold trim_chars. split.
  - pose proof (drop_while_stops is_space l) as Hhead.
    destruct (drop_while is_space l) as [|c l1]; [exact I|].
    cbn [rev]. destruct (drop_while_keeps_last is_space c (rev l1) Hhead) as [a' ->].
    rewrite rev_app_distr. exact Hhead.
  - rewrite rev_involutive. apply drop_while_stops.
Qed.

Lemma trim_chars_idempotent (l : list ascii) : trim_chars (trim_chars l) = trim_chars l.
Proof.
  destruct (trim_chars_ends l) as [Hhead Hlast].
  unfold trim_chars at 1.
  rewrite (drop_while_fixed _ _ Hhead), (drop_while_fixed _ _ Hlast).
  apply rev_involutive.
Qed.

Lemma trim_idempotent (s : string) : trim (trim s) = trim s.
Proof. unfold trim. now rewrite chars_str, trim_chars_idempotent. Qed.

(** ** What the form submits *)

Lemma validateForm_accepts (f : formState) :
  validateForm f = true ->
  trim (receiverName f) <> "" /\ (String.length (trim (receiverName f)) <= 100)%nat /\
  weight f <> "" /\ (0 <? parseFloat (weight f))%float = true /\
  (parseFloat (weight f) <=? 10000)%float = true /\ country f <> "".
Proof.
  unfold validateForm. intros H.
  apply validateBoxForm_accepts in H as ((s & [= <-] & Hn & Hl) & (Ht & Hp & Hm) & (c & [= <-] & Hc)).
  cbn in Ht. apply negb_true_iff, String.eqb_neq in Ht. auto 10.
Qed.

(** X10: the data a valid form submits pass the validation again, now with
    the name trimmed and the weight a number: that number is above 0 and
    at most 10000, and neither the name nor the country is empty. *)
Theorem submission_passes_validation (f : formState) :
  validateForm f = true ->
  Utils.isValid (Utils.validateBoxForm (candidate_of (getSubmissionData f))) = true /\
  (0 <? bd_weight (getSubmissionData f))%float = true /\
  (bd_weight (getSubmissionData f) <=? 10000)%float = true /\
  bd_receiverName (getSubmissionData f) <> "" /\
  bd_country (getSubmissionData f) <> "".
Proof.
  intros H. destruct (validateForm_accepts f H) as (Hn & Hl & Hw & Hp & Hm & Hc).
  cbn [getSubmissionData bd_weight bd_receiverName bd_country].
  split; [|auto].
  apply validateBoxForm_accepts. cbn [candidate_of getSubmissionData Utils.receiverName
    Utils.weight Utils.country bd_weight bd_receiverName bd_country].
  split; [|split].
  - exists (trim (receiverName f)). rewrite trim_idempotent. auto.
  - unfold accepted_weight. cbn [truthy].
    pose proof (NumFacts.positive_truthy _ Hp) as Ht.
    rewrite (parseFloat_value_number _ Ht). auto.
  - exists (country f). auto.
Qed.

(** X10 on a form with white space around the name. *)
Lemma submission_passes_validation_witness :
  let f := {| receiverName := "  Alice "; weight := "2.5"; boxColor := "#3498db";
              country := "CHINA" |} in
  Utils.isValid (Utils.validateBoxForm (candidate_of (getSubmissionData f))) = true /\
  (0 <? bd_weight (getSubmissionData f))%float = true /\
  (bd_weight (getSubmissionData f) <=? 10000)%float = true /\
  bd_receiverName (getSubmissionData f) <> "" /\
  bd_country (getSubmissionData f) <> "".
Proof.
  apply (submission_passes_validation
           {| receiverName := "  Alice "; weight := "2.5"; boxColor := "#3498db";
              country := "CHINA" |}).
  vm_compute. reflexivity.
Defined.

(** ** The weight field *)

Lemma parseFloat_empty_not_negative : (parseFloat "" <? 0)%float = false.
Proof. vm_compute. reflexivity. Qed.

Lemma parseFloat_zero_text : parseFloat "0" = 0%float.
Proof. vm_compute. reflexivity. Qed.

(** A text read as a number below 0 is not empty and not read as NaN. *)
Lemma negative_text (value : string) :
  (parseFloat value <? 0)%float = true ->
  negb (String.eqb value "") && negb (is_nan (parseFloat value)) && (parseFloat value <? 0)%float
  = true.
Proof.
  intros H. rewrite H.
  destruct (String.eqb_spec value "") as [->|_].
  - now rewrite parseFloat_empty_not_negative in H.
  - cbn [negb andb]. rewrite andb_true_r. apply negb_true_iff.
    unfold is_nan. revert H. rewrite FloatAxioms.ltb_spec, FloatAxioms.eqb_spec.
    change (Prim2SF 0) with (S754_zero false).
    destruct (Prim2SF _) as [s|s| |s m e]; try destruct s; try discriminate; intros _;
      try reflexivity.
    now rewrite NumFacts.SFeqb_refl_finite.
Qed.

Lemma step_keeps_weight_not_negative (h : BoxForm.hook) (ev : BoxForm.event) :
  (parseFloat (weight (BoxForm.formData h)) <? 0)%float = false ->
  (parseFloat (weight (BoxForm.formData (BoxForm.step h ev))) <? 0)%float = false.
Proof.
  intros H. destruct ev as [x value|x| | |b]; cbn [BoxForm.step]; try exact H.
  - destruct x; try exact H.
    unfold BoxForm.handleChange. cbv zeta.
    destruct (parseFloat value <? 0)%float eqn:Hneg.
    + pose proof (negative_text _ Hneg) as Hc. rewrite Hneg in Hc. rewrite Hc.
      cbn. rewrite parseFloat_zero_text. reflexivity.
    + rewrite andb_false_r. cbn. exact Hneg.
  - exact parseFloat_empty_not_negative.
Qed.

Lemma weight_never_negative (evs : list BoxForm.event) : forall h,
  (parseFloat (weight (BoxForm.formData h)) <? 0)%float = false ->
  (parseFloat (weight (BoxForm.formData (fold_left BoxForm.step evs h))) <? 0)%float = false.
Proof.
  induction evs as [|ev evs IH]; intros h H; [exact H|].
  cbn [fold_left]. now apply IH, step_keeps_weight_not_negative.
Qed.

(** X11: whatever is typed, blurred, validated or reset, the weight field
    never holds a text that is read as a number below 0, so the validation
    of the form never answers with its message for negative weights. *)
Theorem form_weight_never_negative (evs : list BoxForm.event) :
  let h := fold_left BoxForm.step evs BoxForm.initial in
  (parseFloat (weight (BoxForm.formData h)) <? 0)%float = false /\
  weight_message (formData_of (BoxForm.formData h)) <>
    Some "Negative values are not permitted for weight.".
Proof.
  cbv zeta.
  pose proof (weight_never_negative evs BoxForm.initial parseFloat_empty_not_negative) as H.
  split; [exact H|].
  rewrite weight_message_cases. cbn [formData_of Utils.weight Utils.parseFloat_value].
  cbv zeta. rewrite H.
  repeat match goal with
         | |- context [if ?b then _ else _] => destruct b
         end; discriminate.
Qed.

(** X12: typing a weight that is read as a number below 0 puts ["0"] in
    the field, sets the error of the field and hands a warning to the
    callback; the other fields stay as they are, and the form then fails
    the validation with the message for a weight of 0. *)
Theorem negative_weight_is_reset (h : BoxForm.hook) (value : string) :
  (parseFloat value <? 0)%float = true ->
  let h' := fst (BoxForm.handleChange h BoxForm.FWeight value) in
  BoxForm.formData h' = BoxForm.set_field BoxForm.FWeight "0" (BoxForm.formData h) /\
  BoxForm.errors h' !! "weight" =
    Some "Negative values are not permitted. Weight has been set to 0." /\
  snd (BoxForm.handleChange h BoxForm.FWeight value) =
    ["Negative values are not permitted for weight. The field has been reset to 0."] /\
  snd (BoxForm.validateForm h') = false /\
  BoxForm.errors (fst (BoxForm.validateForm h')) !! "weight" =
    Some "Weight must be greater than 0 kg.".
Proof.
  intros Hneg. cbv zeta. unfold BoxForm.handleChange. cbv zeta.
  rewrite (negative_text _ Hneg). cbn [fst snd BoxForm.formData BoxForm.errors].
  split; [reflexivity|]. split; [apply lookup_insert_eq|]. split; [reflexivity|].
  unfold BoxForm.validateForm. cbn [fst snd BoxForm.formData BoxForm.errors].
  set (f := formData_of _).
  assert (Hmsg : weight_message f = Some "Weight must be greater than 0 kg.").
  { rewrite weight_message_cases. subst f.
    cbn [formData_of Utils.weight BoxForm.set_field weight Utils.parseFloat_value truthy].
    rewrite parseFloat_zero_text. reflexivity. }
  split; [|exact Hmsg].
  destruct (Utils.isValid (Utils.validateBoxForm f)) eqn:Hv; [|reflexivity].
  apply isValid_iff_no_errors in Hv. unfold weight_message in Hmsg.
  rewrite Hv, lookup_empty in Hmsg. discriminate.
Qed.

(** X12 on the text [-5] typed into the empty form. *)
Lemma negative_weight_is_reset_witness :
  let h' := fst (BoxForm.handleChange BoxForm.initial BoxForm.FWeight "-5") in
  BoxForm.formData h' =
    BoxForm.set_field BoxForm.FWeight "0" (BoxForm.formData BoxForm.initial) /\
  BoxForm.errors h' !! "weight" =
    Some "Negative values are not permitted. Weight has been set to 0." /\
  snd (BoxForm.handleChange BoxForm.initial BoxForm.FWeight "-5") =
    ["Negative values are not permitted for weight. The field has been reset to 0."] /\
  snd (BoxForm.validateForm h') = false /\
  BoxForm.errors (fst (BoxForm.validateForm h')) !! "weight" =
    Some "Weight must be greater than 0 kg.".
Proof.
  apply (negative_weight_is_reset BoxForm.initial "-5"). vm_compute. reflexivity.
Defined.

(** X13: after [validateForm] the form has errors exactly when the
    validation failed: every message it sets is a text that is not empty. *)
Theorem hasErrors_after_validateForm (h : BoxForm.hook) :
  BoxForm.hasErrors (fst (BoxForm.validateForm h)) = negb (snd (BoxForm.validateForm h)).
Proof.
  unfold BoxForm.validateForm, BoxForm.hasErrors. cbn [fst snd BoxForm.errors].
  set (f := formData_of _).
  pose proof (validateBoxForm_entries_sound f) as Hsound.
  destruct (map_to_list (Utils.errors (Utils.validateBoxForm f))) as [|[k m] rest] eqn:Hl.
  - apply map_to_list_empty_iff in Hl.
    apply isValid_iff_no_errors in Hl. now rewrite Hl.
  - assert (Hk : Utils.errors (Utils.validateBoxForm f) !! k = Some m).
    { apply elem_of_map_to_list. rewrite Hl. left. }
    destruct (Hsound k m Hk) as [_ Hm].
    destruct (Utils.isValid (Utils.validateBoxForm f)) eqn:Hv.
    + apply isValid_iff_no_errors in Hv. rewrite Hv, lookup_empty in Hk. discriminate.
    + cbn [existsb snd negb]. destruct m; [contradiction | reflexivity].
Qed.

End FormHook.

(** * Invariants of the store *)

Module StoreInvariants.
Import Str Form Store Spec Scenario Aux Rules StrFacts StoreFacts.
Local Open Scope list_scope.

(** ** What the three action functions do, case by case *)

Lemma message_or_generic_not_empty (e : string) : message_or_generic e <> "".
Proof. unfold message_or_generic. destruct (String.eqb_spec e ""); [discriminate | assumption]. Qed.

Lemma addBox_failure (s : state) (d : option boxData) (env : environment) (s' : state) (e : string) :
  addBox s d env = (s', Failure e) -> s' = failed s e /\ e <> "".
Proof.
  destruct d as [d|].
  - destruct (Utils.calculateShippingCost (Some (bd_weight d)) (Some (bd_country d)))
      as [cost|e0] eqn:Hc.
    + rewrite (addBox_priced _ _ _ _ Hc). discriminate.
    + rewrite (addBox_throws _ _ _ _ Hc). intros [= <- <-].
      split; [reflexivity | apply message_or_generic_not_empty].
  - intros [= <- <-]. split; [reflexivity | discriminate].
Qed.

Lemma addBox_success (s : state) (d : option boxData) (env : environment)
    (s' : state) (m : string) (i : option string) :
  addBox s d env = (s', Success m i) ->
  exists b cost,
    d = Some b /\
    Utils.calculateShippingCost (Some (bd_weight b)) (Some (bd_country b)) = Ok cost /\
    s' = {| boxes := boxes s ++ [new_box b cost env]; loading := false; error := None;
            statistics := calculateStatistics (boxes s ++ [new_box b cost env]) |} /\
    m = BOX_ADDED /\ i = Some (generateId env).
Proof.
  destruct d as [d|]; [|discriminate].
  destruct (Utils.calculateShippingCost (Some (bd_weight d)) (Some (bd_country d)))
    as [cost|e0] eqn:Hc.
  - rewrite (addBox_priced _ _ _ _ Hc). intros [= <- <- <-]. exists d, cost. auto.
  - rewrite (addBox_throws _ _ _ _ Hc). discriminate.
Qed.

Lemma removeBox_failure (s : state) (i : option string) (s' : state) (e : string) :
  removeBox s i = (s', Failure e) -> s' = failed s e /\ e <> "".
Proof.
  destruct i as [[|c i]|]; try discriminate;
    intros [= <- <-]; split; try reflexivity; discriminate.
Qed.

Lemma removeBox_success (s : state) (i : option string) (s' : state) (m : string)
    (o : option string) :
  removeBox s i = (s', Success m o) ->
  exists j,
    i = Some j /\ j <> "" /\
    s' = {| boxes := List.filter (fun b => negb (String.eqb (id b) j)) (boxes s);
            loading := loading s; error := None;
            statistics :=
              calculateStatistics (List.filter (fun b => negb (String.eqb (id b) j)) (boxes s)) |}.
Proof.
  destruct i as [[|c i]|]; try discriminate.
  intros [= <- _ _]. exists (String c i). split; [reflexivity|]. split; [discriminate|reflexivity].
Qed.

Lemma updateBox_failure_state (s : state) (i : option string) (f : option updates)
    (now : string) (s' : state) (e : string) :
  updateBox s i f now = (s', Failure e) -> s' = failed s e /\ e <> "".
Proof.
  unfold updateBox, updateBox_in.
  destruct i as [[|c i]|], f as [f|];
    try (intros [= <- <-]; split; [reflexivity | discriminate]).
  destruct (match u_weight f, u_country f with None, None => _ | _, _ => _ end) as [cost|e0];
    [discriminate|].
  intros [= <- <-]. split; [reflexivity | apply message_or_generic_not_empty].
Qed.

Lemma updateBox_success_state (s : state) (i : option string) (f : option updates)
    (now : string) (s' : state) (m : string) (o : option string) :
  updateBox s i f now = (s', Success m o) ->
  exists j g cost,
    i = Some j /\ j <> "" /\ f = Some g /\
    s' = {| boxes := updated j (dispatched g cost now) (boxes s);
            loading := loading s; error := None;
            statistics := calculateStatistics (updated j (dispatched g cost now) (boxes s)) |} /\
    (reprices g = false -> cost = u_shippingCost g) /\
    (reprices g = true ->
       match List.find (fun b => String.eqb (id b) j) (boxes s) with
       | Some b =>
           exists c, cost = Some c /\
             Utils.calculateShippingCost (Some (or_else (u_weight g) (weight b)))
                                         (Some (or_else (u_country g) (country b))) = Ok c
       | None => cost = u_shippingCost g
       end).
Proof.
  intros H.
  destruct i as [j|]; [|discriminate].
  destruct f as [g|]; [|destruct j; discriminate].
  assert (Hj : j <> "") by (destruct j; [discriminate H | discriminate]).
  destruct (updateBox_success _ _ _ _ _ _ _ H) as (cost & -> & Hold & Hnew).
  exists j, g, cost. repeat split; assumption.
Qed.

(** ** Ids *)

Lemma length_of_updated (i : string) (u : updates) (bs : list box) :
  length (updated i u bs) = length bs.
Proof. unfold updated. apply length_map. Qed.

Lemma ids_of_updated (i : string) (u : updates) (bs : list box) :
  u_id u = None -> map id (updated i u bs) = map id bs.
Proof.
  intros Hu. unfold updated. rewrite map_map. apply map_ext. intros b.
  destruct (String.eqb (id b) i); [|reflexivity]. cbn [merge id]. now rewrite Hu.
Qed.

Lemma created_of_updated (i : string) (u : updates) (bs : list box) :
  u_createdAt u = None -> map createdAt (updated i u bs) = map createdAt bs.
Proof.
  intros Hu. unfold updated. rewrite map_map. apply map_ext. intros b.
  destruct (String.eqb (id b) i); [|reflexivity]. cbn [merge createdAt]. now rewrite Hu.
Qed.

Lemma others_of_updated (i : string) (u : updates) (bs : list box) :
  Forall2 (fun b b' => id b <> i -> b' = b) bs (updated i u bs).
Proof.
  unfold updated. apply Forall2_map_r. intros b _ Hne.
  apply String.eqb_neq in Hne. now rewrite Hne.
Qed.

Lemma NoDup_ids_filter (p : box -> bool) (bs : list box) :
  List.NoDup (map id bs) -> List.NoDup (map id (List.filter p bs)).
Proof.
  induction bs as [|b bs IH]; intros H; [constructor|].
  inversion H as [|? ? Hnot Hrest]; subst. cbn [List.filter].
  destruct (p b); [|now apply IH].
  cbn [map]. constructor; [|now apply IH].
  intros Hin. apply Hnot. apply in_map_iff in Hin as (c & Hc & Hin).
  apply filter_In in Hin as [Hin _]. rewrite <- Hc. now apply in_map.
Qed.

Lemma NoDup_ids_snoc (b : box) (bs : list box) :
  List.NoDup (map id bs) -> ~ In (id b) (map id bs) -> List.NoDup (map id (bs ++ [b])).
Proof.
  intros Hnd Hnot. rewrite map_app. cbn [map].
  apply List.NoDup_app.
  - exact Hnd.
  - repeat constructor. intros [].
  - intros x Hx [<-|[]]. contradiction.
Qed.

Lemma filter_none_with_id (i : string) (bs : list box) :
  ~ In i (map id bs) -> List.filter (fun b => negb (String.eqb (id b) i)) bs = bs.
Proof.
  induction bs as [|b bs IH]; intros H; [reflexivity|].
  cbn [List.filter]. destruct (String.eqb_spec (id b) i) as [Heq|Hne].
  - exfalso. apply H. left. exact Heq.
  - cbn [negb]. f_equal. apply IH. intros Hin. apply H. now right.
Qed.

Lemma updated_none_with_id (i : string) (u : updates) (bs : list box) :
  ~ In i (map id bs) -> updated i u bs = bs.
Proof.
  unfold updated. induction bs as [|b bs IH]; intros H; [reflexivity|].
  cbn [map]. destruct (String.eqb_spec (id b) i) as [Heq|Hne].
  - exfalso. apply H. left. exact Heq.
  - f_equal. apply IH. intros Hin. apply H. now right.
Qed.

Lemma find_no_id (i : string) (bs : list box) :
  ~ In i (map id bs) -> List.find (fun b => String.eqb (id b) i) bs = None.
Proof.
  induction bs as [|b bs IH]; intros H; [reflexivity|].
  cbn [List.find]. destruct (String.eqb_spec (id b) i) as [Heq|Hne].
  - exfalso. apply H. left. exact Heq.
  - apply IH. intros Hin. apply H. now right.
Qed.

(** ** Consistent costs *)

Lemma updated_consistent (s : state) (j : string) (g : updates) (cost : option float)
    (now : string) :
  List.NoDup (map id (boxes s)) ->
  Forall consistent (boxes s) ->
  reprices g = true \/ u_shippingCost g = None ->
  (reprices g = false -> cost = u_shippingCost g) ->
  (reprices g = true ->
     match List.find (fun b => String.eqb (id b) j) (boxes s) with
     | Some b =>
         exists c, cost = Some c /\
           Utils.calculateShippingCost (Some (or_else (u_weight g) (weight b)))
                                       (Some (or_else (u_country g) (country b))) = Ok c
     | None => cost = u_shippingCost g
     end) ->
  Forall consistent (updated j (dispatched g cost now) (boxes s)).
Proof.
  intros Hnd Hcons Hown Hold Hnew. unfold updated.
  rewrite List.Forall_forall in *. intros b' Hb'.
  apply in_map_iff in Hb' as (b & <- & Hb).
  destruct (String.eqb_spec (id b) j) as [Hid|Hid]; [|now apply Hcons].
  unfold consistent. cbn [merge dispatched weight country shippingCost u_weight u_country
                            u_shippingCost].
  destruct (reprices g) eqn:Hr.
  - specialize (Hnew eq_refl). rewrite (find_by_id j _ b Hnd Hb Hid) in Hnew.
    destruct Hnew as (c & -> & Hc). exact Hc.
  - rewrite (Hold eq_refl). destruct Hown as [Hown|Hown]; [discriminate|]. rewrite Hown.
    unfold reprices in Hr.
    destruct (u_weight g), (u_country g); try discriminate.
    cbn [or_else]. now apply Hcons.
Qed.

(** ** The three invariants *)

Lemma invariant_failed (s : state) (e : string) : invariant s -> invariant (failed s e).
Proof. intros H. exact H. Qed.

Lemma perform_invariant (s : state) (c : call) :
  invariant s ->
  match c with
  | Add _ env => ~ In (generateId env) (map id (boxes s))
  | _ => True
  end ->
  own_fields c ->
  invariant (perform s c).
Proof.
  intros (Hnd & Hcons & Hstat) Hfresh Hown.
  destruct c as [d env|i|i f now| |]; cbn [perform].
  - destruct (addBox s d env) as [s' [m o|e]] eqn:Hadd; cbn [fst].
    + apply addBox_success in Hadd as (b & cost & -> & Hc & -> & _ & _).
      split; [|split; [|reflexivity]]; cbn [boxes].
      * now apply NoDup_ids_snoc.
      * apply Forall_app. split; [exact Hcons|]. repeat constructor. exact Hc.
    + apply addBox_failure in Hadd as [-> _]. now apply invariant_failed.
  - destruct (removeBox s i) as [s' [m o|e]] eqn:Hrem; cbn [fst].
    + apply removeBox_success in Hrem as (j & -> & _ & ->).
      split; [|split; [|reflexivity]]; cbn [boxes].
      * now apply NoDup_ids_filter.
      * rewrite List.Forall_forall in *. intros b Hb. apply filter_In in Hb as [Hb _].
        now apply Hcons.
    + apply removeBox_failure in Hrem as [-> _]. now apply invariant_failed.
  - destruct (updateBox s i f now) as [s' [m o|e]] eqn:Hup; cbn [fst].
    + apply updateBox_success_state in Hup as (j & g & cost & -> & _ & -> & -> & Hold & Hnew).
      destruct Hown as [Hid Hown].
      split; [|split; [|reflexivity]]; cbn [boxes].
      * now rewrite ids_of_updated.
      * now apply updated_consistent.
    + apply updateBox_failure_state in Hup as [-> _]. now apply invariant_failed.
  - now repeat split.
  - now repeat split.
Qed.

Lemma perform_all_invariant (cs : list call) : forall s,
  invariant s -> fresh_ids s cs -> Forall own_fields cs -> invariant (perform_all s cs).
Proof.
  induction cs as [|c cs IH]; intros s Hinv Hfresh Hown; [exact Hinv|].
  destruct Hfresh as [Hc Hrest]. inversion Hown as [|? ? Hoc Hocs]; subst.
  unfold perform_all. cbn [fold_left].
  apply IH; [now apply perform_invariant | exact Hrest | exact Hocs].
Qed.



(** ** Failures and successes *)

(** X15: an action function that reports a failure has left the records
    and the statistics as they were; the error of the store is the message
    it returns, which is never empty, and the store is not loading. *)
Theorem failed_call_changes_no_record (s : state) (c : call) (e : string) :
  answer s c = Some (Failure e) ->
  boxes (perform s c) = boxes s /\
  statistics (perform s c) = statistics s /\
  error (perform s c) = Some e /\
  loading (perform s c) = false /\
  e <> "".
Proof.
  destruct c as [d env|i|i f now| |]; cbn [answer perform]; try discriminate.
  - destruct (addBox s d env) as [s' o] eqn:H. cbn [fst snd]. intros [= ->].
    apply addBox_failure in H as [-> He]. auto.
  - destruct (removeBox s i) as [s' o] eqn:H. cbn [fst snd]. intros [= ->].
    apply removeBox_failure in H as [-> He]. auto.
  - destruct (updateBox s i f now) as [s' o] eqn:H. cbn [fst snd]. intros [= ->].
    apply updateBox_failure_state in H as [-> He]. auto.
Qed.

(** X15 on a removal without an id. *)
Lemma failed_call_changes_no_record_witness :
  let s := fst (addBox createInitialState (Some alice) env0) in
  boxes (perform s (Remove None)) = boxes s /\
  statistics (perform s (Remove None)) = statistics s /\
  error (perform s (Remove None)) = Some "Box ID is required" /\
  loading (perform s (Remove None)) = false /\
  "Box ID is required" <> "".
Proof.
  exact (failed_call_changes_no_record
           (fst (addBox createInitialState (Some alice) env0)) (Remove None)
           "Box ID is required" eq_refl).
Defined.

(** X16: an action function that reports a success leaves the store with
    no error; [addBox] then also leaves it not loading and returns the id
    of the record it appended, the last one. *)
Theorem successful_call_clears_error (s : state) (c : call) (m : string) (o : option string) :
  answer s c = Some (Success m o) ->
  error (perform s c) = None /\
  match c with
  | Add _ env =>
      loading (perform s c) = false /\ o = Some (generateId env) /\
      map id (boxes (perform s c)) = map id (boxes s) ++ [generateId env]
  | _ => o = None
  end.
Proof.
  destruct c as [d env|i|i f now| |]; cbn [answer perform]; try discriminate.
  - destruct (addBox s d env) as [s' o'] eqn:H. cbn [fst snd]. intros [= ->].
    apply addBox_success in H as (b & cost & -> & Hc & -> & _ & ->).
    cbn [error loading boxes]. rewrite map_app. auto.
  - destruct (removeBox s i) as [s' o'] eqn:H. cbn [fst snd]. intros [= ->].
    pose proof H as H'. apply removeBox_success in H as (j & -> & _ & ->).
    split; [reflexivity|]. destruct j; [discriminate|]. now injection H'.
  - destruct (updateBox s i f now) as [s' o'] eqn:H. cbn [fst snd]. intros [= ->].
    pose proof H as H'.
    apply updateBox_success_state in H as (j & g & cost & -> & _ & -> & -> & _).
    split; [reflexivity|]. unfold updateBox, updateBox_in in H'. destruct j; [discriminate|].
    destruct (match u_weight g, u_country g with None, None => _ | _, _ => _ end);
      [now injection H' | discriminate].
Qed.

(** X16 on the addition of Alice's record. *)
Lemma successful_call_clears_error_witness :
  error (perform createInitialState (Add (Some alice) env0)) = None /\
  loading (perform createInitialState (Add (Some alice) env0)) = false /\
  Some (generateId env0) = Some (generateId env0) /\
  map id (boxes (perform createInitialState (Add (Some alice) env0))) =
    map id (boxes createInitialState) ++ [generateId env0].
Proof.
  exact (successful_call_clears_error createInitialState (Add (Some alice) env0)
           BOX_ADDED (Some (generateId env0)) eq_refl).
Defined.

(** ** Adding and removing *)

(** X17: removing the id [addBox] returned, when that id was new to the
    store, gives back the records there were before the addition. *)
Theorem remove_undoes_add (s s1 : state) (d : option boxData) (env : environment)
    (m i : string) :
  ~ In (generateId env) (map id (boxes s)) ->
  addBox s d env = (s1, Success m (Some i)) ->
  boxes (fst (removeBox s1 (Some i))) = boxes s /\
  statistics (fst (removeBox s1 (Some i))) = calculateStatistics (boxes s) /\
  snd (removeBox s1 (Some i)) = Success "Box removed successfully" None.
Proof.
  intros Hfresh Hadd.
  apply addBox_success in Hadd as (b & cost & -> & Hc & -> & _ & [= ->]).
  assert (Hrm : forall s2, removeBox s2 (Some (generateId env)) =
            (boxReducer s2 (REMOVE_BOX (Some (generateId env))),
             Success "Box removed successfully" None)) by reflexivity.
  rewrite Hrm. cbn [fst snd].
  unfold boxReducer, boxReducer_console, transition. cbn [fst boxes statistics].
  rewrite List.filter_app. cbn [List.filter new_box id].
  rewrite String.eqb_refl. cbn [negb].
  rewrite app_nil_r, (filter_none_with_id _ _ Hfresh). auto.
Qed.

(** X17 on Alice's record and the empty store. *)
Lemma remove_undoes_add_witness :
  let s1 := fst (addBox createInitialState (Some alice) env0) in
  boxes (fst (removeBox s1 (Some (generateId env0)))) = boxes createInitialState /\
  statistics (fst (removeBox s1 (Some (generateId env0)))) =
    calculateStatistics (boxes createInitialState) /\
  snd (removeBox s1 (Some (generateId env0))) = Success "Box removed successfully" None.
Proof.
  apply (remove_undoes_add createInitialState _ (Some alice) env0 BOX_ADDED (generateId env0)).
  - intros [].
  - vm_compute. reflexivity.
Defined.

(** ** Ids no record has *)

(** X18: for an id that is not empty and that no record has, [removeBox]
    and [updateBox] both report a success and leave the records as they
    are; [updateBox] prices nothing, so it succeeds whatever the fields. *)
Theorem unknown_id_reports_success (s : state) (i : string) (f : updates) (now : string) :
  i <> "" ->
  ~ In i (map id (boxes s)) ->
  removeBox s (Some i) =
    ({| boxes := boxes s; loading := loading s; error := None;
        statistics := calculateStatistics (boxes s) |},
     Success "Box removed successfully" None) /\
  updateBox s (Some i) (Some f) now =
    ({| boxes := boxes s; loading := loading s; error := None;
        statistics := calculateStatistics (boxes s) |},
     Success "Box updated successfully" None).
Proof.
  intros Hi Hno. destruct i as [|c i]; [contradiction|]. split.
  - cbn [removeBox]. unfold boxReducer, boxReducer_console, transition. cbn [fst].
    now rewrite (filter_none_with_id _ _ Hno).
  - unfold updateBox, updateBox_in. rewrite (find_no_id _ _ Hno).
    assert (Hre : match u_weight f, u_country f with
                  | None, None => @Ok (option float) (u_shippingCost f)
                  | _, _ => Ok (u_shippingCost f)
                  end = Ok (u_shippingCost f)) by (now destruct (u_weight f), (u_country f)).
    rewrite Hre. unfold boxReducer, boxReducer_console, transition. cbn [fst].
    fold (dispatched f (u_shippingCost f) now).
    fold (updated (String c i) (dispatched f (u_shippingCost f) now) (boxes s)).
    now rewrite (updated_none_with_id _ _ _ Hno).
Qed.

(** X18 on the store that holds Alice's record. *)
Lemma unknown_id_reports_success_witness :
  let s := fst (addBox createInitialState (Some alice) env0) in
  removeBox s (Some "box_0_none") =
    ({| boxes := boxes s; loading := loading s; error := None;
        statistics := calculateStatistics (boxes s) |},
     Success "Box removed successfully" None) /\
  updateBox s (Some "box_0_none") (Some weight_10) "2023-11-15T08:00:00.000Z" =
    ({| boxes := boxes s; loading := loading s; error := None;
        statistics := calculateStatistics (boxes s) |},
     Success "Box updated successfully" None).
Proof.
  apply (unknown_id_reports_success (fst (addBox createInitialState (Some alice) env0))
           "box_0_none" weight_10 "2023-11-15T08:00:00.000Z").
  - discriminate.
  - vm_compute. intros [H|[]]. discriminate H.
Defined.


End StoreInvariants.

(** * Totals and ids *)

Module TotalsAndIds.
Import Str Form Store Spec Scenario Aux Rules StrFacts StoreFacts.
Local Open Scope list_scope.

(** ** Sums that are no NaN *)

Lemma SFeqb_refl (y : spec_float) : y <> S754_nan -> SFeqb y y = true.
Proof.
  destruct y as [s|s| |s m e]; try destruct s; try reflexivity; intros H;
    [now destruct H | | ]; apply NumFacts.SFeqb_refl_finite.
Qed.

Lemma is_nan_spec (x : float) : is_nan x = false <-> Prim2SF x <> S754_nan.
Proof.
  unfold is_nan. rewrite FloatAxioms.eqb_spec. split.
  - intros H Hx. rewrite Hx in H. discriminate.
  - intros H. now rewrite SFeqb_refl.
Qed.

Lemma binary_normalize_not_nan (m e : Z) (szero : bool) :
  binary_normalize prec emax m e szero <> S754_nan.
Proof.
  unfold binary_normalize, binary_round.
  destruct m as [|p|p]; [discriminate| |];
    destruct (shl_align p e _) as [mz ez];
    match goal with
    | |- binary_round_aux _ _ ?sx _ _ _ <> _ =>
        pose proof (PriceBounds.binary_round_aux_sign sx (Zpos mz) ez loc_Exact
                      ltac:(discriminate)) as H
    end;
    intros Heq; rewrite Heq in H; exact H.
Qed.

(** Adding a number that is neither NaN nor an infinity to one that is no
    NaN gives no NaN. *)
Lemma add_not_nan (x y : float) :
  is_nan x = false -> is_nan y = false -> infinite y = false -> is_nan (x + y) = false.
Proof.
  rewrite !is_nan_spec, add_spec. unfold infinite.
  destruct (Prim2SF x) as [s|s| |s m e], (Prim2SF y) as [t|t| |t k f];
    intros Hx Hy Hi; try discriminate; try (now destruct Hx); try (now destruct Hy);
    try (destruct s, t; discriminate).
  apply binary_normalize_not_nan.
Qed.

Lemma or_zero_not_nan (x : float) : is_nan (Num.or_zero x) = false.
Proof.
  unfold Num.or_zero. destruct (Num.truthy x) eqn:Ht; [|reflexivity].
  unfold Num.truthy in Ht. now apply negb_true_iff, orb_false_iff in Ht as [Hn _].
Qed.

Lemma or_zero_not_infinite (x : float) : infinite x = false -> infinite (Num.or_zero x) = false.
Proof. unfold Num.or_zero. now destruct (Num.truthy x). Qed.

Lemma stats_fold_count (bs : list box) : forall acc,
  totalBoxes (fold_left stats_step bs acc) = (totalBoxes acc + N.of_nat (length bs))%N.
Proof.
  induction bs as [|b bs IH]; intros acc; cbn [fold_left length]; [lia|].
  rewrite IH. cbn [stats_step totalBoxes]. lia.
Qed.

Lemma stats_fold_weight (bs : list box) : forall acc,
  is_nan (totalWeight acc) = false ->
  Forall (fun b => infinite (weight b) = false) bs ->
  is_nan (totalWeight (fold_left stats_step bs acc)) = false.
Proof.
  induction bs as [|b bs IH]; intros acc Hacc Hbs; [exact Hacc|].
  inversion Hbs as [|? ? Hb Hrest]; subst. cbn [fold_left]. apply IH; [|exact Hrest].
  cbn [stats_step totalWeight].
  apply add_not_nan; [exact Hacc | apply or_zero_not_nan | now apply or_zero_not_infinite].
Qed.

Lemma stats_fold_cost (bs : list box) : forall acc,
  is_nan (totalCost acc) = false ->
  Forall (fun b => infinite (shippingCost b) = false) bs ->
  is_nan (totalCost (fold_left stats_step bs acc)) = false.
Proof.
  induction bs as [|b bs IH]; intros acc Hacc Hbs; [exact Hacc|].
  inversion Hbs as [|? ? Hb Hrest]; subst. cbn [fold_left]. apply IH; [|exact Hrest].
  cbn [stats_step totalCost].
  apply add_not_nan; [exact Hacc | apply or_zero_not_nan | now apply or_zero_not_infinite].
Qed.

(** X20: the statistics count every record, whatever it holds; and as
    long as no weight (no cost) is an infinity the total weight (the total
    cost) is not NaN: a weight or cost that is NaN counts as 0. *)
Theorem statistics_count_all_and_are_no_nan (bs : list box) :
  totalBoxes (calculateStatistics bs) = N.of_nat (length bs) /\
  (Forall (fun b => infinite (weight b) = false) bs ->
   is_nan (totalWeight (calculateStatistics bs)) = false) /\
  (Forall (fun b => infinite (shippingCost b) = false) bs ->
   is_nan (totalCost (calculateStatistics bs)) = false).
Proof.
  rewrite calculateStatistics_fold. split; [|split].
  - rewrite stats_fold_count. cbn [totalBoxes]. lia.
  - now apply stats_fold_weight.
  - now apply stats_fold_cost.
Qed.

(** ** Generated ids *)

Lemma append_chars (a b : string) : chars (a ++ b)%string = chars a ++ chars b.
Proof.
  unfold chars. induction a as [|c a IH]; [reflexivity|].
  change (list_ascii_of_string (String c a ++ b)%string)
    with (c :: list_ascii_of_string (a ++ b)%string).
  now rewrite IH.
Qed.

(** A run of digits ends at the first underscore. *)
Lemma digits_then_underscore (d1 d2 r1 r2 : list ascii) :
  Forall (fun c => is_digit c = true) d1 ->
  Forall (fun c => is_digit c = true) d2 ->
  d1 ++ "_"%char :: r1 = d2 ++ "_"%char :: r2 -> d1 = d2 /\ r1 = r2.
Proof.
  intros H1. revert d2. induction H1 as [|c d1 Hc H1 IH]; intros d2 H2 Heq.
  - destruct H2 as [|c d2 Hc H2]; cbn in Heq.
    + now injection Heq.
    + injection Heq as <- _. discriminate.
  - destruct H2 as [|c' d2 Hc' H2]; cbn in Heq.
    + injection Heq as -> _. discriminate.
    + injection Heq as <- Heq. destruct (IH d2 H2 Heq) as [-> ->]. auto.
Qed.

(** X21: an id tells the time it was generated at and the random part it
    was generated with: two ids are the same only if both agree, so ids
    generated at different milliseconds differ. *)
Theorem generateId_injective (e1 e2 : environment) :
  generateId e1 = generateId e2 ->
  date_now e1 = date_now e2 /\ random_digits e1 = random_digits e2.
Proof.
  unfold generateId. intros H.
  apply (f_equal chars) in H.
  rewrite !append_chars, !chars_str in H.
  change (chars "box_") with ("b"%char :: "o"%char :: "x"%char :: ["_"%char]) in H.
  change (chars "_") with ["_"%char] in H.
  cbn [app] in H. injection H as H.
  apply digits_then_underscore in H as [Hd Hr]; try apply digits_of_N_digits.
  split.
  - rewrite <- (digits_of_N_value (date_now e1)), <- (digits_of_N_value (date_now e2)).
    now rewrite Hd.
  - rewrite <- (str_chars (random_digits e1)), <- (str_chars (random_digits e2)).
    now rewrite Hr.
Qed.

(** X21 on two calls that return the same id with other timestamps. *)
Lemma generateId_injective_witness :
  let later := {| date_now := 1700000000000; random_digits := "k3j9x0q1z";
                  now_created := "2023-11-14T22:13:20.001Z";
                  now_updated := "2023-11-14T22:13:20.001Z" |} in
  date_now env0 = date_now later /\ random_digits env0 = random_digits later.
Proof.
  exact (generateId_injective env0
           {| date_now := 1700000000000; random_digits := "k3j9x0q1z";
              now_created := "2023-11-14T22:13:20.001Z";
              now_updated := "2023-11-14T22:13:20.001Z" |} eq_refl).
Defined.

End TotalsAndIds.

(** * Submitting the form *)

Module Submission.
Import Str Conv Form Spec Aux Rules StrFacts ValidationFacts ValidationRules FormHook.
Local Open Scope list_scope.

(** ** The country selector *)

Lemma price_of_positive (w : float) (c : string) (r : float) :
  (0 <? w)%float = true -> rate c = Some r ->
  Utils.calculateShippingCost (Some w) (Some c) = Ok (round2 (w * r)).
Proof.
  intros Hw Hr. unfold Utils.calculateShippingCost.
  rewrite (NumFacts.positive_truthy _ Hw), (NumFacts.positive_not_le_zero _ Hw).
  assert (Hc : String.eqb c "" = false).
  { destruct c; [|reflexivity]. rewrite PricingFacts.rate_empty in Hr. discriminate. }
  rewrite Hc. cbn [negb orb].
  rewrite PricingFacts.lookup_rate, Hr, (PricingFacts.rate_truthy _ _ Hr).
  now rewrite ConvFacts.parseFloat_toFixed2.
Qed.

(** Every option of the selector is a key of the rates, as it is written. *)
Lemma countries_have_rates (c : string) :
  In c AddBox.countries -> exists r, SHIPPING_RATES !! c = Some r /\ rate c = Some r.
Proof.
  intros [<-|[<-|[<-|[<-|[]]]]]; eexists; split; reflexivity.
Qed.

(** X22: a valid form whose country is one of the options of the selector
    is always added: pricing cannot fail. The record appended carries the
    price of its weight and country, and the store ends with no error and
    not loading. The estimate the form shows for it is what
    [formatCurrency], whatever it prints, makes of the weight times the
    rate of that option. *)
Theorem valid_form_with_listed_country_is_added
    (formatCurrency : float -> string)
    (s : Store.state) (f : formState) (env : Store.environment) :
  validateForm f = true ->
  In (country f) AddBox.countries ->
  exists r price,
    SHIPPING_RATES !! country f = Some r /\
    AddBox.getEstimatedCost formatCurrency f =
      Some (formatCurrency (parseFloat (weight f) * r)%float) /\
    Utils.calculateShippingCost (Some (parseFloat (weight f))) (Some (country f)) = Ok price /\
    Store.handleSubmit s f env =
      {| Store.boxes := Store.boxes s ++ [new_box (getSubmissionData f) price env];
         Store.loading := false;
         Store.error := None;
         Store.statistics :=
           Store.calculateStatistics
             (Store.boxes s ++ [new_box (getSubmissionData f) price env]) |}.
Proof.
  intros Hv Hin.
  destruct (validateForm_accepts f Hv) as (_ & _ & Hw & Hp & _ & Hc).
  destruct (countries_have_rates _ Hin) as (r & Hlook & Hrate).
  pose proof (price_of_positive _ _ _ Hp Hrate) as Hprice.
  exists r, (round2 (parseFloat (weight f) * r)). split; [exact Hlook|]. split; [|split].
  - unfold AddBox.getEstimatedCost.
    apply String.eqb_neq in Hw, Hc. now rewrite Hw, Hc, Hp, Hlook.
  - exact Hprice.
  - unfold Store.handleSubmit. rewrite Hv.
    now rewrite (StoreFacts.addBox_priced _ (getSubmissionData f) _ _ Hprice).
Qed.

(** X22 on two and a half kilograms for China, the amount printed as its
    shortest decimal. *)
Lemma valid_form_with_listed_country_is_added_witness :
  let f := {| receiverName := "  Alice "; weight := "2.5"; boxColor := "#3498db";
              country := "CHINA" |} in
  exists r price,
    SHIPPING_RATES !! country f = Some r /\
    AddBox.getEstimatedCost Number_toString f =
      Some (Number_toString (parseFloat (weight f) * r)%float) /\
    Utils.calculateShippingCost (Some (parseFloat (weight f))) (Some (country f)) = Ok price /\
    Store.handleSubmit Store.createInitialState f Scenario.env0 =
      {| Store.boxes :=
           Store.boxes Store.createInitialState ++
             [new_box (getSubmissionData f) price Scenario.env0];
         Store.loading := false;
         Store.error := None;
         Store.statistics :=
           Store.calculateStatistics
             (Store.boxes Store.createInitialState ++
                [new_box (getSubmissionData f) price Scenario.env0]) |}.
Proof.
  apply (valid_form_with_listed_country_is_added Number_toString Store.createInitialState
           {| receiverName := "  Alice "; weight := "2.5"; boxColor := "#3498db";
              country := "CHINA" |} Scenario.env0).
  - vm_compute. reflexivity.
  - right. left. reflexivity.
Defined.

(** ** The three outcomes of a submission *)

Lemma missing_message_not_empty (e : gmap string string) :
  String.eqb (AddBox.missing_message e) "" = false.
Proof.
  unfold AddBox.missing_message.
  destruct (BoxForm.truthy_entry (e !! "receiverName")),
    (BoxForm.truthy_entry (e !! "weight")), (BoxForm.truthy_entry (e !! "country")); reflexivity.
Qed.

(** X23: a submission has three outcomes, and each shows a notification.
    An invalid form leaves the form data as they are, sets the errors the
    validation found and shows an error made from the errors there were
    before; a form that is added is reset to the initial one and a success
    is shown; a valid form whose addition fails keeps its data, is no
    longer submitting, and an error is shown. The store changes as the
    validation and [addBox] say. *)
Theorem submit_outcomes (v : AddBox.view) (env : Store.environment) :
  let f := BoxForm.formData (AddBox.form v) in
  let v' := AddBox.handleSubmit v env in
  AddBox.store v' = Store.handleSubmit (AddBox.store v) f env /\
  Notification.rendered (AddBox.notification v') = true /\
  (validateForm f = false ->
     BoxForm.formData (AddBox.form v') = f /\
     BoxForm.errors (AddBox.form v') = Utils.errors (Utils.validateBoxForm (formData_of f)) /\
     AddBox.notification v' =
       Notification.showError (AddBox.missing_message (BoxForm.errors (AddBox.form v)))) /\
  (validateForm f = true ->
     match snd (Store.addBox (Store.clearError (AddBox.store v)) (Some (getSubmissionData f)) env)
     with
     | Store.Success _ _ =>
         AddBox.form v' = BoxForm.initial /\
         AddBox.notification v' = Notification.showSuccess BOX_ADDED
     | Store.Failure _ =>
         BoxForm.formData (AddBox.form v') = f /\
         BoxForm.isSubmitting (AddBox.form v') = false /\
         AddBox.notification v' =
           Notification.showError "An error occurred while saving the box. Please try again."
     end).
Proof.
  cbv zeta. unfold AddBox.handleSubmit, AddBox.validateAndShowErrors, BoxForm.validateForm,
    Store.handleSubmit, validateForm.
  cbn [AddBox.form AddBox.store AddBox.notification].
  set (f := BoxForm.formData (AddBox.form v)).
  destruct (Utils.isValid (Utils.validateBoxForm (formData_of f))) eqn:Hv; cbn [negb].
  - cbn [AddBox.store AddBox.form BoxForm.formData].
    destruct (Store.addBox _ _ env) as [s3 [m o|e]] eqn:Hadd; cbn [fst snd].
    + apply StoreInvariants.addBox_success in Hadd as (b & cost & _ & _ & _ & -> & _).
      repeat split; discriminate.
    + repeat split; discriminate.
  - cbn [AddBox.store AddBox.form AddBox.notification BoxForm.formData BoxForm.errors].
    split; [reflexivity|]. split; [|split; [now intros _ | discriminate]].
    unfold Notification.rendered. cbn. now rewrite missing_message_not_empty.
Qed.

(** ** Naming the fields *)

Lemma name_entry (f : Utils.formData) :
  BoxForm.truthy_entry (Utils.errors (Utils.validateBoxForm f) !! "receiverName") = false <->
  accepted_name (Utils.receiverName f).
Proof.
  rewrite <- receiverName_errors_empty.
  unfold Utils.validateBoxForm. cbn [Utils.errors].
  assert (H1 : Utils.country_errors f (Utils.weight_errors f (Utils.receiverName_errors f ∅))
                 !! "receiverName" = Utils.receiverName_errors f ∅ !! "receiverName").
  { unfold Utils.country_errors, Utils.weight_errors. cbv zeta.
    repeat match goal with
           | |- context [match ?b with _ => _ end] =>
               match b with
               | Utils.country f => destruct b as [[|? ?]|]
               | _ => destruct b
               end
           end; rewrite ?lookup_insert_ne by discriminate; reflexivity. }
  rewrite H1. unfold Utils.receiverName_errors.
  destruct (String.eqb _ ""); [|destruct (_ <? _)%nat];
    rewrite ?lookup_insert_eq, ?lookup_empty; cbn;
    split; intros H; try reflexivity; try discriminate; now apply insert_non_empty in H.
Qed.

Lemma weight_entry (f : Utils.formData) :
  BoxForm.truthy_entry (Utils.errors (Utils.validateBoxForm f) !! "weight") = false <->
  accepted_weight (Utils.weight f).
Proof.
  change (Utils.errors (Utils.validateBoxForm f) !! "weight") with (weight_message f).
  rewrite weight_message_cases.
  pose proof (weight_rule_range (Utils.parseFloat_value (Utils.weight f))) as Hr.
  unfold accepted_weight. destruct (truthy (Utils.weight f)); cbn [negb].
  - cbv zeta.
    destruct (is_nan _) eqn:Hn, (_ <? 0)%float eqn:Hl, (_ =? 0)%float eqn:Hz,
      (10000 <? _)%float eqn:Hm; cbn [BoxForm.truthy_entry];
      try (split; [discriminate|]; intros (_ & H1 & H2);
           destruct (proj2 Hr (conj H1 H2)) as (? & ? & ? & ?); discriminate).
    split; [|reflexivity]. intros _. split; [reflexivity|]. apply Hr. auto.
  - cbn. split; [discriminate | now intros [[=] _]].
Qed.

Lemma country_entry (f : Utils.formData) :
  BoxForm.truthy_entry (Utils.errors (Utils.validateBoxForm f) !! "country") = false <->
  accepted_country (Utils.country f).
Proof.
  unfold Utils.validateBoxForm, Utils.country_errors, accepted_country. cbn [Utils.errors].
  destruct (Utils.country f) as [[|c s]|].
  - rewrite lookup_insert_eq. cbn. split; [discriminate|].
    intros (s' & [= <-] & H). contradiction.
  - assert (H1 : Utils.weight_errors f (Utils.receiverName_errors f ∅) !! "country" = None).
    { unfold Utils.weight_errors, Utils.receiverName_errors. cbv zeta.
      repeat match goal with
             | |- context [if ?b then _ else _] => destruct b
             end; rewrite ?lookup_insert_ne by discriminate; apply lookup_empty. }
    rewrite H1. cbn. split; [|reflexivity]. intros _.
    exists (String c s). split; [reflexivity | discriminate].
  - rewrite lookup_insert_eq. cbn. split; [discriminate|]. intros (s' & [=] & _).
Qed.

(** The names the message lists for an error map. *)
Lemma missing_message_fields (e : gmap string string) :
  BoxForm.truthy_entry (e !! "receiverName") = true \/
  BoxForm.truthy_entry (e !! "weight") = true \/
  BoxForm.truthy_entry (e !! "country") = true ->
  AddBox.missing_message e =
    ("Please fill in the following required fields: " ++
     AddBox.join ", " (listed (BoxForm.truthy_entry (e !! "receiverName"))
                              (BoxForm.truthy_entry (e !! "weight"))
                              (BoxForm.truthy_entry (e !! "country"))))%string.
Proof.
  unfold AddBox.missing_message, listed.
  destruct (BoxForm.truthy_entry (e !! "receiverName")),
    (BoxForm.truthy_entry (e !! "weight")), (BoxForm.truthy_entry (e !! "country"));
    cbn [app]; intros H; try reflexivity.
  exfalso. destruct H as [H|[H|H]]; discriminate.
Qed.

(** X24: when a form that fails the validation, and whose receiver name is
    a text of ASCII characters, is submitted a second time with nothing
    changed in between, the error shown lists exactly the fields the
    validation rejects, in the order receiver name, weight, country. *)
Theorem second_submit_names_rejected_fields
    (v : AddBox.view) (env1 env2 : Store.environment) :
  let f := formData_of (BoxForm.formData (AddBox.form v)) in
  ascii_or_absent (Utils.receiverName f) ->
  Utils.isValid (Utils.validateBoxForm f) = false ->
  exists name weight country : bool,
    (name = false <-> accepted_name (Utils.receiverName f)) /\
    (weight = false <-> accepted_weight (Utils.weight f)) /\
    (country = false <-> accepted_country (Utils.country f)) /\
    AddBox.notification (AddBox.handleSubmit (AddBox.handleSubmit v env1) env2) =
      Notification.showError
        ("Please fill in the following required fields: " ++
         AddBox.join ", " (listed name weight country))%string.
Proof.
  cbv zeta. intros _ Hv.
  set (f := formData_of (BoxForm.formData (AddBox.form v))) in *.
  set (e := Utils.errors (Utils.validateBoxForm f)).
  assert (Hshown : AddBox.notification (AddBox.handleSubmit (AddBox.handleSubmit v env1) env2) =
                   Notification.showError (AddBox.missing_message e)).
  { unfold AddBox.handleSubmit, AddBox.validateAndShowErrors, BoxForm.validateForm.
    cbn [AddBox.form AddBox.store AddBox.notification].
    fold f. rewrite Hv. cbn [negb AddBox.form AddBox.store AddBox.notification BoxForm.formData
                             BoxForm.errors].
    fold f. rewrite Hv. reflexivity. }
  assert (Hsome : BoxForm.truthy_entry (e !! "receiverName") = true \/
                  BoxForm.truthy_entry (e !! "weight") = true \/
                  BoxForm.truthy_entry (e !! "country") = true).
  { destruct (BoxForm.truthy_entry (e !! "receiverName")) eqn:H1; [now left|].
    destruct (BoxForm.truthy_entry (e !! "weight")) eqn:H2; [now right; left|].
    destruct (BoxForm.truthy_entry (e !! "country")) eqn:H3; [now right; right|].
    exfalso. apply name_entry in H1. apply weight_entry in H2. apply country_entry in H3.
    assert (Utils.isValid (Utils.validateBoxForm f) = true)
      by (apply validateBoxForm_accepts; auto).
    congruence. }
  exists (BoxForm.truthy_entry (e !! "receiverName")),
         (BoxForm.truthy_entry (e !! "weight")),
         (BoxForm.truthy_entry (e !! "country")).
  split; [apply name_entry|]. split; [apply weight_entry|]. split; [apply country_entry|].
  rewrite Hshown. now rewrite (missing_message_fields e Hsome).
Qed.

(** X24 on the form as it is at the start. *)
Lemma second_submit_names_rejected_fields_witness :
  let f := formData_of (BoxForm.formData (AddBox.form AddBox.initial)) in
  exists name weight country : bool,
    (name = false <-> accepted_name (Utils.receiverName f)) /\
    (weight = false <-> accepted_weight (Utils.weight f)) /\
    (country = false <-> accepted_country (Utils.country f)) /\
    AddBox.notification
      (AddBox.handleSubmit (AddBox.handleSubmit AddBox.initial Scenario.env0) Scenario.env0) =
      Notification.showError
        ("Please fill in the following required fields: " ++
         AddBox.join ", " (listed name weight country))%string.
Proof.
  exact (second_submit_names_rejected_fields AddBox.initial Scenario.env0 Scenario.env0
           eq_refl eq_refl).
Defined.

(** ** Records of the data model *)

Lemma plus_signed_zero_or_above (p : float) :
  plus_signed (Prim2SF p) -> p = 0%float \/ (0 <? p)%float = true.
Proof.
  rewrite FloatAxioms.ltb_spec. change (Prim2SF 0) with (S754_zero false).
  destruct (Prim2SF p) as [s|s| |s m e] eqn:Hp; cbn; try contradiction; intros ->.
  - left. apply Prim2SF_inj. now rewrite Hp.
  - now right.
  - now right.
Qed.

(** X25: every record the form adds is a record of the data model: its
    weight is above 0 and its cost is 0 or above 0. So when the store is
    filled through the form, the statistics are exactly the number of
    records, the sum of their weights and the sum of their costs. *)
Theorem form_adds_records_of_the_data_model
    (s : Store.state) (f : formState) (env : Store.environment) :
  Forall well_formed (Store.boxes s) ->
  Forall well_formed (Store.boxes (Store.handleSubmit s f env)) /\
  (Store.statistics s = aggregate (Store.boxes s) ->
   Store.statistics (Store.handleSubmit s f env) =
     aggregate (Store.boxes (Store.handleSubmit s f env))).
Proof.
  intros Hwf. unfold Store.handleSubmit.
  destruct (validateForm f) eqn:Hv; [|now split].
  destruct (validateForm_accepts f Hv) as (_ & _ & _ & Hp & _ & _).
  destruct (Utils.calculateShippingCost (Some (bd_weight (getSubmissionData f)))
              (Some (bd_country (getSubmissionData f)))) as [cost|e] eqn:Hc.
  - rewrite (StoreFacts.addBox_priced _ _ _ _ Hc). cbn [fst Store.boxes Store.statistics].
    assert (Hall : Forall well_formed
                     (Store.boxes s ++ [new_box (getSubmissionData f) cost env])).
    { apply Forall_app. split; [exact Hwf|]. constructor; [|constructor]. split.
      - exact Hp.
      - apply plus_signed_zero_or_above. exact (PriceBounds.price_plus_signed _ _ _ Hc). }
    split; [exact Hall|]. intros _. now apply StoreFacts.calculateStatistics_aggregate.
  - rewrite (StoreFacts.addBox_throws _ _ _ _ Hc). now split.
Qed.

(** X25 on the empty store and a form for China. *)
Lemma form_adds_records_of_the_data_model_witness :
  let f := {| receiverName := "Alice"; weight := "2"; boxColor := "#3498db";
              country := "CHINA" |} in
  Forall well_formed (Store.boxes (Store.handleSubmit Store.createInitialState f Scenario.env0)) /\
  (Store.statistics Store.createInitialState = aggregate (Store.boxes Store.createInitialState) ->
   Store.statistics (Store.handleSubmit Store.createInitialState f Scenario.env0) =
     aggregate (Store.boxes (Store.handleSubmit Store.createInitialState f Scenario.env0))).
Proof.
  exact (form_adds_records_of_the_data_model Store.createInitialState
           {| receiverName := "Alice"; weight := "2"; boxColor := "#3498db";
              country := "CHINA" |} Scenario.env0 (List.Forall_nil _)).
Defined.

End Submission.

(** * The debounced function *)

Module DebounceFacts.
Import Rules Debounce.
Local Open Scope list_scope.
Local Open Scope N_scope.

Section Facts.

Context {A : Type}.
Variable delay : N.

Lemma last_cons_default (x d : N * A) (l : list (N * A)) : List.last (x :: l) d = List.last l x.
Proof.
  revert x d. induction l as [|y l IH]; intros x d; [reflexivity|].
  change (List.last (x :: y :: l) d) with (List.last (y :: l) d).
  now rewrite (IH y d), (IH y x).
Qed.

(** Calls that follow each other by less than the delay: only the timer
    of the last one runs. *)
Lemma run_burst (rest : list (N * A)) : forall t a,
  spaced (fun gap => gap < delay) t (map fst rest) ->
  run delay rest (Some {| due := t + delay; args := a |}) =
    [(fst (List.last rest (t, a)) + delay, snd (List.last rest (t, a)))].
Proof.
  induction rest as [|[t' a'] rest IH]; intros t a Hs; [reflexivity|].
  destruct Hs as (Hle & Hgap & Hrest). cbn [fst] in Hle, Hgap, Hrest.
  cbn [run elapse due args].
  destruct (N.leb_spec (t + delay) t') as [Hdue|_]; [lia|].
  cbn [app]. unfold call. rewrite (IH t' a' Hrest).
  now rewrite last_cons_default.
Qed.

(** Calls that follow each other by more than the delay: every timer
    runs before the next call. *)
Lemma run_spaced (rest : list (N * A)) : forall t a,
  spaced (fun gap => delay < gap) t (map fst rest) ->
  run delay rest (Some {| due := t + delay; args := a |}) =
    (t + delay, a) :: map (fun c => (fst c + delay, snd c)) rest.
Proof.
  induction rest as [|[t' a'] rest IH]; intros t a Hs; [reflexivity|].
  destruct Hs as (Hle & Hgap & Hrest). cbn [fst] in Hle, Hgap, Hrest.
  cbn [run elapse due args].
  destruct (N.leb_spec (t + delay) t') as [_|Hdue]; [|lia].
  cbn [app map fst snd]. unfold call. now rewrite (IH t' a' Hrest).
Qed.

Lemma run_cons (t : N) (a : A) (rest : list (N * A)) (pending : option (timer A)) :
  run delay ((t, a) :: rest) pending =
    snd (elapse t pending) ++ run delay rest (call delay t a (fst (elapse t pending))).
Proof. cbn [run]. now destruct (elapse t pending). Qed.

Lemma run_ends (rest : list (N * A)) : forall pending t a,
  exists earlier,
    run delay ((t, a) :: rest) pending =
      earlier ++ [(fst (List.last rest (t, a)) + delay, snd (List.last rest (t, a)))] /\
    (length earlier <= length rest + match pending with Some _ => 1 | None => 0 end)%nat.
Proof.
  induction rest as [|[t' a'] rest IH]; intros pending t a.
  - cbn [run List.last fst snd]. unfold call.
    destruct pending as [tm|]; cbn [elapse]; [destruct (due tm <=? t)|];
      eexists; (split; [reflexivity|]); cbn; lia.
  - rewrite (run_cons t a).
    destruct (IH (call delay t a (fst (elapse t pending))) t' a') as (earlier & -> & Hlen).
    exists (snd (elapse t pending) ++ earlier).
    rewrite last_cons_default, app_assoc. split; [reflexivity|].
    rewrite length_app. cbn [call length] in *.
    destruct pending as [tm|]; cbn [elapse]; [destruct (due tm <=? t)|]; cbn; lia.
Qed.

End Facts.






End DebounceFacts.

(** * The deep copy *)

Module DeepCloneFacts.
Import Str Conv Json JsonRules StrFacts ConvFacts.
Local Open Scope list_scope.

(** ** Induction on values *)

Lemma js_induction (P : js -> Prop) :
  P JUndefined -> P JNull -> (forall b, P (JBool b)) -> (forall x, P (JNum x)) ->
  (forall s, P (JStr s)) ->
  (forall items, Forall P items -> P (JArr items)) ->
  (forall members, Forall (fun m => P (snd m)) members -> P (JObj members)) ->
  forall v, P v.
Proof.
  intros HUndefined HNull HBool HNum HStr HArr HObj.
  fix IH 1. intros [| |b|x|s|items|members].
  - exact HUndefined.
  - exact HNull.
  - apply HBool.
  - apply HNum.
  - apply HStr.
  - apply HArr. induction items as [|i items IHitems]; constructor; [apply IH | exact IHitems].
  - apply HObj. induction members as [|m members IHmembers]; constructor;
      [apply IH | exact IHmembers].
Qed.

(** ** Strings *)

Lemma parse_quote_char (c : ascii) (fuel : nat) (tail : list ascii) :
  parse_string (S fuel) (quote_char c ++ tail) =
  match parse_string fuel tail with
  | Some (s, rest) => Some (c :: s, rest)
  | None => None
  end.
Proof. destruct c as [[] [] [] [] [] [] [] []]; reflexivity. Qed.

Lemma parse_quoted (s : list ascii) : forall fuel rest,
  (length s < fuel)%nat ->
  parse_string fuel (flat_map quote_char s ++ quotation :: rest) = Some (s, rest).
Proof.
  induction s as [|c s IH]; intros fuel rest Hf.
  - destruct fuel; [lia | reflexivity].
  - destruct fuel as [|fuel]; [cbn [length] in Hf; lia|].
    cbn [length] in Hf. assert (Hf' : (length s < fuel)%nat) by lia.
    cbn [flat_map]. rewrite <- app_assoc, parse_quote_char, (IH fuel rest Hf').
    reflexivity.
Qed.

Lemma quote_char_length (c : ascii) : (1 <= length (quote_char c))%nat.
Proof. destruct c as [[] [] [] [] [] [] [] []]; vm_compute; repeat constructor. Qed.

Lemma quoted_length (s : list ascii) : (length s <= length (flat_map quote_char s))%nat.
Proof.
  induction s as [|c s IH]; cbn [flat_map length]; [lia|].
  rewrite length_app. pose proof (quote_char_length c). lia.
Qed.

(** The text of a string is read back as the string. *)
Lemma parse_quote (s : string) (rest : list ascii) :
  parse_string (length (flat_map quote_char (chars s) ++ quotation :: rest))
               (flat_map quote_char (chars s) ++ quotation :: rest) = Some (chars s, rest).
Proof.
  apply parse_quoted. rewrite length_app. cbn [length].
  pose proof (quoted_length (chars s)). lia.
Qed.


(** ** Numbers *)

Lemma forallb_digits (l : list ascii) :
  Forall (fun c => is_digit c = true) l -> forallb is_digit l = true.
Proof. induction 1 as [|c l Hc _ IH]; cbn; [reflexivity|]. now rewrite Hc. Qed.

Lemma nonempty_digits_spec (l : list ascii) :
  Forall (fun c => is_digit c = true) l -> l <> [] -> nonempty_digits l = true.
Proof. intros H Hne. destruct l; [contradiction|]. now apply forallb_digits. Qed.

Lemma valid_int_spec (d : ascii) (l : list ascii) :
  Forall (fun c => is_digit c = true) (d :: l) ->
  (code d =? 48)%N = false -> valid_int (d :: l) = true.
Proof.
  intros H Hd. pose proof (forallb_digits _ H) as Hall. inversion H; subst.
  destruct l as [|c l]; [assumption|].
  cbn [valid_int]. rewrite Hall, Hd. cbn [negb]. now rewrite andb_true_r, andb_true_r.
Qed.

Lemma digit_not_minus (c : ascii) : is_digit c = true -> (code c =? 45)%N = false.
Proof.
  unfold is_digit. intros H. apply andb_true_iff in H as [H _]. apply N.leb_le in H.
  apply N.eqb_neq. lia.
Qed.

Lemma digit_is_number_char (c : ascii) : is_digit c = true -> is_number_char c = true.
Proof. unfold is_number_char. now intros ->. Qed.

Lemma digits_are_number_chars (l : list ascii) :
  Forall (fun c => is_digit c = true) l -> Forall (fun c => is_number_char c = true) l.
Proof. intros H. eapply List.Forall_impl; [|exact H]. exact digit_is_number_char. Qed.

(** The grammar on a run of digits and what follows it. *)
Lemma valid_number_split (d : ascii) (ip r1 : list ascii) :
  Forall (fun c => is_digit c = true) (d :: ip) ->
  match r1 with c :: _ => is_digit c = false | [] => True end ->
  valid_number ((d :: ip) ++ r1) =
  valid_int (d :: ip) &&
  match r1 with
  | c :: r2 =>
      if (code c =? 46)%N then
        let '(fp, r3) := span is_digit r2 in nonempty_digits fp && valid_exp r3
      else valid_exp r1
  | [] => true
  end.
Proof.
  intros Hd Hr. unfold valid_number.
  assert (Hm : (code d =? 45)%N = false) by (inversion Hd; subst; now apply digit_not_minus).
  cbn [app]. rewrite Hm. change (d :: ip ++ r1) with ((d :: ip) ++ r1).
  now rewrite (span_app is_digit _ _ Hd Hr).
Qed.

Lemma digits_fuel_leading (fuel : nat) : forall n acc,
  (0 < n)%N -> (n < 2 ^ N.of_nat fuel)%N ->
  exists c l, digits_fuel fuel n acc = c :: l /\ (code c =? 48)%N = false.
Proof.
  induction fuel as [|fuel IH]; intros n acc Hpos Hn.
  - cbn in Hn. lia.
  - cbn [digits_fuel].
    destruct (N.eqb_spec (n / 10) 0) as [Hq|Hq].
    + assert (Hlt : (n < 10)%N).
      { destruct (N.lt_ge_cases n 10) as [H|H]; [exact H|].
        assert (1 <= n / 10)%N by (apply N.div_le_lower_bound; lia). lia. }
      rewrite (N.mod_small n 10 Hlt).
      exists (digit_char n), acc. split; [reflexivity|].
      assert (Hin : In n [1; 2; 3; 4; 5; 6; 7; 8; 9]%N).
      { destruct n as [|q]; [lia|].
        do 4 (destruct q as [q|q|]; try lia; cbn; auto 12). }
      cbn in Hin. repeat destruct Hin as [<-|Hin]; try reflexivity. contradiction.
    + apply IH; [now apply N.neq_0_lt_0|].
      rewrite Nat2N.inj_succ, N.pow_succ_r' in Hn.
      apply N.Div0.div_lt_upper_bound.
      set (w := (2 ^ N.of_nat fuel)%N) in *. clearbody w. clear - Hn. lia.
Qed.

(** The digits of a number above 0 start with a digit that is not 0. *)
Lemma digits_of_N_leading (n : N) :
  (0 < n)%N -> exists c l, digits_of_N n = c :: l /\ (code c =? 48)%N = false.
Proof.
  intros H. apply digits_fuel_leading; [exact H|].
  rewrite Nat2N.inj_succ, N2Nat.id.
  destruct n as [|p]; [lia|]. apply N.log2_spec. reflexivity.
Qed.

Lemma exponent_part_valid (ex : Z) :
  valid_exp (exponent_part ex) = true /\
  Forall (fun c => is_number_char c = true) (exponent_part ex).
Proof.
  unfold exponent_part.
  pose proof (digits_of_N_digits (Z.abs_N ex)) as Hd.
  destruct (digits_of_N_cons (Z.abs_N ex)) as (c & l & E & _).
  split.
  - cbn [valid_exp]. change (code "e" =? 101)%N with true. cbn [orb andb].
    assert (Hs : forall sg : ascii, sg = "-"%char \/ sg = "+"%char ->
                 (if (code sg =? 45)%N || (code sg =? 43)%N
                  then nonempty_digits (digits_of_N (Z.abs_N ex))
                  else nonempty_digits (sg :: digits_of_N (Z.abs_N ex))) = true).
    { intros sg [-> | ->]; cbn [orb]; apply nonempty_digits_spec; try exact Hd;
        rewrite E; discriminate. }
    destruct (ex <? 0)%Z; apply Hs; auto.
  - constructor; [reflexivity|]. constructor; [now destruct (ex <? 0)%Z|].
    now apply digits_are_number_chars.
Qed.

(** The layouts of [Number::toString] are numbers of JSON. *)
Lemma layout_number (s : N) (p : Z) :
  (0 < s)%N ->
  valid_number (layout s p) = true /\
  Forall (fun c => is_number_char c = true) (layout s p).
Proof.
  intros Hs. unfold layout.
  destruct (digits_of_N_leading s Hs) as (d & rest & E & Hnz).
  pose proof (digits_of_N_digits s) as Hds.
  rewrite E in *. clear E.
  set (ds := d :: rest) in *.
  set (k := Z.of_nat (length ds)).
  assert (Hk : k = (1 + Z.of_nat (length rest))%Z) by (unfold k, ds; cbn [length]; lia).
  set (n := (k + p)%Z).
  destruct ((k <=? n)%Z && (n <=? 21)%Z) eqn:CA.
  { set (z := repeat "0"%char (Z.to_nat (n - k))).
    assert (Hall : Forall (fun c => is_digit c = true) (ds ++ z))
      by (apply Forall_app; split; [exact Hds | apply zeros_digits]).
    split; [|now apply digits_are_number_chars].
    rewrite <- (app_nil_r (ds ++ z)). change (ds ++ z) with (d :: (rest ++ z)) in *.
    rewrite (valid_number_split d _ [] Hall I), andb_true_r.
    now apply valid_int_spec. }
  destruct ((0 <? n)%Z && (n <=? 21)%Z) eqn:CB.
  { apply andb_true_iff in CB as [H1 H2]. apply Z.ltb_lt in H1.
    assert (Hnk : (n < k)%Z).
    { apply andb_false_iff in CA as [CA|CA]; [apply Z.leb_gt in CA; lia | congruence]. }
    destruct (Z.to_nat n) as [|j] eqn:Ej; [lia|].
    pose proof (firstn_skipn j rest) as Hsplit.
    assert (Hf : Forall (fun c => is_digit c = true) (d :: firstn j rest)).
    { inversion Hds; subst. constructor; [assumption|].
      rewrite <- Hsplit in H4. now apply Forall_app in H4. }
    assert (Hsk : Forall (fun c => is_digit c = true) (skipn j rest)).
    { inversion Hds; subst. rewrite <- Hsplit in H4. now apply Forall_app in H4. }
    assert (Hne : skipn j rest <> []).
    { intros Hnil. apply (f_equal (@length ascii)) in Hnil.
      rewrite length_skipn in Hnil. cbn [length] in Hnil. lia. }
    cbn [firstn skipn ds]. split.
    - change (d :: firstn j rest ++ "."%char :: skipn j rest)
        with ((d :: firstn j rest) ++ "."%char :: skipn j rest).
      rewrite (valid_number_split d _ _ Hf); [|reflexivity].
      change (code "." =? 46)%N with true. cbv iota.
      rewrite <- (app_nil_r (skipn j rest)), (span_app is_digit _ [] Hsk I).
      rewrite (nonempty_digits_spec _ Hsk Hne), andb_true_r.
      now apply valid_int_spec.
    - change (d :: firstn j rest ++ "."%char :: skipn j rest)
        with ((d :: firstn j rest) ++ "."%char :: skipn j rest).
      apply Forall_app. split; [now apply digits_are_number_chars|].
      constructor; [reflexivity | now apply digits_are_number_chars]. }
  destruct ((-6 <? n)%Z && (n <=? 0)%Z) eqn:CC.
  { set (z := repeat "0"%char (Z.to_nat (- n))).
    assert (Hzd : Forall (fun c => is_digit c = true) (z ++ ds))
      by (apply Forall_app; split; [apply zeros_digits | exact Hds]).
    assert (Hne : z ++ ds <> []) by (unfold ds; now destruct z).
    split.
    - change ("0"%char :: "."%char :: z ++ ds) with (["0"%char] ++ "."%char :: z ++ ds).
      rewrite (valid_number_split "0" [] _); [|repeat constructor|reflexivity].
      change (code "." =? 46)%N with true. cbv iota.
      rewrite <- (app_nil_r (z ++ ds)), (span_app is_digit _ [] Hzd I).
      now rewrite (nonempty_digits_spec _ Hzd Hne).
    - constructor; [reflexivity|]. constructor; [reflexivity|].
      now apply digits_are_number_chars. }
  destruct (exponent_part_valid (n - 1)) as [Hev Hec].
  assert (Hd : is_digit d = true) by (now inversion Hds).
  destruct rest as [|c2 rest']; cbn [ds].
  - split.
    + change (d :: exponent_part (n - 1)) with ([d] ++ exponent_part (n - 1)).
      rewrite (valid_number_split d [] _); [|now repeat constructor|reflexivity].
      cbn [valid_int]. rewrite Hd. cbn [andb].
      unfold exponent_part at 1. change (code "e" =? 46)%N with false. cbv iota.
      exact Hev.
    + constructor; [now apply digit_is_number_char | exact Hec].
  - assert (Hfp : Forall (fun c => is_digit c = true) (c2 :: rest')) by (now inversion Hds).
    split.
    + change (d :: "."%char :: (c2 :: rest') ++ exponent_part (n - 1))
        with ([d] ++ "."%char :: (c2 :: rest') ++ exponent_part (n - 1)).
      rewrite (valid_number_split d [] _); [|now repeat constructor|reflexivity].
      cbn [valid_int]. rewrite Hd. cbn [andb].
      change (code "." =? 46)%N with true. cbv iota.
      rewrite (span_app is_digit _ _ Hfp); [|reflexivity].
      now rewrite (nonempty_digits_spec _ Hfp), Hev by discriminate.
    + constructor; [now apply digit_is_number_char|]. constructor; [reflexivity|].
      apply Forall_app. split; [now apply digits_are_number_chars | exact Hec].
Qed.

(** The digits chosen for a finite number that is no zero are no zero. *)
Lemma shortest_positive (x : float) (m : positive) (e : Z) (s : N) (p : Z) :
  Prim2SF x = S754_finite false m e -> shortest x m e = (s, p) -> (0 < s)%N.
Proof.
  intros Hx Hs. pose proof (shortest_reads_back x m e s p Hx Hs) as Hback.
  destruct s as [|q]; [|lia]. exfalso.
  assert (H0 : decimal 0 p == 0) by (unfold decimal; cbn; ring).
  rewrite (NumFacts.of_Q_eq _ _ H0) in Hback. rewrite <- Hback in Hx. discriminate.
Qed.


Lemma valid_number_minus (c : ascii) (l : list ascii) :
  is_digit c = true -> valid_number ("-"%char :: c :: l) = valid_number (c :: l).
Proof.
  intros Hc. unfold valid_number.
  change (code "-" =? 45)%N with true. cbv iota.
  now rewrite (digit_not_minus c Hc).
Qed.

(** The text of a finite number: it starts with a digit or a minus sign
    and is a number of JSON. *)
Lemma number_text (x : float) :
  is_finite x = true ->
  exists c l,
    Number_toString_chars x = c :: l /\
    is_digit c || (code c =? 45)%N = true /\
    Forall (fun c => is_number_char c = true) (c :: l) /\
    valid_number (c :: l) = true.
Proof.
  unfold is_finite, Number_toString_chars.
  destruct (Prim2SF x) as [sg|sg| |sg m e] eqn:Hx; try discriminate; intros _.
  - exists "0"%char, []. repeat split; repeat constructor.
  - pose proof (abs_finite x sg m e Hx) as Habs.
    destruct (shortest (abs x) m e) as [s p] eqn:Hs.
    pose proof (shortest_positive _ _ _ _ _ Habs Hs) as Hpos.
    destruct (layout_number s p Hpos) as [Hvalid Hchars].
    destruct (parse_layout s p) as (c & l & q & El & Hc & _).
    rewrite El in *.
    destruct sg.
    + exists "-"%char, (c :: l). split; [reflexivity|]. split; [reflexivity|].
      split; [now constructor|]. now rewrite valid_number_minus.
    + exists c, l. split; [reflexivity|]. split; [now rewrite Hc|]. auto.
Qed.

(** ** One step of the reader *)

Lemma number_head (c : ascii) :
  is_digit c || (code c =? 45)%N = true ->
  is_ws c = false /\ (code c =? 34)%N = false /\ (code c =? 91)%N = false /\
  (code c =? 123)%N = false /\ (code c =? 93)%N = false /\ (code c =? 125)%N = false.
Proof.
  destruct c as [[] [] [] [] [] [] [] []]; vm_compute; intros H;
    try discriminate H; repeat split.
Qed.

Lemma parse_value_number (fuel : nat) (t rest : list ascii) (c : ascii) (l : list ascii) :
  t = c :: l ->
  is_digit c || (code c =? 45)%N = true ->
  Forall (fun c => is_number_char c = true) t ->
  valid_number t = true ->
  ends_number rest ->
  parse_value (S fuel) (t ++ rest) = Some (JNum (parseFloat (str t)), rest).
Proof.
  intros -> Hc Hchars Hvalid Hrest.
  destruct (number_head c Hc) as (Hws & H34 & H91 & H123 & _).
  cbn [parse_value app skip_ws drop_while]. rewrite Hws, H34, H91, H123, Hc.
  change (c :: l ++ rest) with ((c :: l) ++ rest).
  now rewrite (span_app is_number_char _ _ Hchars Hrest), Hvalid.
Qed.

Lemma parse_value_string (fuel : nat) (r : list ascii) :
  parse_value (S fuel) (quotation :: r) =
  match parse_string (length r) r with
  | Some (s, rest) => Some (JStr (str s), rest)
  | None => None
  end.
Proof. reflexivity. Qed.

Lemma parse_value_array (fuel : nat) (r : list ascii) :
  parse_value (S fuel) ("["%char :: r) =
  match skip_ws r with
  | d :: r' => if (code d =? 93)%N then Some (JArr [], r') else parse_items fuel r []
  | [] => None
  end.
Proof. reflexivity. Qed.

Lemma parse_value_object (fuel : nat) (r : list ascii) :
  parse_value (S fuel) ("{"%char :: r) =
  match skip_ws r with
  | d :: r' => if (code d =? 125)%N then Some (JObj [], r') else parse_members fuel r []
  | [] => None
  end.
Proof. reflexivity. Qed.

Lemma parse_value_null (fuel : nat) (rest : list ascii) :
  parse_value (S fuel) (chars "null" ++ rest) = Some (JNull, rest).
Proof. reflexivity. Qed.

Lemma parse_value_true (fuel : nat) (rest : list ascii) :
  parse_value (S fuel) (chars "true" ++ rest) = Some (JBool true, rest).
Proof. reflexivity. Qed.

Lemma parse_value_false (fuel : nat) (rest : list ascii) :
  parse_value (S fuel) (chars "false" ++ rest) = Some (JBool false, rest).
Proof. reflexivity. Qed.

Lemma parse_items_step (fuel : nat) (l : list ascii) (acc : list js) :
  parse_items (S fuel) l acc =
  match parse_value fuel l with
  | Some (v, r) =>
      match skip_ws r with
      | c :: r' =>
          if (code c =? 44)%N then parse_items fuel r' (v :: acc)
          else if (code c =? 93)%N then Some (JArr (rev (v :: acc)), r')
          else None
      | [] => None
      end
  | None => None
  end.
Proof. reflexivity. Qed.

Lemma parse_members_step (fuel : nat) (r : list ascii) (acc : list (string * js)) :
  parse_members (S fuel) (quotation :: r) acc =
  match parse_string (length r) r with
  | Some (k, r1) =>
      match skip_ws r1 with
      | c :: r2 =>
          if (code c =? 58)%N then
            match parse_value fuel r2 with
            | Some (v, r3) =>
                match skip_ws r3 with
                | d :: r4 =>
                    if (code d =? 44)%N
                    then parse_members fuel r4 (define_property acc (str k) v)
                    else if (code d =? 125)%N
                         then Some (JObj (define_property acc (str k) v), r4)
                         else None
                | [] => None
                end
            | None => None
            end
          else None
      | [] => None
      end
  | None => None
  end.
Proof. reflexivity. Qed.


(** ** Texts *)

Lemma serialize_array (items : list js) :
  serialize (JArr items) = Some ("["%char :: join [","%char] (map item_text items) ++ ["]"%char]).
Proof. reflexivity. Qed.

Lemma serialize_object (members : list (string * js)) :
  serialize (JObj members) =
  Some ("{"%char :: join [","%char] (flat_map member_text members) ++ ["}"%char]).
Proof. reflexivity. Qed.

Lemma serialize_opens (v : js) (t : list ascii) : serialize v = Some t -> opens_value t.
Proof.
  destruct v as [| |b|x|s|items|members];
    [discriminate| | | | |rewrite serialize_array|rewrite serialize_object];
    cbn [serialize]; intros H; injection H as <-.
  - repeat split.
  - destruct b; repeat split.
  - destruct (is_finite x) eqn:Hf; [|repeat split].
    destruct (number_text x Hf) as (c & l & -> & Hc & _).
    destruct (number_head c Hc) as (Hws & _ & _ & _ & H93 & H125).
    now repeat split.
  - repeat split.
  - repeat split.
  - repeat split.
Qed.

Lemma item_text_opens (i : js) : opens_value (item_text i).
Proof.
  unfold item_text. destruct (serialize i) as [t|] eqn:Hs; [|repeat split].
  exact (serialize_opens _ _ Hs).
Qed.

Lemma join_cons (sep a : list ascii) (l : list (list ascii)) :
  l <> [] -> join sep (a :: l) = a ++ sep ++ join sep l.
Proof. destruct l; [contradiction | reflexivity]. Qed.

Lemma app_opens (a b : list ascii) : opens_value a -> opens_value (a ++ b).
Proof. destruct a; [contradiction | exact (fun H => H)]. Qed.

Lemma join_opens (sep a : list ascii) (l : list (list ascii)) :
  opens_value a -> opens_value (join sep (a :: l)).
Proof.
  intros Ha. destruct l as [|b l]; [exact Ha|].
  rewrite join_cons by discriminate. now apply app_opens.
Qed.

Lemma parse_value_array_opens (fuel : nat) (r : list ascii) :
  opens_value r -> parse_value (S fuel) ("["%char :: r) = parse_items fuel r [].
Proof.
  destruct r as [|c r]; [contradiction|]. intros (Hws & H93 & _).
  rewrite parse_value_array. cbn [skip_ws drop_while]. now rewrite Hws, H93.
Qed.

Lemma parse_value_object_opens (fuel : nat) (r : list ascii) :
  opens_value r -> parse_value (S fuel) ("{"%char :: r) = parse_members fuel r [].
Proof.
  destruct r as [|c r]; [contradiction|]. intros (Hws & _ & H125).
  rewrite parse_value_object. cbn [skip_ws drop_while]. now rewrite Hws, H125.
Qed.

Lemma quote_layout (k : string) (tail : list ascii) :
  quote k ++ tail = quotation :: (flat_map quote_char (chars k) ++ quotation :: tail).
Proof. unfold quote. cbn [app]. now rewrite <- app_assoc. Qed.

(** ** Arrays *)

Lemma read_item (i : js) (fuel : nat) (rest : list ascii) :
  read_back i -> well_formed i -> size i <= fuel -> ends_number rest ->
  parse_value fuel (item_text i ++ rest) = Some (item_of json_image i, rest).
Proof.
  intros Hread Hwf Hfuel Hrest. unfold item_text.
  destruct (serialize i) as [t|] eqn:Hs.
  - replace (item_of json_image i) with (json_image i)
      by (destruct i; try reflexivity; discriminate Hs).
    now apply Hread.
  - destruct i; try discriminate Hs.
    destruct fuel as [|fuel]; [cbn [size] in Hfuel; lia|]. apply parse_value_null.
Qed.

Lemma read_items (items : list js) :
  Forall read_back items ->
  fold_right (fun i P => well_formed i /\ P) True items ->
  items <> [] ->
  forall fuel rest acc,
    items_size items <= fuel ->
    parse_items fuel (join [","%char] (map item_text items) ++ "]"%char :: rest) acc =
    Some (JArr (rev acc ++ map (item_of json_image) items), rest).
Proof.
  induction items as [|i items IH]; intros Hread Hwf Hne fuel rest acc Hfuel;
    [contradiction|].
  inversion Hread as [|? ? Hi Hitems]; subst. destruct Hwf as [Hwi Hwf].
  cbn [items_size fold_right] in Hfuel. fold (items_size items) in Hfuel.
  destruct fuel as [|fuel]; [lia|].
  rewrite parse_items_step. destruct items as [|j items].
  - cbn [map join].
    rewrite (read_item i fuel ("]"%char :: rest) Hi Hwi ltac:(lia) eq_refl).
    reflexivity.
  - cbn [map]. rewrite join_cons by discriminate. rewrite <- !app_assoc. cbn [app].
    rewrite (read_item i fuel (","%char :: _) Hi Hwi ltac:(lia) eq_refl).
    cbn [skip_ws drop_while]. change (is_ws ","%char) with false. cbv iota.
    change (code ","%char =? 44)%N with true. cbv iota.
    change (item_text j :: map item_text items) with (map item_text (j :: items)).
    rewrite (IH Hitems Hwf ltac:(discriminate) fuel rest _ ltac:(lia)).
    cbn [rev]. now rewrite <- app_assoc.
Qed.

(** ** Objects *)

Lemma member_cases (m : string * js) :
  (snd m = JUndefined /\ member_text m = [] /\ member_of json_image m = []) \/
  (exists t, serialize (snd m) = Some t /\
             member_text m = [quote (fst m) ++ ":"%char :: t] /\
             member_of json_image m = [(fst m, json_image (snd m))] /\
             forall c, match snd m with
                       | JUndefined => c
                       | _ => S (size (snd m) + c)
                       end = S (size (snd m) + c)).
Proof.
  unfold member_text, member_of.
  destruct (snd m) as [| |b|x|s|items|members] eqn:Hm;
    [left; now repeat split| | | | | |];
    right; eexists; (split; [reflexivity|]); now repeat split.
Qed.

Lemma no_text_members (members : list (string * js)) :
  flat_map member_text members = [] -> flat_map (member_of json_image) members = [].
Proof.
  induction members as [|m members IH]; [reflexivity|]. cbn [flat_map].
  destruct (member_cases m) as [(_ & Ht & Ho)|(t & _ & Ht & _)]; rewrite Ht.
  - rewrite Ho. exact IH.
  - discriminate.
Qed.

Lemma read_members (members : list (string * js)) :
  Forall (fun m => read_back (snd m)) members ->
  fold_right (fun m P => well_formed (snd m) /\ P) True members ->
  flat_map member_text members <> [] ->
  forall fuel rest acc,
    members_size members <= fuel ->
    parse_members fuel (join [","%char] (flat_map member_text members) ++ "}"%char :: rest) acc =
    Some (JObj (fold_left (fun a m => define_property a (fst m) (snd m))
                          (flat_map (member_of json_image) members) acc), rest).
Proof.
  induction members as [|m members IH]; intros Hread Hwf Hne fuel rest acc Hfuel;
    [contradiction|].
  inversion Hread as [|? ? Hm Hmembers]; subst. destruct Hwf as [Hwm Hwf].
  cbn [members_size fold_right] in Hfuel. fold (members_size members) in Hfuel.
  cbn [flat_map] in Hne |- *.
  destruct (member_cases m) as [(Hu & Ht & Ho)|(t & Hs & Ht & Ho & Hsize)];
    rewrite Ht in Hne |- *; rewrite Ho.
  - rewrite Hu in Hfuel. cbn [app] in Hne |- *. now apply IH.
  - rewrite Hsize in Hfuel. destruct fuel as [|fuel]; [lia|].
    cbn [app fold_left fst snd].
    assert (Hcase : flat_map member_text members = [] \/ flat_map member_text members <> []).
    { destruct (flat_map member_text members); [now left | now right]. }
    destruct Hcase as [Hnil|Hmore].
    + rewrite Hnil, (no_text_members _ Hnil). cbn [join fold_left].
      rewrite <- !app_assoc. cbn [app].
      rewrite quote_layout, parse_members_step, parse_quote.
      cbn [skip_ws drop_while]. change (is_ws ":"%char) with false. cbv iota.
      change (code ":"%char =? 58)%N with true. cbv iota.
      rewrite (Hm t fuel ("}"%char :: rest) Hs Hwm ltac:(lia) eq_refl).
      rewrite str_chars. reflexivity.
    + rewrite join_cons by exact Hmore. rewrite <- !app_assoc. cbn [app].
      rewrite quote_layout, parse_members_step, parse_quote.
      cbn [skip_ws drop_while]. change (is_ws ":"%char) with false. cbv iota.
      change (code ":"%char =? 58)%N with true. cbv iota.
      rewrite (Hm t fuel (","%char :: _) Hs Hwm ltac:(lia) eq_refl).
      cbn [skip_ws drop_while]. change (is_ws ","%char) with false. cbv iota.
      change (code ","%char =? 44)%N with true. cbv iota.
      rewrite str_chars. apply IH; try assumption. lia.
Qed.


(** ** Keys *)

Lemma enumeration_earlier (P : list string) (k : string) (L : list string) :
  enumeration (P ++ k :: L) -> Forall (fun a => a <> k /\ may_precede a k) P.
Proof.
  induction P as [|a P IH]; cbn [app enumeration]; intros H; [constructor|].
  destruct H as (Hnin & Hall & Hrest). constructor; [|now apply IH].
  assert (Hk : In k (P ++ k :: L)) by (apply in_or_app; right; now left).
  split.
  - intros ->. now apply Hnin.
  - rewrite List.Forall_forall in Hall. now apply Hall.
Qed.

(** A new key that may follow the keys that are there goes to the end. *)
Lemma define_new (P : list (string * js)) (k : string) (x : js) :
  Forall (fun m => fst m <> k /\ may_precede (fst m) k) P ->
  define_property P k x = P ++ [(k, x)].
Proof.
  intros H. unfold define_property.
  assert (Hnew : existsb (fun m => String.eqb (fst m) k) P = false).
  { induction H as [|m P [Hne _] _ IH]; [reflexivity|]. cbn [existsb].
    rewrite IH, orb_false_r. now apply String.eqb_neq. }
  rewrite Hnew. clear Hnew. destruct (is_index k) eqn:Hk; [|reflexivity].
  induction H as [|m P [_ Hp] _ IH]; [reflexivity|]. cbn [insert_index].
  unfold may_precede in Hp. rewrite Hk in Hp.
  destruct (is_index (fst m)); [|discriminate].
  apply N.ltb_lt in Hp. rewrite Hp. cbn [andb app]. now rewrite IH.
Qed.

(** Defining the members of an enumeration one after the other gives the
    enumeration. *)
Lemma define_fold (L : list (string * js)) : forall P,
  enumeration (map fst (P ++ L)) ->
  fold_left (fun a m => define_property a (fst m) (snd m)) L P = P ++ L.
Proof.
  induction L as [|m L IH]; intros P H; cbn [fold_left]; [now rewrite app_nil_r|].
  rewrite define_new.
  - replace (fst m, snd m) with m by now destruct m.
    rewrite IH; rewrite <- app_assoc; [reflexivity | exact H].
  - rewrite map_app in H. cbn [map] in H. apply enumeration_earlier in H.
    now apply List.Forall_map in H.
Qed.

Lemma kept_keys (members : list (string * js)) (k : string) :
  In k (map fst (flat_map (member_of json_image) members)) -> In k (map fst members).
Proof.
  induction members as [|m members IH]; cbn [flat_map map]; [easy|].
  rewrite map_app, in_app_iff. intros [H|H]; [left | right; now apply IH].
  destruct (member_cases m) as [(_ & _ & Ho)|(t & _ & _ & Ho & _)]; rewrite Ho in H.
  - destruct H.
  - destruct H as [H|[]]. exact H.
Qed.

Lemma enumeration_kept (members : list (string * js)) :
  enumeration (map fst members) ->
  enumeration (map fst (flat_map (member_of json_image) members)).
Proof.
  induction members as [|m members IH]; [easy|]. cbn [map flat_map enumeration].
  intros (Hnin & Hall & Hrest).
  destruct (member_cases m) as [(_ & _ & Ho)|(t & _ & _ & Ho & _)]; rewrite Ho;
    cbn [app map enumeration fst]; [now apply IH|].
  split; [|split; [|now apply IH]].
  - intros Hin. apply Hnin. now apply kept_keys.
  - rewrite List.Forall_forall in *. intros k Hk. apply Hall. now apply kept_keys.
Qed.

(** ** Values *)

(** The text of a finite number is read back as the number, and as 0 when
    it is -0. *)
Lemma finite_number_read (x : float) :
  is_finite x = true ->
  parseFloat (Number_toString x) = if is_zero x then 0%float else x.
Proof.
  unfold is_finite, is_zero. rewrite FloatAxioms.eqb_spec.
  change (Prim2SF PrimFloat.zero) with (S754_zero false).
  destruct (Prim2SF x) as [sg|sg| |sg m e] eqn:Hx; try discriminate; intros _.
  - assert (Hz : SFeqb (S754_zero sg) (S754_zero false) = true) by now destruct sg.
    rewrite Hz. destruct sg.
    + assert (Hneg : x = (-0)%float) by (apply Prim2SF_inj; now rewrite Hx).
      rewrite Hneg. now vm_compute.
    + rewrite parseFloat_toString by (rewrite Hx; discriminate).
      apply Prim2SF_inj. now rewrite Hx.
  - assert (Hz : SFeqb (S754_finite sg m e) (S754_zero false) = false) by now destruct sg.
    rewrite Hz. apply parseFloat_toString. rewrite Hx. discriminate.
Qed.

Lemma read_back_all (v : js) : read_back v.
Proof.
  induction v as [| |b|x|s|items IH|members IH] using js_induction;
    intros t fuel rest Hs Hwf Hfuel Hrest.
  - discriminate Hs.
  - injection Hs as <-. destruct fuel; [cbn [size] in Hfuel; lia|]. apply parse_value_null.
  - injection Hs as <-. destruct fuel; [cbn [size] in Hfuel; lia|].
    destruct b; [apply parse_value_true | apply parse_value_false].
  - cbn [serialize] in Hs. injection Hs as <-.
    destruct fuel; [cbn [size] in Hfuel; lia|]. cbn [json_image].
    destruct (is_finite x) eqn:Hf; [|apply parse_value_null].
    destruct (number_text x Hf) as (c & l & Ht & Hc & Hchars & Hvalid).
    rewrite <- Ht in Hchars, Hvalid.
    rewrite (parse_value_number fuel _ rest c l Ht Hc Hchars Hvalid Hrest).
    change (str (Number_toString_chars x)) with (Number_toString x).
    rewrite (finite_number_read x Hf). now destruct (is_zero x).
  - cbn [serialize] in Hs. injection Hs as <-.
    destruct fuel; [cbn [size] in Hfuel; lia|].
    rewrite quote_layout, parse_value_string, parse_quote, str_chars. reflexivity.
  - rewrite serialize_array in Hs. injection Hs as <-.
    destruct fuel; [cbn [size] in Hfuel; lia|].
    cbn [size] in Hfuel. fold (items_size items) in Hfuel.
    cbn [app json_image]. rewrite <- app_assoc. cbn [app].
    destruct items as [|i items]; [reflexivity|].
    rewrite parse_value_array_opens
      by (apply app_opens; cbn [map]; apply join_opens, item_text_opens).
    now rewrite (read_items (i :: items) IH Hwf ltac:(discriminate) fuel rest []
                            ltac:(lia)).
  - rewrite serialize_object in Hs. injection Hs as <-.
    destruct fuel; [cbn [size] in Hfuel; lia|].
    cbn [size] in Hfuel. fold (members_size members) in Hfuel.
    destruct Hwf as [Hkeys Hwf].
    cbn [app json_image]. rewrite <- app_assoc. cbn [app].
    destruct (flat_map member_text members) as [|a l] eqn:Htexts.
    + rewrite (no_text_members _ Htexts). reflexivity.
    + rewrite parse_value_object_opens.
      * rewrite <- Htexts.
        rewrite (read_members members IH Hwf ltac:(rewrite Htexts; discriminate)
                              fuel rest [] ltac:(lia)).
        rewrite (define_fold _ [] (enumeration_kept _ Hkeys)). reflexivity.
      * apply app_opens, join_opens.
        assert (Hin : In a (flat_map member_text members))
          by (rewrite Htexts; now left).
        apply in_flat_map in Hin as (m & _ & Hin).
        destruct (member_cases m) as [(_ & Ht & _)|(t & Hm & Ht & _)];
          rewrite Ht in Hin; [destruct Hin|].
        destruct Hin as [<-|[]]. unfold quote. repeat split.
Qed.


(** ** The length of a text is fuel enough *)

Lemma length_str (l : list ascii) : String.length (str l) = length l.
Proof.
  unfold str. induction l as [|c l IH]; [reflexivity|].
  cbn [string_of_list_ascii String.length length]. now rewrite IH.
Qed.

Lemma join_length (sep a : list ascii) (l : list (list ascii)) :
  length a + length (join sep l) <= length (join sep (a :: l)).
Proof.
  destruct l as [|b l]; [cbn [join length]; lia|].
  rewrite (join_cons sep a (b :: l)) by discriminate. rewrite !length_app. lia.
Qed.

Lemma items_length (items : list js) :
  Forall (fun i => forall t, serialize i = Some t -> size i <= length t) items ->
  items_size items <= S (length (join [","%char] (map item_text items))).
Proof.
  induction 1 as [|i items Hi _ IH]; [cbn; lia|].
  assert (Hitem : size i <= length (item_text i)).
  { unfold item_text. destruct (serialize i) as [t|] eqn:Hs; [now apply Hi|].
    destruct i; try discriminate Hs. cbn. lia. }
  cbn [items_size fold_right map]. fold (items_size items).
  destruct items as [|j items]; [cbn [items_size fold_right join map]; lia|].
  cbn [map] in IH |- *. rewrite join_cons by discriminate. rewrite !length_app. cbn [length]. lia.
Qed.

Lemma members_length (members : list (string * js)) :
  Forall (fun m => forall t, serialize (snd m) = Some t -> size (snd m) <= length t) members ->
  members_size members <= length (join [","%char] (flat_map member_text members)).
Proof.
  induction 1 as [|m members Hm _ IH]; [cbn; lia|].
  cbn [members_size fold_right flat_map]. fold (members_size members).
  destruct (member_cases m) as [(Hu & Ht & _)|(t & Hs & Ht & _ & Hsize)]; rewrite Ht.
  - rewrite Hu. exact IH.
  - rewrite Hsize. cbn [app].
    pose proof (join_length [","%char] (quote (fst m) ++ ":"%char :: t)
                            (flat_map member_text members)) as Hj.
    pose proof (Hm t Hs) as Hv.
    rewrite length_app in Hj. cbn [length] in Hj. lia.
Qed.

Lemma text_length (v : js) : forall t, serialize v = Some t -> size v <= length t.
Proof.
  induction v as [| |b|x|s|items IH|members IH] using js_induction; intros t Hs.
  - discriminate Hs.
  - injection Hs as <-. cbn. lia.
  - injection Hs as <-. destruct b; cbn; lia.
  - cbn [serialize] in Hs. injection Hs as <-. cbn [size].
    destruct (is_finite x) eqn:Hf; [|cbn; lia].
    destruct (number_text x Hf) as (c & l & -> & _). cbn [length]. lia.
  - cbn [serialize] in Hs. injection Hs as <-. unfold quote. cbn [size length]. lia.
  - rewrite serialize_array in Hs. injection Hs as <-.
    cbn [size length]. fold (items_size items). rewrite length_app. cbn [length].
    pose proof (items_length items IH). lia.
  - rewrite serialize_object in Hs. injection Hs as <-.
    cbn [size length]. fold (members_size members). rewrite length_app. cbn [length].
    pose proof (members_length members IH). lia.
Qed.

(** ** The copy *)

(** The copy of a value that has a text is what JSON keeps of it. *)
Lemma clone_of_text (v : js) (t : list ascii) :
  serialize v = Some t -> well_formed v -> deepClone v = Ok (json_image v).
Proof.
  intros Hs Hwf. unfold deepClone, stringify, parse.
  rewrite Hs, chars_str, length_str.
  pose proof (text_length v t Hs) as Hlen.
  pose proof (read_back_all v t (S (length t)) [] Hs Hwf ltac:(lia) I) as Hread.
  rewrite app_nil_r in Hread. now rewrite Hread.
Qed.

Lemma plain_number (x : float) :
  Prim2SF x <> S754_zero true -> is_zero x = true -> x = 0%float.
Proof.
  unfold is_zero. rewrite FloatAxioms.eqb_spec.
  change (Prim2SF PrimFloat.zero) with (S754_zero false).
  intros Hnz Hz. apply Prim2SF_inj.
  change (Prim2SF 0) with (S754_zero false).
  destruct (Prim2SF x) as [sg|sg| |sg m e].
  - destruct sg; [contradiction | reflexivity].
  - destruct sg; discriminate Hz.
  - discriminate Hz.
  - destruct sg; discriminate Hz.
Qed.

(** JSON keeps a plain value as it is. *)
Lemma plain_image (v : js) : plain v -> json_image v = v.
Proof.
  induction v as [| |b|x|s|items IH|members IH] using js_induction; intros Hp;
    try reflexivity.
  - destruct Hp as [Hf Hnz]. cbn [json_image]. rewrite Hf.
    destruct (is_zero x) eqn:Hz; [|reflexivity]. now rewrite (plain_number x Hnz Hz).
  - cbn [json_image]. f_equal. cbn [plain] in Hp.
    induction IH as [|i items Hi _ IHitems]; [reflexivity|].
    destruct Hp as [Hpi Hp]. cbn [map]. rewrite (IHitems Hp). f_equal.
    destruct i; try (exact (Hi Hpi)). destruct Hpi.
  - cbn [json_image]. f_equal. cbn [plain] in Hp.
    induction IH as [|m members Hm _ IHmembers]; [reflexivity|].
    destruct Hp as [Hpm Hp]. cbn [flat_map]. rewrite (IHmembers Hp).
    unfold member_of. destruct m as [k x]. cbn [fst snd] in *.
    rewrite (Hm Hpm). destruct x; try reflexivity. destruct Hpm.
Qed.

(** X29: the copy of a value without [undefined], NaN, an infinity or -0
    in it is the value: every string, with its control characters and
    quotation marks, every number, every array and every object, at any
    depth. *)
Theorem deepClone_keeps_plain_values (v : js) :
  well_formed v -> plain v -> deepClone v = Ok v.
Proof.
  intros Hwf Hp. destruct (serialize v) as [t|] eqn:Hs.
  - rewrite (clone_of_text v t Hs Hwf). now rewrite plain_image.
  - destruct v; try discriminate Hs. destruct Hp.
Qed.

(** X29 on the object of the test of the repository. *)
Lemma deepClone_keeps_plain_values_witness :
  well_formed original /\ plain original /\ deepClone original = Ok original.
Proof.
  assert (Hwf : well_formed original).
  { cbn. repeat split; try (repeat constructor; fail);
      try (intros H; repeat (destruct H as [H|H]; [discriminate H|]); exact H). }
  assert (Hp : plain original).
  { cbn. repeat split; vm_compute; discriminate. }
  split; [exact Hwf|]. split; [exact Hp|].
  exact (deepClone_keeps_plain_values original Hwf Hp).
Defined.

(** X30: what the copy loses. The copy of [undefined] throws a
    SyntaxError; in any other value a member whose value is [undefined]
    is dropped, an item of an array that is [undefined] becomes [null], NaN
    and the infinities become [null], -0 becomes 0, and the rest is kept. *)
Theorem deepClone_keeps_what_json_keeps (v : js) :
  well_formed v ->
  deepClone v = match v with
                | JUndefined => Throw "SyntaxError"
                | _ => Ok (json_image v)
                end.
Proof.
  intros Hwf. destruct (serialize v) as [t|] eqn:Hs.
  - rewrite (clone_of_text v t Hs Hwf). destruct v; try reflexivity. discriminate Hs.
  - destruct v; try discriminate Hs. reflexivity.
Qed.

(** X30 on an object that loses a member, an item and a NaN. *)
Lemma deepClone_keeps_what_json_keeps_witness :
  well_formed lossy /\
  deepClone lossy =
  Ok (JObj [("0", JArr [JNull; JNull; JNum 0]); ("text", JStr "a\b")]).
Proof.
  assert (Hwf : well_formed lossy).
  { cbn. repeat split; try (repeat constructor; fail);
      try (intros H; repeat (destruct H as [H|H]; [discriminate H|]); exact H). }
  split; [exact Hwf|].
  exact (deepClone_keeps_what_json_keeps lossy Hwf).
Defined.

End DeepCloneFacts.
